(** * Certificate vendor: the certificate lifecycle service

    A shallow embedding of
    [packages/services/certificatevendor/src/certificates/certificates.service.ts]
    (class [CertificateService]): the three public operations [get],
    [getWithCsr] and [ack] and the private methods they call.

    The service is an orchestration of calls to external collaborators
    (the registry manager, AWS IoT, S3, SSM, ACM PCA, the [pem] library and
    the IoT data plane).  Every such call is an explicit [Call]; a program
    is a finite tree of calls whose branches are the responses (a value, or
    the message of the error the call throws).  Running a program against a
    handler for the calls yields its result and the trace of the calls it
    made with their responses.  The theorems hold for every handler, that
    is, whatever the collaborators answer and however they fail.

    Conventions:
    - a thrown [Error] is its [message], the only part the service reads;
    - a response that does not throw has the shape the SDK declares, with
      the lists present; the fields the service converts to strings
      ([Certificate], [CertificateChain], the second segment of an ARN)
      are optional, as in the source;
    - the [response] object that a [try] block and its [catch] block share
      is the state of the service's monad;
    - the library functions [String.prototype.replace],
      [String.prototype.toUpperCase], [JSON.stringify], [process.env] and
      the messages of [ow] are parameters ([Runtime]). *)

From Stdlib Require Import String Ascii List Bool ZArith Lia.
Import ListNotations.

Local Open Scope string_scope.
Local Open Scope list_scope.

Local Infix "^^" := String.append (at level 60, right associativity).

Set Implicit Arguments.

(* ===================================================================== *)
(** ** JavaScript strings *)
(* ===================================================================== *)

Module Js.

(** [s.includes(pat)]: [pat] occurs in [s] as a substring. *)
Fixpoint includes (s pat : string) : bool :=
  if String.prefix pat s then true
  else match s with
       | EmptyString => false
       | String _ s' => includes s' pat
       end.

(** [s.split(sep)] for a one-character separator. *)
Fixpoint split (sep : ascii) (s : string) : list string :=
  match s with
  | EmptyString => [EmptyString]
  | String c s' =>
      if Ascii.eqb c sep then EmptyString :: split sep s'
      else match split sep s' with
           | h :: t => String c h :: t
           | [] => [String c EmptyString]
           end
  end.

(** Truthiness of a possibly undefined string: [undefined] and the empty
    string are falsy. *)
Definition truthy (o : option string) : bool :=
  match o with
  | Some s => negb (String.eqb s "")
  | None => false
  end.

(** String conversion in a template literal or a concatenation. *)
Definition to_string (o : option string) : string :=
  match o with
  | Some s => s
  | None => "undefined"
  end.

(** [o[key]] on an object used as a string map. *)
Fixpoint lookup (key : string) (o : list (string * string)) : option string :=
  match o with
  | [] => None
  | (k, v) :: rest => if String.eqb k key then Some v else lookup key rest
  end.

End Js.

(* ===================================================================== *)
(** ** Data model *)
(* ===================================================================== *)

(** [CertificateResponseModel]: the payload of a published outcome. *)
Record CertificateResponseModel := {
  location : option string;
  certificate : option string;
  certificateId : option string;
  message : option string
}.

Definition emptyResponse : CertificateResponseModel :=
  {| location := None; certificate := None; certificateId := None; message := None |}.

Definition set_location (v : string) (r : CertificateResponseModel) :=
  {| location := Some v; certificate := certificate r;
     certificateId := certificateId r; message := message r |}.
Definition set_certificate (v : string) (r : CertificateResponseModel) :=
  {| location := location r; certificate := Some v;
     certificateId := certificateId r; message := message r |}.
Definition set_certificateId (v : option string) (r : CertificateResponseModel) :=
  {| location := location r; certificate := certificate r;
     certificateId := v; message := message r |}.
Definition set_message (v : string) (r : CertificateResponseModel) :=
  {| location := location r; certificate := certificate r;
     certificateId := certificateId r; message := Some v |}.

Record CertInfo := {
  commonName : option string;
  organization : option string;
  organizationalUnit : option string;
  stateName : option string;
  country : option string
}.

Record ACMPCAParameters := {
  acmpcaCaArn : option string;
  acmpcaCaAlias : option string;
  awsiotCaID : option string;
  awsiotCaAlias : option string;
  certInfo : option CertInfo
}.

Definition set_awsiotCaID (v : option string) (p : ACMPCAParameters) :=
  {| acmpcaCaArn := acmpcaCaArn p; acmpcaCaAlias := acmpcaCaAlias p;
     awsiotCaID := v; awsiotCaAlias := awsiotCaAlias p; certInfo := certInfo p |}.
Definition set_acmpcaCaArn (v : option string) (p : ACMPCAParameters) :=
  {| acmpcaCaArn := v; acmpcaCaAlias := acmpcaCaAlias p;
     awsiotCaID := awsiotCaID p; awsiotCaAlias := awsiotCaAlias p; certInfo := certInfo p |}.

(** [ApiPassthrough.Subject] of an ACM PCA issuance request. *)
Record Subject := {
  Country : option string;
  Organization : option string;
  OrganizationalUnit : option string;
  State : option string;
  CommonName : option string
}.

Record IssueCertificateRequest := {
  Csr : string;
  CertificateAuthorityArn : string;
  SigningAlgorithm : string;
  ValidityValue : Z;
  ValidityType : string;
  ApiPassthrough : option Subject
}.

(** [AWS.ACMPCA.GetCertificateResponse]: both fields are optional. *)
Record GetCertificateResponse := {
  Certificate : option string;
  CertificateChain : option string
}.

(** [HeadObjectOutput], restricted to the field the service reads. *)
Record HeadObjectOutput := {
  Metadata : option (list (string * string))
}.

(** An entry of [effectivePolicies] or of [policies]. *)
Record Policy := { policyName : string }.

Inductive CertificateStatus := ACTIVE | INACTIVE.

(** The values injected into the constructor of [CertificateService]. *)
Record Config := {
  accountId : string;
  region : string;
  s3Bucket : string;
  s3Prefix : string;
  s3Suffix : string;
  presignedUrlExpiresInSeconds : Z;
  mqttGetSuccessTopic : string;
  mqttGetFailureTopic : string;
  mqttAckSuccessTopic : string;
  mqttAckFailureTopic : string;
  thingGroupName : string;
  caCertificateId : string;
  useDefaultPolicy : bool;
  rotatedCertificatePolicy : string;
  certificateExpiryDays : Z;
  deletePreviousCertificate : bool;
  cfg_acmpcaCaArn : string;
  acmpcaEnabled : bool;
  acmpcaSigningAlgorithm : string
}.

(** Library functions of the JavaScript runtime that the service uses and
    whose code is not part of it. *)
Record Runtime := {
  (** [s.replace(pattern, replacement)] with a string pattern *)
  String_replace : string -> string -> string -> string;
  (** [s.toUpperCase()] *)
  String_toUpperCase : string -> string;
  (** [JSON.stringify(r)] on a response model *)
  JSON_stringify : CertificateResponseModel -> string;
  (** [process.env[name]] *)
  process_env : string -> option string;
  (** the message of the error [ow] throws for an empty string, by label *)
  ow_nonEmpty_message : option string -> string
}.

(* ===================================================================== *)
(** ** Calls to the collaborators *)
(* ===================================================================== *)

Inductive Call :=
  (* this.registry *)
  | RegistryIsWhitelisted (deviceId : string)
  | RegistryUpdateAssetStatus (deviceId : string)
  (* this.s3 *)
  | S3HeadObject (Bucket Key : string)
  | S3GetSignedUrl (operation Bucket Key : string) (Expires : Z)
  (* this.iot *)
  | IotUpdateCertificate (certificateId : option string) (newStatus : CertificateStatus)
  | IotRemoveThingFromThingGroup (thingName thingGroupName : string)
  | IotListThingPrincipals (thingName : string)
  | IotDetachThingPrincipal (thingName principal : string)
  | IotListPrincipalThings (principal : string)
  | IotListAttachedPolicies (target : string)
  | IotDetachPolicy (target policyName : string)
  | IotDeleteCertificate (certificateId : option string)
  | IotDescribeCACertificate (certificateId : string)
  | IotRegisterCertificate (caCertificatePem certificatePem : string) (setAsActive : bool)
  | IotAttachThingPrincipal (principal thingName : string)
  | IotAttachPolicy (target policyName : string)
  | IotGetEffectivePolicies (principal : string)
  (* this.ssm *)
  | SsmGetParameter (Name : string) (WithDecryption : bool)
  (* pem *)
  | PemCreateCertificate (csr : string) (days : Z) (serviceKey serviceCertificate : string)
  (* this.acmpca *)
  | AcmpcaIssueCertificate (params : IssueCertificateRequest)
  | AcmpcaWaitFor (state CertificateAuthorityArn CertificateArn : string)
  (* this.iotData *)
  | IotDataPublish (topic payload : string) (qos : Z).

(** What a call answers when it does not throw. *)
Definition RetT (c : Call) : Type :=
  match c with
  | RegistryIsWhitelisted _ => bool
  | RegistryUpdateAssetStatus _ => unit
  | S3HeadObject _ _ => HeadObjectOutput
  | S3GetSignedUrl _ _ _ _ => string
  | IotUpdateCertificate _ _ => unit
  | IotRemoveThingFromThingGroup _ _ => unit
  | IotListThingPrincipals _ => list string
  | IotDetachThingPrincipal _ _ => unit
  | IotListPrincipalThings _ => list string
  | IotListAttachedPolicies _ => list Policy
  | IotDetachPolicy _ _ => unit
  | IotDeleteCertificate _ => unit
  | IotDescribeCACertificate _ => string
  | IotRegisterCertificate _ _ _ => string
  | IotAttachThingPrincipal _ _ => unit
  | IotAttachPolicy _ _ => unit
  | IotGetEffectivePolicies _ => list Policy
  | SsmGetParameter _ _ => string
  | PemCreateCertificate _ _ _ _ => string
  | AcmpcaIssueCertificate _ => string
  | AcmpcaWaitFor _ _ _ => GetCertificateResponse
  | IotDataPublish _ _ _ => unit
  end.

(** A result: [inl msg] is a thrown [Error] with message [msg]. *)
Definition Res (A : Type) : Type := (string + A)%type.

(** One call with its response. *)
Record Event := Ev { ev_call : Call; ev_resp : Res (RetT ev_call) }.

Definition ev_ok (e : Event) : bool :=
  match ev_resp e with inl _ => false | inr _ => true end.

(* ===================================================================== *)
(** ** Programs: trees of calls *)
(* ===================================================================== *)

Inductive Free (X : Type) : Type :=
  | Pure (x : X)
  | Vis (c : Call) (k : Res (RetT c) -> Free X).

Arguments Pure {X} x.
Arguments Vis {X} c k.

Fixpoint fbind {X Y : Type} (p : Free X) (f : X -> Free Y) : Free Y :=
  match p with
  | Pure x => f x
  | Vis c k => Vis c (fun r => fbind (k r) f)
  end.

(** A handler answers every call and updates the state of the world. *)
Definition Handler (W : Type) : Type := forall c : Call, W -> Res (RetT c) * W.

Fixpoint run {W X : Type} (h : Handler W) (p : Free X) (w : W) : X * list Event * W :=
  match p with
  | Pure x => (x, [], w)
  | Vis c k =>
      let '(r, w1) := h c w in
      let '(x, tr, w2) := run h (k r) w1 in
      (x, Ev c r :: tr, w2)
  end.

(** The service's monad: exceptions, and the [response] object of the
    current invocation, which the [try] block and the [catch] block share. *)
Definition M (A : Type) : Type :=
  CertificateResponseModel -> Free (Res A * CertificateResponseModel).

Definition ret {A : Type} (a : A) : M A := fun s => Pure (inr a, s).

Definition throw {A : Type} (msg : string) : M A := fun s => Pure (inl msg, s).

Definition bind {A B : Type} (m : M A) (f : A -> M B) : M B :=
  fun s => fbind (m s) (fun '(r, s1) =>
    match r with
    | inl e => Pure (inl e, s1)
    | inr a => f a s1
    end).

(** [try { m } catch (err) { h err.message }] *)
Definition try_catch {A : Type} (m : M A) (h : string -> M A) : M A :=
  fun s => fbind (m s) (fun '(r, s1) =>
    match r with
    | inl e => h e s1
    | inr a => Pure (inr a, s1)
    end).

(** Awaiting a call: a rejection is thrown. *)
Definition call (c : Call) : M (RetT c) := fun s => Vis c (fun r => Pure (r, s)).

(** An assignment to a field of [response]. *)
Definition update_response (f : CertificateResponseModel -> CertificateResponseModel)
  : M unit := fun s => Pure (inr tt, f s).

Declare Scope service_scope.
Delimit Scope service_scope with service.
Notation "x <- m ;; k" := (bind m (fun x => k))
  (at level 61, m at next level, right associativity) : service_scope.
Notation "m ;; k" := (bind m (fun _ => k))
  (at level 61, right associativity) : service_scope.
Local Open Scope service_scope.

(** The outcome of one invocation: what the caller gets and what was called. *)
Definition invoke {W A : Type} (h : Handler W) (m : M A) (w : W) : Res A * list Event :=
  let '(r, _, tr, _) := run h (m emptyResponse) w in (r, tr).

Definition read_response : M CertificateResponseModel := fun s => Pure (inr s, s).

(** [for (const x of l) { body x }] *)
Fixpoint for_of {A : Type} (l : list A) (body : A -> M unit) : M unit :=
  match l with
  | [] => ret tt
  | x :: rest => body x ;; for_of rest body
  end.

(* ===================================================================== *)
(** ** The service *)
(* ===================================================================== *)

Section CertificateService.

Variable cfg : Config.
Variable js : Runtime.

(** [ow(v, label, ow.string.nonEmpty)] *)
Definition ow_string_nonEmpty (label : option string) (v : string) : M unit :=
  if String.eqb v "" then throw (ow_nonEmpty_message js label) else ret tt.

(** [ow(v, ow.string.message(msg))]: [v] must be a string. *)
Definition ow_string_message (v : option string) (msg : string) : M unit :=
  match v with
  | Some _ => ret tt
  | None => throw msg
  end.

Definition getCertificateId (bucketName key : string) : M string :=
  try_catch
    (head <- call (S3HeadObject bucketName key) ;;
     match Metadata head with
     | None => throw "MISSING_CERTIFICATE_ID"
     | Some metadata =>
         match Js.lookup "certificateid" metadata with
         | None => throw "MISSING_CERTIFICATE_ID"
         | Some certificateId => ret certificateId
         end
     end)
    (fun err =>
       if String.eqb err "MISSING_CERTIFICATE_ID" then throw err
       else throw "CERTIFICATE_NOT_FOUND").

Definition activateCertificate (certificateId : string) : M unit :=
  try_catch
    (call (IotUpdateCertificate (Some certificateId) ACTIVE))
    (fun _ => throw "UNABLE_TO_ACTIVATE_CERTIFICATE").

Definition generatePresignedUrl (bucketName key : string) (expires : Z) : M string :=
  try_catch
    (call (S3GetSignedUrl "getObject" bucketName key expires))
    (fun _ => throw "UNABLE_TO_PRESIGN_URL").

Definition publishResponse (topicTemplate deviceId : string) (r : CertificateResponseModel)
  : M unit :=
  let topic := String_replace js topicTemplate "{thingName}" deviceId in
  try_catch
    (call (IotDataPublish topic (JSON_stringify js r) 1))
    (fun _ => throw "UNABLE_TO_PUBLISH_RESPONSE").

Definition getCaCertificate (certificateId : string) : M string :=
  try_catch
    (call (IotDescribeCACertificate certificateId))
    (fun _ => throw "UNABLE_TO_GET_CA_CERTIFICATE").

Definition getCAKey (rootCACertId : string) : M string :=
  try_catch
    (call (SsmGetParameter ("cdf-ca-key-" ^^ rootCACertId) true))
    (fun _ => throw "UNABLE_TO_FETCH_CA_KEY").

Definition createCertificateFromCsr (csr rootKey rootPem : string) : M string :=
  call (PemCreateCertificate csr (certificateExpiryDays cfg) rootKey rootPem).

Definition registerCertificate (ca certificate : string) : M string :=
  try_catch
    (call (IotRegisterCertificate ca certificate true))
    (fun _ => throw "UNABLE_TO_REGISTER_CERTIFICATE").

Definition attachCertificateToThing (certificateArn deviceId : string) : M unit :=
  try_catch
    (call (IotAttachThingPrincipal certificateArn deviceId))
    (fun _ => throw "UNABLE_TO_ATTACH_CERTIFICATE").

Definition certArn (certId : string) : string :=
  "arn:aws:iot:" ^^ region cfg ^^ ":" ^^ accountId cfg ^^ ":cert/" ^^ certId.

Definition getEffectivePolicies (certId : string) : M (list Policy) :=
  call (IotGetEffectivePolicies (certArn certId)).

Definition attachPolicyToCertificate (certificateArn policy : string)
  (previousCertificateId : option string) : M unit :=
  params <-
    (if Js.truthy previousCertificateId && negb (useDefaultPolicy cfg) then
       policies <- getEffectivePolicies (Js.to_string previousCertificateId) ;;
       ret (map (fun policy => (certificateArn, policyName policy)) policies)
     else
       ret [(certificateArn, policy)]) ;;
  try_catch
    (for_of params (fun param => call (IotAttachPolicy (fst param) (snd param))))
    (fun _ => throw "UNABLE_TO_ATTACH_POLICY").

(** The body of the loop of [removePreviousCertificate]. *)
Definition cleanupPrincipal (deviceId certId : string)
  (previousCertificateId : option string) (principal : string) : M unit :=
  if Js.includes principal certId then
    ret tt
  else if Js.truthy previousCertificateId
          && negb (Js.includes principal (Js.to_string previousCertificateId)) then
    ret tt
  else
    call (IotDetachThingPrincipal deviceId principal) ;;
    things <- call (IotListPrincipalThings principal) ;;
    if Nat.eqb (length things) 0 then
      let certificateId := nth_error (Js.split "/" principal) 1 in
      let target := certArn (Js.to_string certificateId) in
      policies <- call (IotListAttachedPolicies target) ;;
      for_of policies (fun policy => call (IotDetachPolicy target (policyName policy))) ;;
      call (IotUpdateCertificate certificateId INACTIVE) ;;
      call (IotDeleteCertificate certificateId)
    else
      ret tt.

Definition removePreviousCertificate (deviceId certId : string)
  (previousCertificateId : option string) : M unit :=
  principals <- call (IotListThingPrincipals deviceId) ;;
  for_of principals (cleanupPrincipal deviceId certId previousCertificateId).

Definition getSSMCertificate (csr caPem rootCACertId : string) : M string :=
  caKey <- getCAKey rootCACertId ;;
  createCertificateFromCsr csr caKey caPem.

Definition issueRequest (csr caArn : string) (certInfo : option CertInfo)
  : IssueCertificateRequest :=
  {| Csr := csr;
     CertificateAuthorityArn := caArn;
     SigningAlgorithm := acmpcaSigningAlgorithm cfg;
     ValidityValue := certificateExpiryDays cfg;
     ValidityType := "DAYS";
     ApiPassthrough :=
       match certInfo with
       | Some ci =>
           Some {| Country := country ci;
                   Organization := organization ci;
                   OrganizationalUnit := organizationalUnit ci;
                   State := stateName ci;
                   CommonName := commonName ci |}
       | None => None
       end |}.

Definition getACMCertificate (csr caArn : string) (certInfo : option CertInfo) : M string :=
  data <- call (AcmpcaIssueCertificate (issueRequest csr caArn certInfo)) ;;
  cert <- try_catch
            (call (AcmpcaWaitFor "certificateIssued" caArn data))
            (fun _ => throw "UNABLE_TO_ISSUE_CERTIFICATE") ;;
  ret (Js.to_string (Certificate cert) ^^ String "010"%char
         (Js.to_string (CertificateChain cert))).

(** The resolution of the request's [acmpcaParameters] in [getWithCsr]:
    the CA certificate id, the CA ARN and the subject to use. *)
Definition resolveAcmpcaParameters (acmpcaParameters : option ACMPCAParameters)
  : M (string * string * option CertInfo) :=
  match acmpcaParameters with
  | Some p0 =>
      p1 <- (if Js.truthy (awsiotCaAlias p0) then
               let p := set_awsiotCaID
                          (process_env js
                             ("CA_" ^^ Js.to_string
                                (option_map (String_toUpperCase js) (awsiotCaAlias p0))))
                          p0 in
               ow_string_message (awsiotCaID p) "Invalid `awsiotCaAlias`." ;;
               ret p
             else
               ow_string_message (awsiotCaID p0)
                 "Either `awsiotCaAlias` or `awsiotCaId` must be provided" ;;
               ret p0) ;;
      p2 <- (if Js.truthy (acmpcaCaAlias p1) then
               let p := set_acmpcaCaArn
                          (process_env js
                             ("PCA_" ^^ Js.to_string
                                (option_map (String_toUpperCase js) (acmpcaCaAlias p1))))
                          p1 in
               ow_string_message (acmpcaCaArn p) "Invalid `acmpcaCaAlias`." ;;
               ret p
             else
               ow_string_message (acmpcaCaArn p1)
                 "Either `acmpcaCaAlias` or `acmpcaCaArn` must be provided." ;;
               ret p1) ;;
      let acmCaArn :=
        if Js.truthy (acmpcaCaArn p2) then Js.to_string (acmpcaCaArn p2)
        else cfg_acmpcaCaArn cfg in
      let caCertID :=
        if Js.truthy (awsiotCaID p2) then Js.to_string (awsiotCaID p2)
        else caCertificateId cfg in
      ret (caCertID, acmCaArn, certInfo p2)
  | None =>
      ret (caCertificateId cfg, cfg_acmpcaCaArn cfg, None)
  end.

(** The [try] block of [get]. *)
Definition get_try (deviceId : string) : M unit :=
  ow_string_nonEmpty (Some "deviceId") deviceId ;;
  whitelisted <- call (RegistryIsWhitelisted deviceId) ;;
  (if negb (Bool.eqb whitelisted true) then throw "DEVICE_NOT_WHITELISTED" else ret tt) ;;
  let key := s3Prefix cfg ^^ deviceId ^^ s3Suffix cfg in
  certificateId <- getCertificateId (s3Bucket cfg) key ;;
  activateCertificate certificateId ;;
  presignedUrl <- generatePresignedUrl (s3Bucket cfg) key
                    (presignedUrlExpiresInSeconds cfg) ;;
  call (RegistryUpdateAssetStatus deviceId) ;;
  update_response (set_location presignedUrl) ;;
  response <- read_response ;;
  publishResponse (mqttGetSuccessTopic cfg) deviceId response.

Definition get (deviceId : string) : M unit :=
  update_response (fun _ => emptyResponse) ;;
  try_catch
    (get_try deviceId)
    (fun err =>
       update_response (set_message err) ;;
       response <- read_response ;;
       publishResponse (mqttGetFailureTopic cfg) deviceId response ;;
       throw err).

(** The issuance step of [getWithCsr]: the CA certificate and the device
    certificate, from ACM PCA or from the CA key held in SSM. *)
Definition issueCertificate (csr : string) (acmpcaParameters : option ACMPCAParameters)
  : M (string * string) :=
  if acmpcaEnabled cfg then
    resolved <- resolveAcmpcaParameters acmpcaParameters ;;
    let '(caCertID, acmCaArn, certInfo) := resolved in
    caPem <- getCaCertificate caCertID ;;
    certificate <- getACMCertificate csr acmCaArn certInfo ;;
    ret (caPem, certificate)
  else
    caPem <- getCaCertificate (caCertificateId cfg) ;;
    certificate <- getSSMCertificate csr caPem (caCertificateId cfg) ;;
    ret (caPem, certificate).

(** The [try] block of [getWithCsr]. *)
Definition getWithCsr_try (deviceId csr : string) (previousCertificateId : option string)
  (acmpcaParameters : option ACMPCAParameters) : M unit :=
  ow_string_nonEmpty (Some "deviceId") deviceId ;;
  ow_string_nonEmpty None csr ;;
  whitelisted <- call (RegistryIsWhitelisted deviceId) ;;
  (if negb (Bool.eqb whitelisted true) then throw "DEVICE_NOT_WHITELISTED" else ret tt) ;;
  issued <- issueCertificate csr acmpcaParameters ;;
  let '(caPem, certificate) := issued in
  certificateArn <- registerCertificate caPem certificate ;;
  attachCertificateToThing certificateArn deviceId ;;
  attachPolicyToCertificate certificateArn (rotatedCertificatePolicy cfg)
    previousCertificateId ;;
  call (RegistryUpdateAssetStatus deviceId) ;;
  update_response (set_certificate certificate) ;;
  update_response (set_certificateId (nth_error (Js.split "/" certificateArn) 1)) ;;
  response <- read_response ;;
  publishResponse (mqttGetSuccessTopic cfg) deviceId response.

Definition getWithCsr (deviceId csr : string) (previousCertificateId : option string)
  (acmpcaParameters : option ACMPCAParameters) : M unit :=
  update_response (fun _ => emptyResponse) ;;
  try_catch
    (getWithCsr_try deviceId csr previousCertificateId acmpcaParameters)
    (fun err =>
       update_response (set_message err) ;;
       response <- read_response ;;
       publishResponse (mqttGetFailureTopic cfg) deviceId response ;;
       throw err).

(** The [try] block of [ack]. *)
Definition ack_try (deviceId certId : string) (previousCertificateId : option string)
  : M unit :=
  whitelisted <- call (RegistryIsWhitelisted deviceId) ;;
  (if negb (Bool.eqb whitelisted true) then throw "DEVICE_NOT_WHITELISTED" else ret tt) ;;
  call (IotRemoveThingFromThingGroup deviceId (thingGroupName cfg)) ;;
  (if deletePreviousCertificate cfg then
     removePreviousCertificate deviceId certId previousCertificateId
   else ret tt) ;;
  update_response (set_message "OK") ;;
  response <- read_response ;;
  publishResponse (mqttAckSuccessTopic cfg) deviceId response.

Definition ack (deviceId certId : string) (previousCertificateId : option string) : M unit :=
  ow_string_nonEmpty (Some "deviceId") deviceId ;;
  ow_string_nonEmpty None certId ;;
  update_response (fun _ => emptyResponse) ;;
  try_catch
    (ack_try deviceId certId previousCertificateId)
    (fun err =>
       update_response (set_message err) ;;
       response <- read_response ;;
       publishResponse (mqttAckFailureTopic cfg) deviceId response ;;
       throw err).

(** The three public operations, as requests. *)
Inductive Operation :=
  | Get (deviceId : string)
  | GetWithCsr (deviceId csr : string) (previousCertificateId : option string)
      (acmpcaParameters : option ACMPCAParameters)
  | Ack (deviceId certId : string) (previousCertificateId : option string).

Definition perform (op : Operation) : M unit :=
  match op with
  | Get deviceId => get deviceId
  | GetWithCsr deviceId csr previousCertificateId acmpcaParameters =>
      getWithCsr deviceId csr previousCertificateId acmpcaParameters
  | Ack deviceId certId previousCertificateId => ack deviceId certId previousCertificateId
  end.

Definition deviceOf (op : Operation) : string :=
  match op with
  | Get deviceId | GetWithCsr deviceId _ _ _ | Ack deviceId _ _ => deviceId
  end.

(** The topics an operation publishes its outcome on. *)
Definition successTopic (op : Operation) : string :=
  String_replace js
    match op with
    | Get _ | GetWithCsr _ _ _ _ => mqttGetSuccessTopic cfg
    | Ack _ _ _ => mqttAckSuccessTopic cfg
    end "{thingName}" (deviceOf op).

Definition failureTopic (op : Operation) : string :=
  String_replace js
    match op with
    | Get _ | GetWithCsr _ _ _ _ => mqttGetFailureTopic cfg
    | Ack _ _ _ => mqttAckFailureTopic cfg
    end "{thingName}" (deviceOf op).

End CertificateService.

(* ===================================================================== *)
(** ** Properties of all runs *)
(* ===================================================================== *)

(** [wp p Q]: whatever the collaborators answer, the result [x] of [p] and
    the trace [tr] of its calls satisfy [Q x tr]. *)
Fixpoint wp {X : Type} (p : Free X) (Q : X -> list Event -> Prop) : Prop :=
  match p with
  | Pure x => Q x []
  | Vis c k => forall r : Res (RetT c), wp (k r) (fun x tr => Q x (Ev c r :: tr))
  end.

Definition wpM {A : Type} (m : M A) (s : CertificateResponseModel)
  (Q : Res A -> CertificateResponseModel -> list Event -> Prop) : Prop :=
  wp (m s) (fun x tr => Q (fst x) (snd x) tr).

(* ===================================================================== *)
(** ** Which calls a program can make *)
(* ===================================================================== *)

(** [AllCalls P p]: on every branch, [p] makes only calls that satisfy [P]. *)
Fixpoint AllCalls {X : Type} (P : Call -> bool) (p : Free X) : Prop :=
  match p with
  | Pure _ => True
  | Vis c k => P c = true /\ forall r, AllCalls P (k r)
  end.

Definition AllCallsM {A : Type} (P : Call -> bool) (m : M A) : Prop :=
  forall s, AllCalls P (m s).


(* ===================================================================== *)
(** ** Observations on traces *)
(* ===================================================================== *)

(** The answers of the registry to the eligibility check. *)
Definition eligibility_answer (e : Event) : list (Res bool) :=
  match e with
  | Ev c r =>
      match c return Res (RetT c) -> list (Res bool) with
      | RegistryIsWhitelisted _ => fun r => [r]
      | _ => fun _ => []
      end r
  end.

Definition eligibility_answers (tr : list Event) : list (Res bool) :=
  flat_map eligibility_answer tr.

(** Calls that change the state of the registry or of an authority. *)
Definition is_mutation (c : Call) : bool :=
  match c with
  | RegistryUpdateAssetStatus _
  | IotUpdateCertificate _ _
  | IotRemoveThingFromThingGroup _ _
  | IotDetachThingPrincipal _ _
  | IotDetachPolicy _ _
  | IotDeleteCertificate _
  | IotRegisterCertificate _ _ _
  | IotAttachThingPrincipal _ _
  | IotAttachPolicy _ _
  | PemCreateCertificate _ _ _ _
  | AcmpcaIssueCertificate _ => true
  | _ => false
  end.

Definition is_eligibility_check (c : Call) : bool :=
  match c with
  | RegistryIsWhitelisted _ => true
  | _ => false
  end.

(** The certificate id the service derives from a principal. *)
Definition certificateIdOf (principal : string) : option string :=
  nth_error (Js.split "/" principal) 1.

Definition option_eqb (a b : option string) : bool :=
  match a, b with
  | Some x, Some y => String.eqb x y
  | None, None => true
  | _, _ => false
  end.

(** The test of the cleanup loop: the principal is left alone. *)
Definition exempt (certId : string) (previousCertificateId : option string)
  (principal : string) : bool :=
  Js.includes principal certId
  || (Js.truthy previousCertificateId
      && negb (Js.includes principal (Js.to_string previousCertificateId))).

(** Calls that the cleanup must not make for the current certificate
    [certId]: the unbinding of a principal that contains it or, when a
    previous certificate is named, that does not contain that one; its
    deactivation; its deletion. *)
Definition respects_exemption (certId : string) (previousCertificateId : option string)
  (c : Call) : bool :=
  match c with
  | IotDetachThingPrincipal _ principal =>
      negb (exempt certId previousCertificateId principal)
  | IotUpdateCertificate id INACTIVE => negb (option_eqb id (Some certId))
  | IotDeleteCertificate id => negb (option_eqb id (Some certId))
  | _ => true
  end.

Definition is_delete (c : Call) : bool :=
  match c with
  | IotDeleteCertificate _ => true
  | _ => false
  end.

(** Calls between the listing of the devices of a principal and its
    deletion: they leave the bindings of principals to devices alone. *)
Definition keeps_bindings (c : Call) : bool :=
  match c with
  | IotListAttachedPolicies _ | IotDetachPolicy _ _ | IotUpdateCertificate _ INACTIVE => true
  | _ => false
  end.

(** Every deletion in [tr] comes after the principal was unbound from
    [deviceId] and the registry listed no device for it, with only policy
    and status calls in between. *)
Definition DeletionsJustified (deviceId : string) (tr : list Event) : Prop :=
  forall pre id x post,
    tr = pre ++ Ev (IotDeleteCertificate id) x :: post ->
    exists pre0 principal mid,
      pre = pre0 ++ Ev (IotDetachThingPrincipal deviceId principal) (inr tt)
                 :: Ev (IotListPrincipalThings principal) (inr []) :: mid
      /\ id = certificateIdOf principal
      /\ Forall (fun e => keeps_bindings (ev_call e) = true) mid.

(** The calls that delete the certificate of an orphaned principal. *)
Definition deletion_events (cfg : Config) (principal : string) (policies : list Policy)
  : list Event :=
  let id := certificateIdOf principal in
  let target := certArn cfg (Js.to_string id) in
  Ev (IotListAttachedPolicies target) (inr policies)
  :: map (fun policy => Ev (IotDetachPolicy target (policyName policy)) (inr tt)) policies
  ++ [Ev (IotUpdateCertificate id INACTIVE) (inr tt); Ev (IotDeleteCertificate id) (inr tt)].

(** The calls of a completed cleanup of one principal, given the devices
    the registry lists for it once unbound. *)
Definition cleanup_events (cfg : Config) (deviceId principal : string)
  (things : list string) (policies : list Policy) : list Event :=
  Ev (IotDetachThingPrincipal deviceId principal) (inr tt)
  :: Ev (IotListPrincipalThings principal) (inr things)
  :: match things with
     | [] => deletion_events cfg principal policies
     | _ :: _ => []
     end.

(** [m] leaves the [response] object as it found it. *)
Definition Kept {A : Type} (m : M A) : Prop :=
  forall s, wp (m s) (fun x _ => snd x = s).

(** What a completed iteration of the cleanup loop has done for a
    principal: nothing if it is exempt; otherwise it was unbound and, if no
    device was then listed for it, deleted. *)
Definition Cleaned (cfg : Config) (deviceId certId : string)
  (previousCertificateId : option string) (principal : string) (chunk : list Event) : Prop :=
  if exempt certId previousCertificateId principal then chunk = []
  else exists things policies, chunk = cleanup_events cfg deviceId principal things policies.

(* ===================================================================== *)
(** ** Published outcomes and status updates *)
(* ===================================================================== *)

Definition is_publish (c : Call) : bool :=
  match c with
  | IotDataPublish _ _ _ => true
  | _ => false
  end.

Definition is_status_update (c : Call) : bool :=
  match c with
  | RegistryUpdateAssetStatus _ => true
  | _ => false
  end.

(** The steps of an operation: neither a publication nor a status update. *)
Definition is_step (c : Call) : bool :=
  negb (is_publish c) && negb (is_status_update c).

(** The publications attempted: topic, payload, and whether the response
    channel accepted it. *)
Definition publication (e : Event) : list (string * string * bool) :=
  match ev_call e with
  | IotDataPublish topic payload _ => [(topic, payload, ev_ok e)]
  | _ => []
  end.

Definition publications (tr : list Event) : list (string * string * bool) :=
  flat_map publication tr.

(** The updates of the device status: device, and whether it succeeded. *)
Definition status_update (e : Event) : list (string * bool) :=
  match ev_call e with
  | RegistryUpdateAssetStatus deviceId => [(deviceId, ev_ok e)]
  | _ => []
  end.

Definition status_updates (tr : list Event) : list (string * bool) :=
  flat_map status_update tr.

(** The arguments pass the validation that [ack] does before its [try]. *)
Definition validated (op : Operation) : bool :=
  match op with
  | Ack deviceId certId _ => negb (String.eqb deviceId "") && negb (String.eqb certId "")
  | _ => true
  end.

(** The operations whose pipeline has a status update. *)
Definition updates_status (op : Operation) : bool :=
  match op with
  | Ack _ _ _ => false
  | _ => true
  end.

Definition publish (js : Runtime) (topic : string) (r : CertificateResponseModel)
  (x : Res unit) : Event :=
  Ev (IotDataPublish topic (JSON_stringify js r) 1) x.

(** The ways an invocation of a public operation can end: what the caller
    gets, and the calls made. *)
Inductive Outcome (cfg : Config) (js : Runtime) (op : Operation)
  : Res unit -> list Event -> Prop :=
  | Rejected (e : string) :
      (* the arguments of [ack] are refused before its [try] *)
      validated op = false ->
      Outcome cfg js op (inl e) []
  | Succeeded (steps : list Event) (response : CertificateResponseModel) :
      publications steps = [] ->
      status_updates steps = (if updates_status op then [(deviceOf op, true)] else []) ->
      Outcome cfg js op (inr tt)
        (steps ++ [publish js (successTopic cfg js op) response (inr tt)])
  | Failed (steps : list Event) (e : string) (x : Res unit) :
      (* a step threw [e] before the success publication *)
      publications steps = [] ->
      status_updates steps = []
      \/ (updates_status op = true /\ status_updates steps = [(deviceOf op, false)]) ->
      Outcome cfg js op
        (inl (match x with inr _ => e | inl _ => "UNABLE_TO_PUBLISH_RESPONSE" end))
        (steps ++ [publish js (failureTopic cfg js op) (set_message e emptyResponse) x])
  | Unpublished (steps : list Event) (response : CertificateResponseModel)
      (e : string) (x : Res unit) :
      (* the success publication threw *)
      publications steps = [] ->
      status_updates steps = (if updates_status op then [(deviceOf op, true)] else []) ->
      Outcome cfg js op (inl "UNABLE_TO_PUBLISH_RESPONSE")
        ((steps ++ [publish js (successTopic cfg js op) response (inl e)])
           ++ [publish js (failureTopic cfg js op)
                 (set_message "UNABLE_TO_PUBLISH_RESPONSE" response) x]).

(** The outcomes the response channel accepted. *)
Definition delivered (tr : list Event) : list (string * string) :=
  map fst (filter snd (publications tr)).

(* ===================================================================== *)
(** ** The steps of [get] *)
(* ===================================================================== *)

(** The answers to the lookup of the staged certificate. *)
Definition lookup_answer (e : Event) : list (Res HeadObjectOutput) :=
  match e with
  | Ev c r =>
      match c return Res (RetT c) -> list (Res HeadObjectOutput) with
      | S3HeadObject _ _ => fun r => [r]
      | _ => fun _ => []
      end r
  end.

Definition lookup_answers (tr : list Event) : list (Res HeadObjectOutput) :=
  flat_map lookup_answer tr.

(** The answers to the activation of a certificate. *)
Definition activation_answer (e : Event) : list (Res unit) :=
  match e with
  | Ev c r =>
      match c return Res (RetT c) -> list (Res unit) with
      | IotUpdateCertificate _ ACTIVE => fun r => [r]
      | _ => fun _ => []
      end r
  end.

Definition activation_answers (tr : list Event) : list (Res unit) :=
  flat_map activation_answer tr.

(** The answers to the signing of the URL. *)
Definition presign_answer (e : Event) : list (Res string) :=
  match e with
  | Ev c r =>
      match c return Res (RetT c) -> list (Res string) with
      | S3GetSignedUrl _ _ _ _ => fun r => [r]
      | _ => fun _ => []
      end r
  end.

Definition presign_answers (tr : list Event) : list (Res string) :=
  flat_map presign_answer tr.

(** The certificate id in the metadata of the staged object, if any. *)
Definition staged_id (head : HeadObjectOutput) : option string :=
  match Metadata head with
  | Some metadata => Js.lookup "certificateid" metadata
  | None => None
  end.

(** The invocation failed with [code] before the success publication: the
    only publication is that of the failure outcome with message [code],
    and the caller gets [code], or [UNABLE_TO_PUBLISH_RESPONSE] if the
    channel refused the outcome. *)
Definition FailsWith (cfg : Config) (js : Runtime) (op : Operation) (code : string)
  (r : Res unit) (tr : list Event) : Prop :=
  exists accepted : bool,
    publications tr =
      [(failureTopic cfg js op, JSON_stringify js (set_message code emptyResponse), accepted)]
    /\ r = inl (if accepted then code else "UNABLE_TO_PUBLISH_RESPONSE").

(* ===================================================================== *)
(** ** The steps of [getWithCsr] *)
(* ===================================================================== *)

(** The calls of the issuance step. *)
Definition is_issuance_call (c : Call) : bool :=
  match c with
  | IotDescribeCACertificate _ | SsmGetParameter _ _ | PemCreateCertificate _ _ _ _
  | AcmpcaIssueCertificate _ | AcmpcaWaitFor _ _ _ => true
  | _ => false
  end.

(** The calls of the policy attachment step. *)
Definition is_policy_call (c : Call) : bool :=
  match c with
  | IotGetEffectivePolicies _ | IotAttachPolicy _ _ => true
  | _ => false
  end.

(** The calls of the cleanup of previous certificates. *)
Definition is_cleanup_call (c : Call) : bool :=
  match c with
  | IotListThingPrincipals _ | IotDetachThingPrincipal _ _ | IotListPrincipalThings _
  | IotListAttachedPolicies _ | IotDetachPolicy _ _ | IotUpdateCertificate _ INACTIVE
  | IotDeleteCertificate _ => true
  | _ => false
  end.

Definition no_call (c : Call) : bool := false.

(** The certificates the managed CA answered with. *)
Definition issued_answer (e : Event) : list (Res GetCertificateResponse) :=
  match e with
  | Ev c r =>
      match c return Res (RetT c) -> list (Res GetCertificateResponse) with
      | AcmpcaWaitFor _ _ _ => fun r => [r]
      | _ => fun _ => []
      end r
  end.

Definition issued_answers (tr : list Event) : list (Res GetCertificateResponse) :=
  flat_map issued_answer tr.

(** The registrations: CA certificate, device certificate, and the ARN
    the registry answered. *)
Definition registration (e : Event) : list (string * string * Res string) :=
  match e with
  | Ev c r =>
      match c return Res (RetT c) -> list (string * string * Res string) with
      | IotRegisterCertificate ca pem _ => fun r => [(ca, pem, r)]
      | _ => fun _ => []
      end r
  end.

Definition registrations (tr : list Event) : list (string * string * Res string) :=
  flat_map registration tr.

(** The policy attachments: target, policy, and whether it succeeded. *)
Definition attachment (e : Event) : list (string * string * bool) :=
  match ev_call e with
  | IotAttachPolicy target policy => [(target, policy, ev_ok e)]
  | _ => []
  end.

Definition attachments (tr : list Event) : list (string * string * bool) :=
  flat_map attachment tr.

(** The effective policies asked for: principal, and the answer. *)
Definition effective_answer (e : Event) : list (string * Res (list Policy)) :=
  match e with
  | Ev c r =>
      match c return Res (RetT c) -> list (string * Res (list Policy)) with
      | IotGetEffectivePolicies principal => fun r => [(principal, r)]
      | _ => fun _ => []
      end r
  end.

Definition effective_answers (tr : list Event) : list (string * Res (list Policy)) :=
  flat_map effective_answer tr.

(** The PEM bundle of a certificate of the managed CA: the leaf, a
    newline, the chain. *)
Definition pem_bundle (cert : GetCertificateResponse) : string :=
  Js.to_string (Certificate cert) ^^ String "010"%char (Js.to_string (CertificateChain cert)).

(** The policies are inherited from the previous certificate. *)
Definition inherits (cfg : Config) (previousCertificateId : option string) : bool :=
  Js.truthy previousCertificateId && negb (useDefaultPolicy cfg).

(** The attachments of a list of (target, policy) that all succeeded. *)
Definition attached (params : list (string * string)) : list (string * string * bool) :=
  map (fun p => (fst p, snd p, true)) params.

(** How the attachment of [params], in order, can end: all attached; or
    the first failure, after which the rest is not attempted and
    [UNABLE_TO_ATTACH_POLICY] is thrown. *)
Definition AttachOutcome (params : list (string * string)) (r : Res unit)
  (atts : list (string * string * bool)) : Prop :=
  match r with
  | inr _ => atts = attached params
  | inl e =>
      e = "UNABLE_TO_ATTACH_POLICY"
      /\ exists done failed rest,
           params = done ++ failed :: rest
           /\ atts = attached done ++ [(fst failed, snd failed, false)]
  end.

(** The policy attachment step of [getWithCsr] for the certificate [arn]. *)
Definition PolicyStep (cfg : Config) (arn policy : string)
  (previousCertificateId : option string) (r : Res unit) (tr : list Event) : Prop :=
  if inherits cfg previousCertificateId then
    (exists e,
        effective_answers tr = [(certArn cfg (Js.to_string previousCertificateId), inl e)]
        /\ attachments tr = [] /\ r = inl e)
    \/ (exists policies,
        effective_answers tr = [(certArn cfg (Js.to_string previousCertificateId), inr policies)]
        /\ AttachOutcome (map (fun p => (arn, policyName p)) policies) r (attachments tr))
  else
    effective_answers tr = []
    /\ AttachOutcome [(arn, policy)] r (attachments tr).

(* ===================================================================== *)
(** ** A concrete deployment and scripted collaborators *)
(* ===================================================================== *)

Module Example.

Definition cfg : Config :=
  {| accountId := "123456789012";
     region := "us-west-2";
     s3Bucket := "certs";
     s3Prefix := "staged/";
     s3Suffix := ".zip";
     presignedUrlExpiresInSeconds := 300;
     mqttGetSuccessTopic := "cdf/certificates/{thingName}/get/accepted";
     mqttGetFailureTopic := "cdf/certificates/{thingName}/get/rejected";
     mqttAckSuccessTopic := "cdf/certificates/{thingName}/ack/accepted";
     mqttAckFailureTopic := "cdf/certificates/{thingName}/ack/rejected";
     thingGroupName := "rotate";
     caCertificateId := "ca-1";
     useDefaultPolicy := false;
     rotatedCertificatePolicy := "policy-default";
     certificateExpiryDays := 365;
     deletePreviousCertificate := true;
     cfg_acmpcaCaArn := "arn:aws:acm-pca:us-west-2:123456789012:certificate-authority/ca";
     acmpcaEnabled := false;
     acmpcaSigningAlgorithm := "SHA256WITHRSA" |}.

(** The same deployment with the managed CA switched on. *)
Definition cfg_acmpca : Config :=
  {| accountId := accountId cfg; region := region cfg; s3Bucket := s3Bucket cfg;
     s3Prefix := s3Prefix cfg; s3Suffix := s3Suffix cfg;
     presignedUrlExpiresInSeconds := presignedUrlExpiresInSeconds cfg;
     mqttGetSuccessTopic := mqttGetSuccessTopic cfg;
     mqttGetFailureTopic := mqttGetFailureTopic cfg;
     mqttAckSuccessTopic := mqttAckSuccessTopic cfg;
     mqttAckFailureTopic := mqttAckFailureTopic cfg;
     thingGroupName := thingGroupName cfg; caCertificateId := caCertificateId cfg;
     useDefaultPolicy := useDefaultPolicy cfg;
     rotatedCertificatePolicy := rotatedCertificatePolicy cfg;
     certificateExpiryDays := certificateExpiryDays cfg;
     deletePreviousCertificate := deletePreviousCertificate cfg;
     cfg_acmpcaCaArn := cfg_acmpcaCaArn cfg;
     acmpcaEnabled := true;
     acmpcaSigningAlgorithm := acmpcaSigningAlgorithm cfg |}.

Fixpoint drop (n : nat) (s : string) : string :=
  match n, s with
  | S n', String _ s' => drop n' s'
  | _, _ => s
  end.

(** Replacement of the first occurrence of a pattern. *)
Fixpoint replace_first (s pat rep : string) : string :=
  if String.prefix pat s then rep ^^ drop (String.length pat) s
  else match s with
       | EmptyString => EmptyString
       | String c s' => String c (replace_first s' pat rep)
       end.

Definition field (name : string) (v : option string) : string :=
  match v with
  | Some x => name ^^ "=" ^^ x ^^ ";"
  | None => ""
  end.

(** A rendering of the response model that keeps its fields apart. *)
Definition render (r : CertificateResponseModel) : string :=
  "{" ^^ field "location" (location r) ^^ field "certificate" (certificate r)
      ^^ field "certificateId" (certificateId r) ^^ field "message" (message r) ^^ "}".

Definition js : Runtime :=
  {| String_replace := replace_first;
     String_toUpperCase := fun s => s;
     JSON_stringify := render;
     process_env := fun name =>
       if String.eqb name "CA_PLANT" then Some "ca-plant"
       else if String.eqb name "PCA_PLANT" then Some "arn:aws:acm-pca:plant"
       else None;
     ow_nonEmpty_message := fun label =>
       "Expected string " ^^ Js.to_string label ^^ " to not be empty" |}.

(** What the collaborators answer in a scenario. *)
Record Scenario := {
  whitelisted : bool;
  failing : Call -> bool;
  staged : HeadObjectOutput;
  principals : list string;
  things : string -> list string;
  policies : string -> list Policy
}.

Definition answer (sc : Scenario) (c : Call) : RetT c :=
  match c return RetT c with
  | RegistryIsWhitelisted _ => whitelisted sc
  | RegistryUpdateAssetStatus _ => tt
  | S3HeadObject _ _ => staged sc
  | S3GetSignedUrl _ bucket key _ => "https://" ^^ bucket ^^ "/" ^^ key ^^ "?signed"
  | IotUpdateCertificate _ _ => tt
  | IotRemoveThingFromThingGroup _ _ => tt
  | IotListThingPrincipals _ => principals sc
  | IotDetachThingPrincipal _ _ => tt
  | IotListPrincipalThings principal => things sc principal
  | IotListAttachedPolicies target => policies sc target
  | IotDetachPolicy _ _ => tt
  | IotDeleteCertificate _ => tt
  | IotDescribeCACertificate _ => "CA-PEM"
  | IotRegisterCertificate _ _ _ => "arn:aws:iot:us-west-2:123456789012:cert/new"
  | IotAttachThingPrincipal _ _ => tt
  | IotAttachPolicy _ _ => tt
  | IotGetEffectivePolicies principal => policies sc principal
  | SsmGetParameter _ _ => "CA-KEY"
  | PemCreateCertificate _ _ _ _ => "LEAF-PEM"
  | AcmpcaIssueCertificate _ => "arn:aws:acm-pca:issued"
  | AcmpcaWaitFor _ _ _ =>
      {| Certificate := Some "LEAF-PEM"; CertificateChain := Some "CHAIN-PEM" |}
  | IotDataPublish _ _ _ => tt
  end.

(** The collaborators of a scenario: a stateless world in which the calls
    selected by [failing] throw. *)
Definition world (sc : Scenario) : Handler unit :=
  fun c w => if failing sc c then (inl "ServiceError", w) else (inr (answer sc c), w).

Definition P1 : string := "arn:aws:iot:us-west-2:123456789012:cert/p1".
Definition P2 : string := "arn:aws:iot:us-west-2:123456789012:cert/p2".
Definition P3 : string := "arn:aws:iot:us-west-2:123456789012:cert/p3".

(** Device [dev-1] with principals [P1] (current), [P2] (orphaned once
    unbound) and [P3] (shared with [dev-2]). *)
Definition nominal : Scenario :=
  {| whitelisted := true;
     failing := fun _ => false;
     staged := {| Metadata := Some [("certificateid", "p1")] |};
     principals := [P1; P2; P3];
     things := fun p => if String.eqb p P3 then ["dev-2"] else [];
     policies := fun _ => [{| policyName := "policy-a" |}; {| policyName := "policy-b" |}] |}.

Definition with_failing (f : Call -> bool) (sc : Scenario) : Scenario :=
  {| whitelisted := whitelisted sc; failing := f; staged := staged sc;
     principals := principals sc; things := things sc; policies := policies sc |}.

Definition denied : Scenario :=
  {| whitelisted := false; failing := failing nominal; staged := staged nominal;
     principals := principals nominal; things := things nominal;
     policies := policies nominal |}.

(** Device [dev-1] whose current certificate is [p1], also bound to the
    distinct certificate [p10]. *)
Definition P10 : string := "arn:aws:iot:us-west-2:123456789012:cert/p10".

Definition lookalike : Scenario :=
  {| whitelisted := true; failing := failing nominal; staged := staged nominal;
     principals := [P10]; things := fun _ => [];
     policies := policies nominal |}.

(** Nothing names the certificate staged for the device. *)
Definition unstaged : Scenario :=
  {| whitelisted := true; failing := failing nominal;
     staged := {| Metadata := Some [("etag", "0")] |};
     principals := principals nominal; things := things nominal;
     policies := policies nominal |}.

(** The response channel is down. *)
Definition unpublishable : Scenario := with_failing is_publish nominal.

End Example.

(* ===================================================================== *)
(** ** Failures of the calls *)
(* ===================================================================== *)

(** The calls that threw, with the message of the error. *)
Definition failure (e : Event) : list (Call * string) :=
  match ev_resp e with
  | inl msg => [(ev_call e, msg)]
  | inr _ => []
  end.

Definition failures (tr : list Event) : list (Call * string) :=
  flat_map failure tr.

(** The message under which the service reports that the call [c] threw
    an error of message [e]: the code of the [catch] block around the call,
    and [e] itself where the call is not in a [try] of its own. *)
Definition code_of (c : Call) (e : string) : string :=
  match c with
  | S3HeadObject _ _ =>
      if String.eqb e "MISSING_CERTIFICATE_ID" then e else "CERTIFICATE_NOT_FOUND"
  | IotUpdateCertificate _ ACTIVE => "UNABLE_TO_ACTIVATE_CERTIFICATE"
  | S3GetSignedUrl _ _ _ _ => "UNABLE_TO_PRESIGN_URL"
  | IotDescribeCACertificate _ => "UNABLE_TO_GET_CA_CERTIFICATE"
  | SsmGetParameter _ _ => "UNABLE_TO_FETCH_CA_KEY"
  | AcmpcaWaitFor _ _ _ => "UNABLE_TO_ISSUE_CERTIFICATE"
  | IotRegisterCertificate _ _ _ => "UNABLE_TO_REGISTER_CERTIFICATE"
  | IotAttachThingPrincipal _ _ => "UNABLE_TO_ATTACH_CERTIFICATE"
  | IotAttachPolicy _ _ => "UNABLE_TO_ATTACH_POLICY"
  | IotDataPublish _ _ _ => "UNABLE_TO_PUBLISH_RESPONSE"
  | _ => e
  end.

(** A procedure stops at the first call that throws: if it returns, no
    call threw; if it throws, either no call threw (the procedure raised
    the error itself) or the call that threw is its last call, and the
    error it throws is the one reported for that call. *)
Definition FailFast {A : Type} (r : Res A) (tr : list Event) : Prop :=
  match r with
  | inr _ => failures tr = []
  | inl thrown =>
      failures tr = []
      \/ exists pre c e,
           tr = pre ++ [Ev c (inl e)] /\ failures pre = [] /\ thrown = code_of c e
  end.

(** The operations that clean up the previous certificates of the device. *)
Definition cleans_up (cfg : Config) (op : Operation) : bool :=
  match op with
  | Ack _ _ _ => deletePreviousCertificate cfg
  | _ => false
  end.

(** The calls to the managed CA, and those of the issuance under the CA
    key held by the deployment. *)
Definition is_managed_ca_call (c : Call) : bool :=
  match c with
  | AcmpcaIssueCertificate _ | AcmpcaWaitFor _ _ _ => true
  | _ => false
  end.

Definition is_local_ca_call (c : Call) : bool :=
  match c with
  | SsmGetParameter _ _ | PemCreateCertificate _ _ _ _ => true
  | _ => false
  end.

(** What a request asks for as the CA certificate and as the managed CA:
    what its alias names in the environment if it gives an alias, what it
    gives explicitly otherwise. *)
Definition requested_ca (js : Runtime) (p : ACMPCAParameters) : option string :=
  if Js.truthy (awsiotCaAlias p) then
    process_env js
      ("CA_" ^^ Js.to_string (option_map (String_toUpperCase js) (awsiotCaAlias p)))
  else awsiotCaID p.

Definition requested_arn (js : Runtime) (p : ACMPCAParameters) : option string :=
  if Js.truthy (acmpcaCaAlias p) then
    process_env js
      ("PCA_" ^^ Js.to_string (option_map (String_toUpperCase js) (acmpcaCaAlias p)))
  else acmpcaCaArn p.

(** [v ? v : d] on a string. *)
Definition or_default (v d : string) : string :=
  if String.eqb v "" then d else v.

(** The character [sep] does not occur in [s]. *)
Fixpoint free_of (sep : ascii) (s : string) : bool :=
  match s with
  | EmptyString => true
  | String c s' => negb (Ascii.eqb c sep) && free_of sep s'
  end.


(** The authorities of an issuance by the managed CA: the configured ones
    if the request carries no parameters; otherwise what the request asks
    for, which must be defined, or the configured one in place of an empty
    string, and the subject of the request. *)
Definition Resolved (cfg : Config) (js : Runtime) (params : option ACMPCAParameters)
  (caId arn : string) (info : option CertInfo) : Prop :=
  match params with
  | None => caId = caCertificateId cfg /\ arn = cfg_acmpcaCaArn cfg /\ info = None
  | Some p =>
      exists ca a,
        requested_ca js p = Some ca /\ requested_arn js p = Some a
        /\ caId = or_default ca (caCertificateId cfg)
        /\ arn = or_default a (cfg_acmpcaCaArn cfg)
        /\ info = certInfo p
  end.

(** The calls of an issuance that succeeded, with the CA certificate and
    the device certificate it gave: under the CA key of the deployment, or
    by the managed CA. *)
Inductive Issued (cfg : Config) (js : Runtime) (csr : string)
  (params : option ACMPCAParameters) : string -> string -> list Event -> Prop :=
  | issued_locally (caPem caKey pem : string) :
      acmpcaEnabled cfg = false ->
      Issued cfg js csr params caPem pem
        [Ev (IotDescribeCACertificate (caCertificateId cfg)) (inr caPem);
         Ev (SsmGetParameter ("cdf-ca-key-" ^^ caCertificateId cfg) true) (inr caKey);
         Ev (PemCreateCertificate csr (certificateExpiryDays cfg) caKey caPem) (inr pem)]
  | issued_by_the_managed_ca (caId arn : string) (info : option CertInfo)
      (caPem data : string) (cert : GetCertificateResponse) :
      acmpcaEnabled cfg = true ->
      Resolved cfg js params caId arn info ->
      Issued cfg js csr params caPem
        (Js.to_string (Certificate cert) ^^ String "010"%char
           (Js.to_string (CertificateChain cert)))
        [Ev (IotDescribeCACertificate caId) (inr caPem);
         Ev (AcmpcaIssueCertificate (issueRequest cfg csr arn info)) (inr data);
         Ev (AcmpcaWaitFor "certificateIssued" arn data) (inr cert)].

(** The calls of a policy attachment that succeeded for the certificate
    [arn]: the effective policies of the previous certificate are read and
    each is attached, or the one given policy is attached. *)
Definition attaching_events (cfg : Config) (arn policy : string)
  (previousCertificateId : option string) (policies : list Policy) : list Event :=
  if inherits cfg previousCertificateId then
    Ev (IotGetEffectivePolicies (certArn cfg (Js.to_string previousCertificateId)))
      (inr policies)
    :: map (fun p => Ev (IotAttachPolicy arn (policyName p)) (inr tt)) policies
  else [Ev (IotAttachPolicy arn policy) (inr tt)].

(* ===================================================================== *)
(** ** More scenarios *)
(* ===================================================================== *)

Module Scenes.

Definition is_registration (c : Call) : bool :=
  match c with
  | IotRegisterCertificate _ _ _ => true
  | _ => false
  end.

(** The registration of certificates is down. *)
Definition registration_down : Example.Scenario :=
  Example.with_failing is_registration Example.nominal.

(** A request that names its authorities by aliases, the first of which
    the environment does not know. *)
Definition unknown_alias : ACMPCAParameters :=
  {| acmpcaCaArn := None; acmpcaCaAlias := Some "PLANT";
     awsiotCaID := Some "ca-explicit"; awsiotCaAlias := Some "NOWHERE";
     certInfo := None |}.

(** The unbinding of [P3] is refused. *)
Definition is_unbinding_of_P3 (c : Call) : bool :=
  match c with
  | IotDetachThingPrincipal _ principal => String.eqb principal Example.P3
  | _ => false
  end.

Definition unbinding_refused : Example.Scenario :=
  Example.with_failing is_unbinding_of_P3 Example.nominal.

End Scenes.

(* ===================================================================== *)
(** * The presigned URLs of a command *)
(* ===================================================================== *)

(** A shallow embedding of the class [PresignedUrlsService] of the same
    file: [generateForUpload], [generateForDownload] and the private
    methods they call.

    Conventions, beside those above:
    - a request has its declared fields: the device and command names are
      strings, the requested keys and aliases are arrays;
    - what the command and template services and AWS IoT answer may lack
      any part the service reads: the command or the template itself, the
      job of a job description, the targets of a job, the groups of a
      device, the required files of a template, the file of an alias;
      reading a property of a missing part throws a [TypeError];
    - an object used as a map from strings is the list of its own entries,
      in the order of their creation; reading a key of which the object has
      no own entry gives the member of that name that objects inherit from
      their prototype ([constructor], [toString], ...), if there is one:
      which members there are, and what their [bucketName] and [key] are,
      is a parameter of the runtime ([inherited]); assigning a string to
      the key [__proto__] of an object literal creates no entry;
    - the two requests that are awaited together are both sent, in the
      order of the source; when both fail, which error is thrown depends
      on which settles first, a parameter of the run ([race]). *)
Module Presigned.

Record S3File := {
  bucketName : option string;
  key : option string
}.

Record CommandModel := {
  cmd_commandId : option string;
  jobId : option string;
  templateId : option string;
  (* the own entries of [files]; an entry may hold [undefined] or [null] *)
  files : option (list (string * option S3File))
}.

Record TemplateModel := {
  presignedUrlExpiresInSeconds : option Z;
  requiredFiles : option (list string)
}.

Record Job := {
  targets : option (list string)
}.

Record DescribeJobResponse := {
  job : option Job
}.

Record GroupNameAndArn := {
  groupName : option string;
  groupArn : option string
}.

Record ListThingGroupsForThingResponse := {
  thingGroups : option (list GroupNameAndArn)
}.

Inductive PresignedResponseStatusType := SUCCESS | FAILED.

Record PresignedResponseModel := {
  thingName : string;
  commandId : string;
  status : PresignedResponseStatusType;
  presignedUrls : option (list (string * string))
}.

Definition set_status (v : PresignedResponseStatusType) (r : PresignedResponseModel) :=
  {| thingName := thingName r; commandId := commandId r; status := v;
     presignedUrls := presignedUrls r |}.
Definition set_presignedUrls (v : list (string * string)) (r : PresignedResponseModel) :=
  {| thingName := thingName r; commandId := commandId r; status := status r;
     presignedUrls := Some v |}.

Record PresignedUploadRequestModel := {
  up_thingName : string;
  up_commandId : string;
  requestedObjectKeys : list string
}.

Record PresignedDownloadRequestModel := {
  down_thingName : string;
  down_commandId : string;
  requestedFileAliases : list string
}.

(** The injected configuration. *)
Record Config := {
  s3Bucket : string;
  s3Prefix : string;
  presignedTopic : string
}.

(** The library functions the service relies on. *)
Record Runtime := {
  String_replace : string -> string -> string -> string;
  JSON_stringify : PresignedResponseModel -> string;
  (* the message of the error of a failed [ow] check *)
  ow_message : string;
  (* the message of the [TypeError] of reading a property of [undefined] *)
  TypeError_message : string;
  (* of two requests that both fail, the error of the first to settle *)
  race : string -> string -> string;
  (* the member of this name that objects inherit, seen as a file *)
  inherited : string -> option S3File
}.

(** The own entry of the key [k] in an object used as a map. *)
Fixpoint own {V : Type} (k : string) (o : list (string * V)) : option V :=
  match o with
  | [] => None
  | (k', v) :: rest => if String.eqb k' k then Some v else own k rest
  end.

(** [o[k]]: the own entry of [k] if there is one, which may hold
    [undefined]; otherwise the inherited member of that name. *)
Definition lookup {V : Type} (inherited : string -> option V) (k : string)
  (o : list (string * option V)) : option V :=
  match own k o with
  | Some v => v
  | None => inherited k
  end.

(** The entry of [k] is set to [v], in place, or created last. *)
Fixpoint upsert {V : Type} (k : string) (v : V) (o : list (string * V))
  : list (string * V) :=
  match o with
  | [] => [(k, v)]
  | (k', v') :: rest =>
      if String.eqb k' k then (k', v) :: rest else (k', v') :: upsert k v rest
  end.

(** [o[k] = v] for a string [v] on an object literal: the key [__proto__]
    is the accessor of the prototype, whose setter ignores a string. *)
Definition assign (k : string) (v : string) (o : list (string * string))
  : list (string * string) :=
  if String.eqb k "__proto__" then o else upsert k v o.

(** The calls to the collaborators. *)
Inductive Call : Type :=
  | CommandsGet (commandId : string)
  | IotDescribeJob (jobId : option string)
  | TemplatesGet (templateId : option string)
  | IotListThingGroupsForThing (thingName : string)
  | S3GetSignedUrl (operation : string) (Bucket Key : option string) (Expires : option Z)
  | IotDataPublish (topic payload : string) (qos : Z).

Definition RetT (c : Call) : Type :=
  match c with
  | CommandsGet _ => option CommandModel
  | IotDescribeJob _ => DescribeJobResponse
  | TemplatesGet _ => option TemplateModel
  | IotListThingGroupsForThing _ => ListThingGroupsForThingResponse
  | S3GetSignedUrl _ _ _ _ => string
  | IotDataPublish _ _ _ => unit
  end.

Record Event := Ev { ev_call : Call; ev_resp : Res (RetT ev_call) }.

Inductive Free (X : Type) : Type :=
  | Pure (x : X)
  | Vis (c : Call) (k : Res (RetT c) -> Free X).

Arguments Pure {X} x.
Arguments Vis {X} c k.

Fixpoint fbind {X Y : Type} (p : Free X) (f : X -> Free Y) : Free Y :=
  match p with
  | Pure x => f x
  | Vis c k => Vis c (fun r => fbind (k r) f)
  end.

Definition Handler (W : Type) : Type := forall c : Call, W -> Res (RetT c) * W.

Fixpoint run {W X : Type} (h : Handler W) (p : Free X) (w : W) : X * list Event * W :=
  match p with
  | Pure x => (x, [], w)
  | Vis c k =>
      let '(r, w1) := h c w in
      let '(x, tr, w2) := run h (k r) w1 in
      (x, Ev c r :: tr, w2)
  end.

(** The service's monad: exceptions, and the response [r] of the current
    invocation, which the [try] block and the [catch] block share. *)
Definition M (A : Type) : Type :=
  PresignedResponseModel -> Free (Res A * PresignedResponseModel).

Definition ret {A : Type} (a : A) : M A := fun s => Pure (inr a, s).

Definition throw {A : Type} (msg : string) : M A := fun s => Pure (inl msg, s).

Definition bind {A B : Type} (m : M A) (f : A -> M B) : M B :=
  fun s => fbind (m s) (fun '(r, s1) =>
    match r with
    | inl e => Pure (inl e, s1)
    | inr a => f a s1
    end).

Definition try_catch {A : Type} (m : M A) (h : string -> M A) : M A :=
  fun s => fbind (m s) (fun '(r, s1) =>
    match r with
    | inl e => h e s1
    | inr a => Pure (inr a, s1)
    end).

(** Awaiting a call, or calling a synchronous function: an error is thrown. *)
Definition call (c : Call) : M (RetT c) := fun s => Vis c (fun r => Pure (r, s)).

(** Starting a request: what it settles to is kept. *)
Definition start (c : Call) : M (Res (RetT c)) := fun s => Vis c (fun r => Pure (inr r, s)).

Definition update_response (f : PresignedResponseModel -> PresignedResponseModel)
  : M unit := fun s => Pure (inr tt, f s).

Definition read_response : M PresignedResponseModel := fun s => Pure (inr s, s).

Declare Scope presigned_scope.
Delimit Scope presigned_scope with presigned.
Notation "x <- m ;; k" := (bind m (fun x => k))
  (at level 61, m at next level, right associativity) : presigned_scope.
Notation "m ;; k" := (bind m (fun _ => k))
  (at level 61, right associativity) : presigned_scope.
Local Open Scope presigned_scope.

(** [l.forEach(k => { ... o[k] = ... })] on a local object [o]: the body
    maps the object before the iteration to the object after it. *)
Fixpoint forEach {A S : Type} (l : list A) (body : A -> S -> M S) (o : S) : M S :=
  match l with
  | [] => ret o
  | x :: rest => o' <- body x o ;; forEach rest body o'
  end.

Section PresignedUrlsService.

Variable cfg : Config.
Variable js : Runtime.

(** [await Promise.all([a, b])] of two requests started in this order. *)
Definition Promise_all (a b : Call) : M (RetT a * RetT b) :=
  ra <- start a ;;
  rb <- start b ;;
  match ra, rb with
  | inr x, inr y => ret (x, y)
  | inl e, inr _ => throw e
  | inr _, inl e => throw e
  | inl ea, inl eb => throw (race js ea eb)
  end.

Definition getCommandAndJobInfo (commandId : string)
  : M (CommandModel * option TemplateModel * option Job) :=
  command <- call (CommandsGet commandId) ;;
  match command return M (CommandModel * option TemplateModel * option Job) with
  | None => throw (TypeError_message js)
  | Some command =>
      results <- Promise_all (IotDescribeJob (jobId command))
                   (TemplatesGet (templateId command)) ;;
      ret (command, snd results, job (fst results))
  end.

(** The topic of an outcome: the three placeholders replaced, and the
    suffix. *)
Definition topicOf (r : PresignedResponseModel) (direction suffix : string) : string :=
  String_replace js
    (String_replace js
       (String_replace js (presignedTopic cfg) "{commandId}" (commandId r))
       "{thingName}" (thingName r))
    "{direction}" direction ^^ suffix.

Definition publishSuccessResponse (r : PresignedResponseModel) (direction : string)
  : M unit :=
  call (IotDataPublish (topicOf r direction "/accepted") (JSON_stringify js r) 1).

Definition publishFailedResponse (r : PresignedResponseModel) (direction : string)
  : M unit :=
  call (IotDataPublish (topicOf r direction "/rejected") (JSON_stringify js r) 1).

Definition generatePresignedUrl (bucketName key : option string) (expires : option Z)
  (forUpload : bool) : M string :=
  let operation := if forUpload then "putObject" else "getObject" in
  call (S3GetSignedUrl operation bucketName key expires).

(** [t.split(':').pop()] *)
Definition last_segment (t : string) : string := last (Js.split ":" t) "".

(** The test of an explicit target, and that of a target that is a group. *)
Definition names_thing (thingName t : string) : bool :=
  String.eqb (last_segment t) ("thing/" ^^ thingName).

Definition names_group (t : string) : bool :=
  String.prefix "group/" (last_segment t).

Definition validateDeviceIsTarget (thingName : string) (job : option Job) : M bool :=
  match job with
  | None => throw "NOT_FOUND"
  | Some job =>
      match targets job with
      | None => throw (TypeError_message js)
      | Some targets =>
          let isTarget := Nat.ltb 0 (length (filter (names_thing thingName) targets)) in
          if negb isTarget then
            thing <- call (IotListThingGroupsForThing thingName) ;;
            let groups := filter names_group targets in
            match thingGroups thing with
            | Some thingGroups =>
                if Nat.ltb 0 (length thingGroups) && Nat.ltb 0 (length groups) then
                  (* the loop stops at the first group that matches *)
                  ret (existsb
                         (fun g =>
                            Nat.ltb 0
                              (length
                                 (filter (fun tg => option_eqb (groupArn tg) (Some g))
                                    thingGroups)))
                         groups)
                else ret false
            | None => ret false
            end
          else ret isTarget
      end
  end.

(** The key of an object to upload. *)
Definition uploadKey (command : CommandModel) (thingName k : string) : string :=
  s3Prefix cfg ^^ "commands/" ^^ Js.to_string (cmd_commandId command) ^^ "/uploads/"
    ^^ thingName ^^ "/" ^^ k.

(** The [try] block of [generateForUpload]. *)
Definition generateForUpload_try (request : PresignedUploadRequestModel) : M unit :=
  (if String.eqb (up_thingName request) "" then throw (ow_message js) else ret tt) ;;
  (match requestedObjectKeys request with
   | [] => throw (ow_message js)
   | _ => ret tt
   end) ;;
  info <- getCommandAndJobInfo (up_commandId request) ;;
  let '(command, template, jobResponse) := info in
  isTarget <- validateDeviceIsTarget (up_thingName request) jobResponse ;;
  (if negb isTarget then throw "FORBIDDEN" else ret tt) ;;
  presignedUrls <-
    forEach (requestedObjectKeys request)
      (fun k presignedUrls =>
         match template with
         | None => throw (TypeError_message js)
         | Some template =>
             presignedUrl <-
               generatePresignedUrl (Some (s3Bucket cfg))
                 (Some (uploadKey command (up_thingName request) k))
                 (presignedUrlExpiresInSeconds template) true ;;
             ret (assign k presignedUrl presignedUrls)
         end)
      [] ;;
  update_response (set_presignedUrls presignedUrls) ;;
  r <- read_response ;;
  publishSuccessResponse r "uploads".

Definition generateForUpload (request : PresignedUploadRequestModel)
  : M PresignedResponseModel :=
  update_response (fun _ =>
    {| thingName := up_thingName request; commandId := up_commandId request;
       status := SUCCESS; presignedUrls := None |}) ;;
  try_catch
    (generateForUpload_try request)
    (fun _ =>
       update_response (set_status FAILED) ;;
       r <- read_response ;;
       publishFailedResponse r "uploads") ;;
  read_response.

(** The [try] block of [generateForDownload]. *)
Definition generateForDownload_try (request : PresignedDownloadRequestModel) : M unit :=
  (if String.eqb (down_thingName request) "" then throw (ow_message js) else ret tt) ;;
  (match requestedFileAliases request with
   | [] => throw (ow_message js)
   | _ => ret tt
   end) ;;
  info <- getCommandAndJobInfo (down_commandId request) ;;
  let '(command, template, jobResponse) := info in
  isTarget <- validateDeviceIsTarget (down_thingName request) jobResponse ;;
  (if negb isTarget then throw "FORBIDDEN" else ret tt) ;;
  presignedUrls <-
    forEach (requestedFileAliases request)
      (fun k presignedUrls =>
         match template with
         | None => throw (TypeError_message js)
         | Some template =>
             match requiredFiles template with
             | None => throw (TypeError_message js)
             | Some required =>
                 if negb (existsb (String.eqb k) required) then
                   throw ("INVALID_ALIAS: " ^^ k)
                 else
                   match files command with
                   | None => throw (TypeError_message js)
                   | Some files =>
                       match lookup (inherited js) k files with
                       | None => throw (TypeError_message js)
                       | Some file =>
                           presignedUrl <-
                             generatePresignedUrl (bucketName file) (key file)
                               (presignedUrlExpiresInSeconds template) false ;;
                           ret (assign k presignedUrl presignedUrls)
                       end
                   end
             end
         end)
      [] ;;
  update_response (set_presignedUrls presignedUrls) ;;
  r <- read_response ;;
  publishSuccessResponse r "downloads".

Definition generateForDownload (request : PresignedDownloadRequestModel)
  : M PresignedResponseModel :=
  update_response (fun _ =>
    {| thingName := down_thingName request; commandId := down_commandId request;
       status := SUCCESS; presignedUrls := None |}) ;;
  try_catch
    (generateForDownload_try request)
    (fun _ =>
       update_response (set_status FAILED) ;;
       r <- read_response ;;
       publishFailedResponse r "uploads") ;;
  read_response.

(** The two public operations. *)
Inductive Operation :=
  | Upload (request : PresignedUploadRequestModel)
  | Download (request : PresignedDownloadRequestModel).

Definition perform (op : Operation) : M PresignedResponseModel :=
  match op with
  | Upload request => generateForUpload request
  | Download request => generateForDownload request
  end.

Definition thingOf (op : Operation) : string :=
  match op with
  | Upload request => up_thingName request
  | Download request => down_thingName request
  end.

Definition commandOf (op : Operation) : string :=
  match op with
  | Upload request => up_commandId request
  | Download request => down_commandId request
  end.

(** The direction in the topic of the success outcome. *)
Definition directionOf (op : Operation) : string :=
  match op with
  | Upload _ => "uploads"
  | Download _ => "downloads"
  end.

(** The topic on which an outcome is published: the failure outcome of
    both operations goes to the direction [uploads]. *)
Definition outcomeTopic (op : Operation) (r : PresignedResponseModel) : string :=
  match status r with
  | SUCCESS => topicOf r (directionOf op) "/accepted"
  | FAILED => topicOf r "uploads" "/rejected"
  end.

End PresignedUrlsService.

(** The response object before the invocation creates its own. *)
Definition noResponse : PresignedResponseModel :=
  {| thingName := ""; commandId := ""; status := SUCCESS; presignedUrls := None |}.

(** The outcome of one invocation: what the caller gets and what was called. *)
Definition invoke {W A : Type} (h : Handler W) (m : M A) (w : W) : Res A * list Event :=
  let '(r, _, tr, _) := run h (m noResponse) w in (r, tr).

(** [always p Q]: whatever the collaborators answer, the result [x] of [p]
    and the trace [tr] of its calls satisfy [Q x tr]. *)
Fixpoint always {X : Type} (p : Free X) (Q : X -> list Event -> Prop) : Prop :=
  match p with
  | Pure x => Q x []
  | Vis c k => forall r : Res (RetT c), always (k r) (fun x tr => Q x (Ev c r :: tr))
  end.

Definition alwaysM {A : Type} (m : M A) (s : PresignedResponseModel)
  (Q : Res A -> PresignedResponseModel -> list Event -> Prop) : Prop :=
  always (m s) (fun x tr => Q (fst x) (snd x) tr).

(** The URLs signed: operation, bucket, key, validity, and the answer. *)
Definition signing (e : Event)
  : list (string * option string * option string * option Z * Res string) :=
  match e with
  | Ev c r =>
      match c return
        Res (RetT c) -> list (string * option string * option string * option Z * Res string)
      with
      | S3GetSignedUrl operation bucket key expires =>
          fun r => [(operation, bucket, key, expires, r)]
      | _ => fun _ => []
      end r
  end.

Definition signings (tr : list Event)
  : list (string * option string * option string * option Z * Res string) :=
  flat_map signing tr.

(** The publications: topic, payload, and the answer. *)
Definition publication (e : Event) : list (string * string * Res unit) :=
  match e with
  | Ev c r =>
      match c return Res (RetT c) -> list (string * string * Res unit) with
      | IotDataPublish topic payload _ => fun r => [(topic, payload, r)]
      | _ => fun _ => []
      end r
  end.

Definition publications (tr : list Event) : list (string * string * Res unit) :=
  flat_map publication tr.

(** The groups of the device, as AWS IoT answered. *)
Definition groups_answer (e : Event) : list GroupNameAndArn :=
  match e with
  | Ev c r =>
      match c return Res (RetT c) -> list GroupNameAndArn with
      | IotListThingGroupsForThing _ =>
          fun r =>
            match r with
            | inr {| thingGroups := Some groups |} => groups
            | _ => []
            end
      | _ => fun _ => []
      end r
  end.

Definition groups_answered (tr : list Event) : list GroupNameAndArn :=
  flat_map groups_answer tr.

(** The device is a target of the job: one of the targets names it, or one
    of the targets names a group and is the ARN of one of the groups of
    the device. *)
Definition Targeted (thingName : string) (targets : list string)
  (groups : list GroupNameAndArn) : Prop :=
  (exists t, In t targets /\ last_segment t = "thing/" ^^ thingName)
  \/ (exists g tg,
        In g targets /\ String.prefix "group/" (last_segment g) = true
        /\ In tg groups /\ groupArn tg = Some g).

(** What [generateForUpload] asks S3 to sign for the requested key [k],
    and [generateForDownload] for the requested alias [k], given the
    command and the template. *)
Definition UploadRequest (cfg : Config) (command : CommandModel)
  (template : option TemplateModel) (thingName k : string)
  (operation : string) (bucket key' : option string) (expires : option Z) : Prop :=
  exists t,
    template = Some t
    /\ operation = "putObject" /\ bucket = Some (s3Bucket cfg)
    /\ key' = Some (uploadKey cfg command thingName k)
    /\ expires = presignedUrlExpiresInSeconds t.

Definition DownloadRequest (js : Runtime) (command : CommandModel)
  (template : option TemplateModel)
  (k : string) (operation : string) (bucket key' : option string) (expires : option Z)
  : Prop :=
  exists t required entries file,
    template = Some t
    /\ requiredFiles t = Some required /\ In k required
    /\ files command = Some entries
    /\ lookup (inherited js) k entries = Some file
    /\ operation = "getObject" /\ bucket = bucketName file /\ key' = key file
    /\ expires = presignedUrlExpiresInSeconds t.

(** One iteration of a signing loop on the key [k], from the object [o]:
    it throws without a call, or makes one signing call that [P] accepts
    for [k], and on success sets the entry of [k] to the URL. *)
Inductive Iteration
  (P : string -> string -> option string -> option string -> option Z -> Prop)
  (k : string) (o : list (string * string))
  : Res (list (string * string)) -> list Event -> Prop :=
  | refused (e : string) : Iteration P k o (inl e) []
  | unsigned (operation : string) (bucket key' : option string) (expires : option Z)
      (e : string) :
      P k operation bucket key' expires ->
      Iteration P k o (inl e) [Ev (S3GetSignedUrl operation bucket key' expires) (inl e)]
  | signed (operation : string) (bucket key' : option string) (expires : option Z)
      (url : string) :
      P k operation bucket key' expires ->
      Iteration P k o (inr (assign k url o))
        [Ev (S3GetSignedUrl operation bucket key' expires) (inr url)].

(** A signing loop over the keys [l], from the object [o]: it only signs,
    each time what [P] accepts for one of the keys; if it ends, S3 has
    answered a URL for every key, which is the entry of the key in the
    object unless the key is [__proto__], and the other entries of the
    object are as before. *)
Definition Signed
  (P : string -> string -> option string -> option string -> option Z -> Prop)
  (l : list string) (o : list (string * string))
  (r : Res (list (string * string))) (tr : list Event) : Prop :=
  publications tr = [] /\ groups_answered tr = []
  /\ (forall operation bucket key' expires x,
        In (operation, bucket, key', expires, x) (signings tr) ->
        exists k, In k l /\ P k operation bucket key' expires)
  /\ (forall urls, r = inr urls ->
        (forall k, In k l ->
           exists operation bucket key' expires url,
             P k operation bucket key' expires
             /\ In (operation, bucket, key', expires, inr url) (signings tr)
             /\ (k <> "__proto__" -> own k urls = Some url))
        /\ (forall k, ~ In k l \/ k = "__proto__" -> own k urls = own k o)).

(** The keys or aliases an operation is asked URLs for, and what it asks
    S3 to sign for one of them. *)
Definition keysOf (op : Operation) : list string :=
  match op with
  | Upload request => requestedObjectKeys request
  | Download request => requestedFileAliases request
  end.

Definition Requested (cfg : Config) (js : Runtime) (op : Operation)
  (command : CommandModel) (template : option TemplateModel) (k : string)
  (operation : string) (bucket key' : option string) (expires : option Z) : Prop :=
  match op with
  | Upload request =>
      UploadRequest cfg command template (up_thingName request) k
        operation bucket key' expires
  | Download _ => DownloadRequest js command template k operation bucket key' expires
  end.

(** A deployment, a runtime and scripted collaborators. *)
Definition cfg0 : Config :=
  {| s3Bucket := "commands-bucket"; s3Prefix := "cdf/";
     presignedTopic := "cdf/commands/presignedurl/{commandId}/{thingName}/{direction}" |}.

Definition showUrls (urls : option (list (string * string))) : string :=
  match urls with
  | Some l => String.concat "," (map (fun kv => fst kv ^^ "=" ^^ snd kv) l)
  | None => "-"
  end.

Definition js0 : Runtime :=
  {| String_replace := Example.replace_first;
     JSON_stringify := fun r =>
       thingName r ^^ ";" ^^ commandId r ^^ ";"
         ^^ (match status r with SUCCESS => "SUCCESS" | FAILED => "FAILED" end) ^^ ";"
         ^^ showUrls (presignedUrls r);
     ow_message := "Expected value to not be empty";
     TypeError_message := "Cannot read properties of undefined";
     race := fun a _ => a;
     inherited := fun k =>
       if existsb (String.eqb k)
            ["constructor"; "__defineGetter__"; "__defineSetter__"; "hasOwnProperty";
             "__lookupGetter__"; "__lookupSetter__"; "isPrototypeOf";
             "propertyIsEnumerable"; "toString"; "valueOf"; "__proto__";
             "toLocaleString"]
       then Some {| bucketName := None; key := None |}
       else None |}.

Record Scenario := {
  command : option CommandModel;
  template : option TemplateModel;
  described : DescribeJobResponse;
  groupsOf : ListThingGroupsForThingResponse;
  failing : Call -> bool
}.

Definition answer (sc : Scenario) (c : Call) : RetT c :=
  match c return RetT c with
  | CommandsGet _ => command sc
  | IotDescribeJob _ => described sc
  | TemplatesGet _ => template sc
  | IotListThingGroupsForThing _ => groupsOf sc
  | S3GetSignedUrl operation bucket key _ =>
      "https://" ^^ Js.to_string bucket ^^ "/" ^^ Js.to_string key ^^ "?" ^^ operation
  | IotDataPublish _ _ _ => tt
  end.

Definition world (sc : Scenario) : Handler unit :=
  fun c w => if failing sc c then (inl "ServiceError", w) else (inr (answer sc c), w).

(** Command [c1] of job [j1], which targets the group [fleet] and the
    device [dev-9]; device [dev-1] is in the group. *)
Definition fleet : string := "arn:aws:iot:us-west-2:123456789012:thinggroup/fleet".

Definition nominal : Scenario :=
  {| command :=
       Some {| cmd_commandId := Some "c1"; jobId := Some "j1"; templateId := Some "t1";
               files :=
                 Some [("firmware",
                        Some {| bucketName := Some "files"; key := Some "fw/1.bin" |})] |};
     template :=
       Some {| presignedUrlExpiresInSeconds := Some 300%Z;
               requiredFiles := Some ["firmware"; "constructor"] |};
     described :=
       {| job := Some {| targets :=
                           Some ["arn:aws:iot:us-west-2:123456789012:thing/dev-9";
                                 "arn:aws:iot:us-west-2:123456789012:group/fleet"] |} |};
     groupsOf :=
       {| thingGroups :=
            Some [{| groupName := Some "fleet";
                     groupArn := Some "arn:aws:iot:us-west-2:123456789012:group/fleet" |}] |};
     failing := fun _ => false |}.

End Presigned.

(* ===================================================================== *)
(** ** Reasoning about runs *)
(* ===================================================================== *)

Lemma wp_mono {X : Type} (p : Free X) (Q Q' : X -> list Event -> Prop) :
  (forall x tr, Q x tr -> Q' x tr) -> wp p Q -> wp p Q'.
Proof.
  revert Q Q'. induction p as [x | c k IH]; simpl; intros Q Q' HQ H.
  - apply HQ, H.
  - intros r. eapply IH; [| apply H]. intros x tr. apply HQ.
Qed.

Lemma wp_fbind {X Y : Type} (p : Free X) (f : X -> Free Y) (Q : Y -> list Event -> Prop) :
  wp p (fun x t1 => wp (f x) (fun y t2 => Q y (t1 ++ t2))) -> wp (fbind p f) Q.
Proof.
  revert Q. induction p as [x | c k IH]; simpl; intros Q H.
  - exact H.
  - intros r. apply IH. exact (H r).
Qed.

Lemma wp_conj {X : Type} (p : Free X) (Q1 Q2 : X -> list Event -> Prop) :
  wp p Q1 -> wp p Q2 -> wp p (fun x tr => Q1 x tr /\ Q2 x tr).
Proof.
  revert Q1 Q2. induction p as [x | c k IH]; simpl; intros Q1 Q2 H1 H2.
  - auto.
  - intros r. apply (IH r _ _ (H1 r) (H2 r)).
Qed.

(** What holds of all runs holds of every execution against a handler. *)
Lemma wp_run {W X : Type} (h : Handler W) (p : Free X) (w : W)
  (Q : X -> list Event -> Prop) :
  wp p Q -> Q (fst (fst (run h p w))) (snd (fst (run h p w))).
Proof.
  revert w Q. induction p as [x | c k IH]; simpl; intros w Q H.
  - exact H.
  - destruct (h c w) as [r w1]. specialize (IH r w1 _ (H r)).
    destruct (run h (k r) w1) as [[x tr] w2]. exact IH.
Qed.

Lemma wp_invoke {W A : Type} (h : Handler W) (m : M A) (w : W)
  (Q : Res A -> list Event -> Prop) :
  wpM m emptyResponse (fun r _ tr => Q r tr) ->
  Q (fst (invoke h m w)) (snd (invoke h m w)).
Proof.
  intros H. apply (wp_run h _ w) in H. unfold invoke.
  destruct (run h (m emptyResponse) w) as [[[r s] tr] w']. exact H.
Qed.

Lemma wpM_mono {A : Type} (m : M A) s
  (Q Q' : Res A -> CertificateResponseModel -> list Event -> Prop) :
  (forall r s' tr, Q r s' tr -> Q' r s' tr) -> wpM m s Q -> wpM m s Q'.
Proof. intros HQ. apply wp_mono. intros [r s'] tr. apply HQ. Qed.

Lemma wpM_bind {A B : Type} (m : M A) (f : A -> M B) s
  (Q : Res B -> CertificateResponseModel -> list Event -> Prop) :
  wpM m s (fun r s1 t1 =>
             match r with
             | inl e => Q (inl e) s1 t1
             | inr a => wpM (f a) s1 (fun r' s2 t2 => Q r' s2 (t1 ++ t2))
             end) ->
  wpM (bind m f) s Q.
Proof.
  intros H. unfold wpM, bind. apply wp_fbind.
  eapply wp_mono; [| exact H]. intros [[e | a] s1] t1; simpl.
  - now rewrite app_nil_r.
  - auto.
Qed.

Lemma wpM_try_catch {A : Type} (m : M A) (h : string -> M A) s
  (Q : Res A -> CertificateResponseModel -> list Event -> Prop) :
  wpM m s (fun r s1 t1 =>
             match r with
             | inl e => wpM (h e) s1 (fun r' s2 t2 => Q r' s2 (t1 ++ t2))
             | inr a => Q (inr a) s1 t1
             end) ->
  wpM (try_catch m h) s Q.
Proof.
  intros H. unfold wpM, try_catch. apply wp_fbind.
  eapply wp_mono; [| exact H]. intros [[e | a] s1] t1; simpl.
  - auto.
  - now rewrite app_nil_r.
Qed.

(** A loop whose iterations keep the state and satisfy [I] one by one. *)
Lemma wpM_for_of {A : Type} (body : A -> M unit)
  (I : list A -> Res unit -> list Event -> Prop) (l : list A) s :
  I [] (inr tt) [] ->
  (forall x rest, wpM (body x) s (fun r s1 t1 =>
     s1 = s /\
     match r with
     | inl e => I (x :: rest) (inl e) t1
     | inr _ => forall r' t2, I rest r' t2 -> I (x :: rest) r' (t1 ++ t2)
     end)) ->
  wpM (for_of l body) s (fun r s' tr => s' = s /\ I l r tr).
Proof.
  intros Hnil Hbody. induction l as [| x rest IH]; simpl.
  - unfold wpM. simpl. auto.
  - apply wpM_bind. eapply wpM_mono; [| apply (Hbody x rest)].
    intros [e | []] s1 t1 [-> H].
    + auto.
    + eapply wpM_mono; [| apply IH]. intros r' s2 t2 [-> H2]. auto.
Qed.

(** *** Call sets *)

Section AllCalls.

Variable P : Call -> bool.

Lemma AllCalls_fbind {X Y : Type} (p : Free X) (f : X -> Free Y) :
  AllCalls P p -> (forall x, AllCalls P (f x)) -> AllCalls P (fbind p f).
Proof.
  induction p as [x | c k IH]; simpl; intros Hp Hf.
  - apply Hf.
  - destruct Hp as [Hc Hk]. split; [exact Hc|]. intros r. apply IH; auto.
Qed.

Lemma AllCalls_wp {X : Type} (p : Free X) :
  AllCalls P p -> wp p (fun _ tr => Forall (fun e => P (ev_call e) = true) tr).
Proof.
  induction p as [y | c k IH]; simpl; intros Hp.
  - constructor.
  - destruct Hp as [Hc Hk]. intros r.
    eapply wp_mono; [| apply IH, Hk]. intros x tr H. constructor; assumption.
Qed.

Lemma AllCallsM_ret {A : Type} (a : A) : AllCallsM P (ret a).
Proof. intros s. exact I. Qed.

Lemma AllCallsM_throw {A : Type} (e : string) : AllCallsM P (@throw A e).
Proof. intros s. exact I. Qed.

Lemma AllCallsM_update_response f : AllCallsM P (update_response f).
Proof. intros s. exact I. Qed.

Lemma AllCallsM_read_response : AllCallsM P read_response.
Proof. intros s. exact I. Qed.

Lemma AllCallsM_call (c : Call) : P c = true -> AllCallsM P (call c).
Proof. intros H s. simpl. split; [exact H|]. intros r. exact I. Qed.

Lemma AllCallsM_bind {A B : Type} (m : M A) (f : A -> M B) :
  AllCallsM P m -> (forall a, AllCallsM P (f a)) -> AllCallsM P (bind m f).
Proof.
  intros Hm Hf s. unfold bind. apply AllCalls_fbind; [apply Hm|].
  intros [[e | a] s1]; [exact I | apply Hf].
Qed.

Lemma AllCallsM_try_catch {A : Type} (m : M A) (h : string -> M A) :
  AllCallsM P m -> (forall e, AllCallsM P (h e)) -> AllCallsM P (try_catch m h).
Proof.
  intros Hm Hh s. unfold try_catch. apply AllCalls_fbind; [apply Hm|].
  intros [[e | a] s1]; [apply Hh | exact I].
Qed.

Lemma AllCallsM_for_of {A : Type} (l : list A) (body : A -> M unit) :
  (forall x, In x l -> AllCallsM P (body x)) -> AllCallsM P (for_of l body).
Proof.
  induction l as [| x rest IH]; simpl; intros H.
  - apply AllCallsM_ret.
  - apply AllCallsM_bind.
    + apply H. auto.
    + intros _. apply IH. intros y Hy. apply H. auto.
Qed.

End AllCalls.

Lemma AllCalls_invoke {W A : Type} (P : Call -> bool) (h : Handler W) (m : M A) (w : W) :
  AllCallsM P m -> Forall (fun e => P (ev_call e) = true) (snd (invoke h m w)).
Proof.
  intros H. apply (wp_invoke h m w (fun _ tr => Forall (fun e => P (ev_call e) = true) tr)).
  unfold wpM. eapply wp_mono; [| apply AllCalls_wp, H]. auto.
Qed.

(** Structural decomposition of an [AllCallsM] goal. *)
Ltac allcalls_step :=
  match goal with
  | |- AllCallsM _ (bind _ _) => apply AllCallsM_bind; [| intros ?]
  | |- AllCallsM _ (try_catch _ _) => apply AllCallsM_try_catch; [| intros ?]
  | |- AllCallsM _ (ret _) => apply AllCallsM_ret
  | |- AllCallsM _ (throw _) => apply AllCallsM_throw
  | |- AllCallsM _ (update_response _) => apply AllCallsM_update_response
  | |- AllCallsM _ read_response => apply AllCallsM_read_response
  | |- AllCallsM _ (for_of _ _) => apply AllCallsM_for_of; intros ? ?
  | |- AllCallsM _ (if ?b then _ else _) => destruct b eqn:?
  | |- AllCallsM _ (match ?x with _ => _ end) => destruct x eqn:?
  end.

(* ===================================================================== *)
(** ** Substrings and path segments *)
(* ===================================================================== *)

Example split_arn :
  Js.split "/" "arn:aws:iot:us-west-2:123456789012:cert/abc" =
    ["arn:aws:iot:us-west-2:123456789012:cert"; "abc"].
Proof. reflexivity. Qed.

Example split_without_separator : nth_error (Js.split "/" "us-west-2:identity") 1 = None.
Proof. reflexivity. Qed.

Example split_keeps_empty_segments : Js.split "/" "a//b/" = ["a"; ""; "b"; ""].
Proof. reflexivity. Qed.

Example includes_inside : Js.includes "arn:cert/abcdef" "bcd" = true.
Proof. reflexivity. Qed.

Example includes_empty : Js.includes "" "" = true.
Proof. reflexivity. Qed.

Example includes_longer : Js.includes "abc" "abcd" = false.
Proof. reflexivity. Qed.

Lemma prefix_append (pat b : string) : String.prefix pat (pat ^^ b) = true.
Proof.
  induction pat as [| c pat IH]; simpl.
  - destruct b; reflexivity.
  - destruct (ascii_dec c c) as [_ | n]; [exact IH | contradiction].
Qed.

Lemma includes_prefix (s pat : string) :
  String.prefix pat s = true -> Js.includes s pat = true.
Proof. intros H. destruct s; cbn [Js.includes]; rewrite H; reflexivity. Qed.

Lemma includes_append (a pat b : string) : Js.includes (a ^^ pat ^^ b) pat = true.
Proof.
  induction a as [| c a IH].
  - change ("" ^^ pat ^^ b) with (pat ^^ b).
    apply includes_prefix, prefix_append.
  - change (String c a ^^ pat ^^ b) with (String c (a ^^ pat ^^ b)).
    cbn [Js.includes]. rewrite IH.
    now destruct (String.prefix pat (String c (a ^^ pat ^^ b))).
Qed.

Lemma split_nonempty (sep : ascii) (s : string) : Js.split sep s <> [].
Proof.
  destruct s as [| c s]; simpl; [discriminate|].
  destruct (Ascii.eqb c sep); [discriminate|].
  destruct (Js.split sep s); discriminate.
Qed.

Lemma split_head_prefix (sep : ascii) (s h : string) (t : list string) :
  Js.split sep s = h :: t -> exists b, s = h ^^ b.
Proof.
  revert h t. induction s as [| c s IH]; simpl; intros h t H.
  - inversion H. exists "". reflexivity.
  - destruct (Ascii.eqb c sep).
    + inversion H. exists (String c s). reflexivity.
    + destruct (Js.split sep s) as [| h' t'] eqn:E.
      * exfalso. eapply split_nonempty; eauto.
      * inversion H; subst. destruct (IH h' t eq_refl) as [b ->].
        exists b. reflexivity.
Qed.

(** Every segment of [s.split(sep)] is a substring of [s]. *)
Lemma split_segment (sep : ascii) (s : string) (n : nat) (x : string) :
  nth_error (Js.split sep s) n = Some x -> exists a b, s = a ^^ x ^^ b.
Proof.
  revert n x. induction s as [| c s IH]; simpl; intros n x H.
  - destruct n as [| n]; simpl in H.
    + inversion H. exists "", "". reflexivity.
    + destruct n; discriminate.
  - destruct (Ascii.eqb c sep).
    + destruct n as [| n]; simpl in H.
      * inversion H. exists "", (String c s). reflexivity.
      * destruct (IH _ _ H) as (a & b & ->). exists (String c a), b. reflexivity.
    + destruct (Js.split sep s) as [| h t] eqn:E.
      * exfalso. eapply split_nonempty; eauto.
      * destruct n as [| n]; simpl in H.
        -- inversion H. destruct (split_head_prefix _ _ E) as [b ->].
           exists "", b. reflexivity.
        -- destruct (IH (S n) x H) as (a & b & ->).
           exists (String c a), b. reflexivity.
Qed.

Lemma segment_included (sep : ascii) (s : string) (n : nat) (x : string) :
  nth_error (Js.split sep s) n = Some x -> Js.includes s x = true.
Proof.
  intros H. destruct (split_segment _ _ _ H) as (a & b & ->).
  apply includes_append.
Qed.

(* ===================================================================== *)
(** ** Stepping through a program *)
(* ===================================================================== *)

Lemma wpM_ret {A : Type} (a : A) s (Q : Res A -> CertificateResponseModel -> list Event -> Prop) :
  Q (inr a) s [] -> wpM (ret a) s Q.
Proof. exact (fun H => H). Qed.

Lemma wpM_throw {A : Type} (e : string) s
  (Q : Res A -> CertificateResponseModel -> list Event -> Prop) :
  Q (inl e) s [] -> wpM (throw e) s Q.
Proof. exact (fun H => H). Qed.

Lemma wpM_update_response f s (Q : Res unit -> CertificateResponseModel -> list Event -> Prop) :
  Q (inr tt) (f s) [] -> wpM (update_response f) s Q.
Proof. exact (fun H => H). Qed.

Lemma wpM_read_response s
  (Q : Res CertificateResponseModel -> CertificateResponseModel -> list Event -> Prop) :
  Q (inr s) s [] -> wpM read_response s Q.
Proof. exact (fun H => H). Qed.

Lemma wpM_call (c : Call) s (Q : Res (RetT c) -> CertificateResponseModel -> list Event -> Prop) :
  (forall r, Q r s [Ev c r]) -> wpM (call c) s Q.
Proof. intros H r. apply H. Qed.

(** What a program's calls all satisfy holds of the events of its runs. *)
Lemma wpM_AllCalls {A : Type} (P : Call -> bool) (m : M A) s
  (Q : Res A -> CertificateResponseModel -> list Event -> Prop) :
  AllCallsM P m ->
  (forall r s' tr, Forall (fun e => P (ev_call e) = true) tr -> Q r s' tr) ->
  wpM m s Q.
Proof.
  intros H HQ. unfold wpM. eapply wp_mono; [| apply AllCalls_wp, H].
  intros [r s'] tr. apply HQ.
Qed.

Ltac unfold_helpers :=
  unfold getCertificateId, activateCertificate, generatePresignedUrl, publishResponse,
    getCaCertificate, getCAKey, createCertificateFromCsr, registerCertificate,
    attachCertificateToThing, getEffectivePolicies, getSSMCertificate, getACMCertificate,
    ow_string_nonEmpty, ow_string_message.

Ltac wp_pure_step :=
  lazymatch goal with
  | |- wpM (bind _ _) _ _ => apply wpM_bind
  | |- wpM (try_catch _ _) _ _ => apply wpM_try_catch
  | |- wpM (ret _) _ _ => apply wpM_ret
  | |- wpM (throw _) _ _ => apply wpM_throw
  | |- wpM (update_response _) _ _ => apply wpM_update_response
  | |- wpM read_response _ _ => apply wpM_read_response
  | |- wpM (if ?b then _ else _) _ _ =>
      let E := fresh "E" in destruct b eqn:E; try (simpl in E; discriminate E)
  | |- wpM (match ?x with _ => _ end) _ _ => destruct x eqn:?
  end; cbv beta iota.

Ltac wp_call_step :=
  lazymatch goal with
  | |- wpM (call _) _ _ => apply wpM_call; intros [? | ?]
  end; cbv beta iota.

(** The answers of type [unit] are all [tt]. *)
Ltac destruct_units :=
  repeat match goal with
         | x : ?T |- _ =>
             let T' := eval cbv in T in
             match T' with unit => destruct x end
         end.

Ltac wp_step := first [ wp_pure_step | wp_call_step | progress unfold_helpers ].

Ltac allcalls :=
  repeat first
    [ allcalls_step
    | apply AllCallsM_call; reflexivity
    | progress unfold_helpers
    | progress unfold attachPolicyToCertificate, removePreviousCertificate, cleanupPrincipal,
        resolveAcmpcaParameters, issueCertificate ].

(* ===================================================================== *)
(** ** The eligibility gate *)
(* ===================================================================== *)

Lemma no_eligibility_answers (tr : list Event) :
  Forall (fun e => negb (is_eligibility_check (ev_call e)) = true) tr ->
  eligibility_answers tr = [].
Proof.
  induction 1 as [| [c r] tr H _ IH]; [reflexivity|].
  change (eligibility_answer (Ev c r) ++ eligibility_answers tr = []).
  rewrite IH, app_nil_r. destruct c; try reflexivity; discriminate.
Qed.

Lemma eligibility_answers_app (t1 t2 : list Event) :
  eligibility_answers (t1 ++ t2) = eligibility_answers t1 ++ eligibility_answers t2.
Proof. apply flat_map_app. Qed.

(** Once the check has answered [true], it is not asked again. *)
Ltac eligible_branch :=
  eapply wpM_AllCalls with (P := fun c => negb (is_eligibility_check c));
  [ allcalls
  | let HF := fresh "HF" in
    intros [? | ?] ? ? HF; repeat wp_step;
    rewrite ?eligibility_answers_app, (no_eligibility_answers HF); simpl;
    intros [? | []]; discriminate ].

(** C3. Whenever the eligibility check of a public operation answers
    [false], the operation makes exactly two calls: the check itself and
    the publication, on the failure topic, of an outcome whose message is
    [DEVICE_NOT_WHITELISTED]; no call changes the registry or an authority,
    and the caller gets an error. *)
Theorem ineligible_device_is_rejected (cfg : Config) (js : Runtime) (W : Type)
  (h : Handler W) (w : W) (op : Operation) :
  In (inr false) (eligibility_answers (snd (invoke h (perform cfg js op) w))) ->
  exists x : Res unit,
    snd (invoke h (perform cfg js op) w) =
      [Ev (RegistryIsWhitelisted (deviceOf op)) (inr false);
       Ev (IotDataPublish (failureTopic cfg js op)
             (JSON_stringify js (set_message "DEVICE_NOT_WHITELISTED" emptyResponse)) 1) x]
    /\ existsb (fun e => is_mutation (ev_call e)) (snd (invoke h (perform cfg js op) w)) = false
    /\ fst (invoke h (perform cfg js op) w) =
         inl (match x with
              | inr _ => "DEVICE_NOT_WHITELISTED"
              | inl _ => "UNABLE_TO_PUBLISH_RESPONSE"
              end).
Proof.
  apply (wp_invoke h (perform cfg js op) w (fun r tr =>
    In (inr false) (eligibility_answers tr) ->
    exists x : Res unit,
      tr = [Ev (RegistryIsWhitelisted (deviceOf op)) (inr false);
            Ev (IotDataPublish (failureTopic cfg js op)
                  (JSON_stringify js (set_message "DEVICE_NOT_WHITELISTED" emptyResponse)) 1) x]
      /\ existsb (fun e => is_mutation (ev_call e)) tr = false
      /\ r = inl (match x with
                  | inr _ => "DEVICE_NOT_WHITELISTED"
                  | inl _ => "UNABLE_TO_PUBLISH_RESPONSE"
                  end))).
  destruct op as [d | d csr prev params | d certId prev]; simpl perform;
    unfold get, getWithCsr, ack, get_try, getWithCsr_try, ack_try, failureTopic, deviceOf;
    repeat first [ wp_pure_step | progress unfold_helpers ].
  all: try wp_call_step.
  all: try (repeat wp_step; simpl; intuition discriminate).
  all: match goal with r : RetT (RegistryIsWhitelisted _) |- _ => destruct r end.
  all: try eligible_branch.
  all: repeat wp_step; intros _; eexists; repeat split; reflexivity.
Qed.

Lemma ineligible_device_is_rejected_witness :
  In (inr false)
    (eligibility_answers
       (snd (invoke (Example.world Example.denied)
               (perform Example.cfg Example.js (Ack "dev-1" "p1" None)) tt)))
  /\ exists x : Res unit,
       snd (invoke (Example.world Example.denied)
              (perform Example.cfg Example.js (Ack "dev-1" "p1" None)) tt) =
         [Ev (RegistryIsWhitelisted "dev-1") (inr false);
          Ev (IotDataPublish "cdf/certificates/dev-1/ack/rejected"
                "{message=DEVICE_NOT_WHITELISTED;}" 1) x]
       /\ existsb (fun e => is_mutation (ev_call e))
            (snd (invoke (Example.world Example.denied)
                    (perform Example.cfg Example.js (Ack "dev-1" "p1" None)) tt)) = false
       /\ fst (invoke (Example.world Example.denied)
                 (perform Example.cfg Example.js (Ack "dev-1" "p1" None)) tt) =
            inl (match x with
                 | inr _ => "DEVICE_NOT_WHITELISTED"
                 | inl _ => "UNABLE_TO_PUBLISH_RESPONSE"
                 end).
Proof.
  split; [left; reflexivity|].
  apply (ineligible_device_is_rejected Example.cfg Example.js
           (Example.world Example.denied) tt (Ack "dev-1" "p1" None)).
  left; reflexivity.
Defined.

(* ===================================================================== *)
(** ** Procedures that leave the response object alone *)
(* ===================================================================== *)

Lemma Kept_ret {A : Type} (a : A) : Kept (ret a).
Proof. intros s. reflexivity. Qed.

Lemma Kept_throw {A : Type} (e : string) : Kept (@throw A e).
Proof. intros s. reflexivity. Qed.

Lemma Kept_call (c : Call) : Kept (call c).
Proof. intros s r. reflexivity. Qed.

Lemma Kept_bind {A B : Type} (m : M A) (f : A -> M B) :
  Kept m -> (forall a, Kept (f a)) -> Kept (bind m f).
Proof.
  intros Hm Hf s. change (wpM (bind m f) s (fun _ s' _ => s' = s)).
  apply wpM_bind. eapply wp_mono; [| apply Hm].
  intros [[e | a] s1] tr; simpl; intros ->; [reflexivity|]. apply Hf.
Qed.

Lemma Kept_try_catch {A : Type} (m : M A) (h : string -> M A) :
  Kept m -> (forall e, Kept (h e)) -> Kept (try_catch m h).
Proof.
  intros Hm Hh s. change (wpM (try_catch m h) s (fun _ s' _ => s' = s)).
  apply wpM_try_catch. eapply wp_mono; [| apply Hm].
  intros [[e | a] s1] tr; simpl; intros ->; [|reflexivity]. apply Hh.
Qed.

Lemma Kept_for_of {A : Type} (l : list A) (body : A -> M unit) :
  (forall x, Kept (body x)) -> Kept (for_of l body).
Proof.
  intros H. induction l as [| x rest IH]; simpl.
  - apply Kept_ret.
  - apply Kept_bind; auto.
Qed.

Ltac kept :=
  repeat first
    [ apply Kept_ret | apply Kept_throw | apply Kept_call
    | apply Kept_bind; [| intros ?]
    | apply Kept_try_catch; [| intros ?]
    | apply Kept_for_of; intros ?
    | match goal with
      | |- Kept (if ?b then _ else _) => destruct b
      | |- Kept (match ?x with _ => _ end) => destruct x
      end
    | progress unfold_helpers
    | progress unfold attachPolicyToCertificate, removePreviousCertificate, cleanupPrincipal,
        resolveAcmpcaParameters, issueCertificate ].

(** A procedure that keeps the response object, seen from its caller. *)
Lemma wpM_frame {A : Type} (P : Call -> bool) (m : M A) s
  (Q : Res A -> CertificateResponseModel -> list Event -> Prop) :
  AllCallsM P m -> Kept m ->
  (forall r tr, Forall (fun e => P (ev_call e) = true) tr -> Q r s tr) ->
  wpM m s Q.
Proof.
  intros HP HK HQ. unfold wpM.
  eapply wp_mono; [| apply (wp_conj _ _ _ (AllCalls_wp _ _ (HP s)) (HK s))].
  intros [r s'] tr [HF Hs]. simpl in *. subst s'. apply HQ, HF.
Qed.

(* ===================================================================== *)
(** ** Previous-certificate cleanup *)
(* ===================================================================== *)

Lemma option_eqb_eq (a b : option string) : option_eqb a b = true <-> a = b.
Proof.
  destruct a as [x|], b as [y|]; simpl; try (split; [discriminate | congruence]).
  - rewrite String.eqb_eq. split; congruence.
  - split; reflexivity.
Qed.

(** A principal that does not contain [certId] is not the principal of the
    certificate [certId]. *)
Lemma not_included_not_current (principal certId : string) :
  Js.includes principal certId = false ->
  option_eqb (nth_error (Js.split "/" principal) 1) (Some certId) = false.
Proof.
  intros H. destruct (option_eqb _ _) eqn:E; [|reflexivity].
  apply option_eqb_eq in E. apply segment_included in E. congruence.
Qed.

Lemma cleanupPrincipal_respects_exemption cfg deviceId certId prev principal :
  AllCallsM (respects_exemption certId prev)
    (cleanupPrincipal cfg deviceId certId prev principal).
Proof.
  unfold cleanupPrincipal.
  destruct (Js.includes principal certId) eqn:Hcur; [apply AllCallsM_ret|].
  destruct (Js.truthy prev && negb (Js.includes principal (Js.to_string prev))) eqn:Hprev;
    [apply AllCallsM_ret|].
  pose proof (not_included_not_current _ _ Hcur) as Hid.
  repeat first
    [ allcalls_step
    | apply AllCallsM_call; cbn [respects_exemption]; unfold exempt;
      rewrite ?Hcur, ?Hprev, ?Hid; reflexivity ].
Qed.

Lemma ack_respects_exemption cfg js deviceId certId prev :
  AllCallsM (respects_exemption certId prev) (ack cfg js deviceId certId prev).
Proof.
  unfold ack, ack_try, removePreviousCertificate.
  repeat first
    [ apply cleanupPrincipal_respects_exemption
    | allcalls_step
    | apply AllCallsM_call; reflexivity
    | progress unfold_helpers ].
Qed.

Lemma keeps_bindings_not_delete (c : Call) :
  keeps_bindings c = true -> is_delete c = false.
Proof. destruct c; simpl; intros H; try reflexivity; discriminate. Qed.

Lemma DeletionsJustified_nil deviceId : DeletionsJustified deviceId [].
Proof. intros [| e pre] id x post H; discriminate. Qed.

Lemma DeletionsJustified_app_l deviceId (t1 t2 : list Event) :
  Forall (fun e => is_delete (ev_call e) = false) t1 ->
  DeletionsJustified deviceId t2 -> DeletionsJustified deviceId (t1 ++ t2).
Proof.
  intros H1 H2. induction H1 as [| e t1 He _ IH]; [exact H2|].
  intros pre id x post H. destruct pre as [| e' pre]; simpl in H.
  - inversion H as [[Hc Ht]]. apply (f_equal ev_call) in Hc. simpl in Hc.
    rewrite Hc in He. discriminate.
  - injection H as He' Ht. subst e'.
    destruct (IH pre id x post Ht) as (pre0 & p & mid & -> & Hid & Hmid).
    exists (e :: pre0), p, mid. auto.
Qed.

Lemma DeletionsJustified_app_r deviceId (t1 t2 : list Event) :
  DeletionsJustified deviceId t1 ->
  Forall (fun e => is_delete (ev_call e) = false) t2 ->
  DeletionsJustified deviceId (t1 ++ t2).
Proof.
  intros H1 H2 pre id x post H.
  apply app_eq_app in H. destruct H as (l & [[-> Hl] | [-> Hl]]).
  - destruct l as [| e l]; simpl in Hl.
    + subst t2. inversion H2 as [| ? ? He _]. discriminate He.
    + injection Hl as <- _. eapply H1. reflexivity.
  - subst t2. apply Forall_app in H2. destruct H2 as [_ H2].
    inversion H2 as [| ? ? He _]. discriminate He.
Qed.

Lemma cons_delete_inv id x l id' x' l' :
  Ev (IotDeleteCertificate id) x :: l = Ev (IotDeleteCertificate id') x' :: l' ->
  id = id' /\ l = l'.
Proof.
  intros H. split.
  - apply (f_equal (fun t => option_map ev_call (hd_error t))) in H. simpl in H. congruence.
  - apply (f_equal (@tl _)) in H. exact H.
Qed.

(** The trace of an iteration that ends in a deletion. *)
Lemma DeletionsJustified_deleting deviceId principal (mid t2 : list Event) x :
  Forall (fun e => keeps_bindings (ev_call e) = true) mid ->
  DeletionsJustified deviceId t2 ->
  DeletionsJustified deviceId
    (Ev (IotDetachThingPrincipal deviceId principal) (inr tt)
     :: Ev (IotListPrincipalThings principal) (inr [])
     :: mid ++ Ev (IotDeleteCertificate (certificateIdOf principal)) x :: t2).
Proof.
  intros Hmid H2 pre id x' post H.
  set (d := Ev (IotDetachThingPrincipal deviceId principal) (inr tt)) in *.
  set (l := Ev (IotListPrincipalThings principal) (inr [])) in *.
  change (d :: l :: mid ++ Ev (IotDeleteCertificate (certificateIdOf principal)) x :: t2)
    with ((d :: l :: mid) ++ Ev (IotDeleteCertificate (certificateIdOf principal)) x :: t2) in H.
  apply app_eq_app in H. destruct H as (k & [[Hpre Hk] | [-> Hk]]).
  - (* the deletion at hand, or an event before it *)
    destruct k as [| e k]; simpl in Hk.
    + rewrite app_nil_r in Hpre. subst pre. apply cons_delete_inv in Hk.
      destruct Hk as [-> _]. exists [], principal, mid. repeat split; auto.
    + injection Hk as <- _. exfalso.
      assert (Hall : Forall (fun e => is_delete (ev_call e) = false) (d :: l :: mid)).
      { repeat constructor. eapply Forall_impl; [| exact Hmid].
        intros e. apply keeps_bindings_not_delete. }
      rewrite Hpre in Hall. apply Forall_app in Hall. destruct Hall as [_ Hall].
      inversion Hall as [| ? ? He _]. discriminate He.
  - (* a later deletion *)
    destruct k as [| e k]; simpl in Hk.
    + apply cons_delete_inv in Hk. destruct Hk as [<- _]. rewrite app_nil_r.
      exists [], principal, mid. repeat split; auto.
    + injection Hk as <- Hk.
      destruct (H2 k id x' post Hk) as (pre0 & p & mid' & -> & Hid & Hmid').
      exists ((d :: l :: mid) ++ Ev (IotDeleteCertificate (certificateIdOf principal)) x :: pre0),
        p, mid'.
      repeat split; auto. now rewrite <- app_assoc.
Qed.

(** The loop that detaches the policies of a certificate. *)
Lemma detachPolicies_spec target (policies : list Policy) s :
  wpM (for_of policies (fun policy => call (IotDetachPolicy target (policyName policy)))) s
    (fun r s' tr =>
       s' = s
       /\ (Forall (fun e => keeps_bindings (ev_call e) = true) tr
           /\ (r = inr tt ->
               tr = map (fun policy => Ev (IotDetachPolicy target (policyName policy)) (inr tt))
                      policies))).
Proof.
  apply (wpM_for_of _ (fun l r tr =>
    Forall (fun e => keeps_bindings (ev_call e) = true) tr
    /\ (r = inr tt ->
        tr = map (fun policy => Ev (IotDetachPolicy target (policyName policy)) (inr tt)) l))).
  - split; [constructor | reflexivity].
  - intros policy rest. apply wpM_call. intros [e | []].
    + split; [reflexivity|]. split; [repeat constructor | discriminate].
    + split; [reflexivity|]. intros r' t2 [HF Hok]. split.
      * constructor; [reflexivity | exact HF].
      * intros Hr. rewrite (Hok Hr). reflexivity.
Qed.

Lemma length_eqb_0 {A : Type} (l : list A) : Nat.eqb (length l) 0 = true -> l = [].
Proof. destruct l; [reflexivity | discriminate]. Qed.

Lemma DeletionsJustified_cons deviceId (e : Event) (tr : list Event) :
  is_delete (ev_call e) = false ->
  DeletionsJustified deviceId tr -> DeletionsJustified deviceId (e :: tr).
Proof. intros He. apply (@DeletionsJustified_app_l deviceId [e]). auto. Qed.

Lemma cleanupPrincipal_justified cfg deviceId certId prev principal s :
  wpM (cleanupPrincipal cfg deviceId certId prev principal) s
    (fun _ s1 t1 =>
       s1 = s /\ forall t2, DeletionsJustified deviceId t2 ->
                            DeletionsJustified deviceId (t1 ++ t2)).
Proof.
  unfold cleanupPrincipal.
  repeat wp_step;
    try (split; [reflexivity|]; intros t2 H2; rewrite <- ?app_assoc; simpl;
         repeat (apply DeletionsJustified_cons; [reflexivity|]); exact H2).
  eapply wpM_mono; [| apply detachPolicies_spec].
  intros [e | []] s' tr (-> & HF & Hok); cbv beta iota.
  - split; [reflexivity|]. intros t2 H2. rewrite <- ?app_assoc; simpl.
    repeat (apply DeletionsJustified_cons; [reflexivity|]).
    apply DeletionsJustified_app_l; [| exact H2].
    eapply Forall_impl; [| exact HF]. intros e0. apply keeps_bindings_not_delete.
  - assert (Hnd : Forall (fun e => is_delete (ev_call e) = false) tr).
    { eapply Forall_impl; [| exact HF]. intros e0. apply keeps_bindings_not_delete. }
    match goal with H : Nat.eqb (length ?l) 0 = true |- _ =>
      apply length_eqb_0 in H; subst l end.
    repeat wp_step; split; try reflexivity; intros t2 H2; rewrite <- ?app_assoc; simpl.
    + repeat (apply DeletionsJustified_cons; [reflexivity|]).
      apply DeletionsJustified_app_l; [exact Hnd|].
      apply DeletionsJustified_cons; [reflexivity | exact H2].
    + destruct r.
      apply (@DeletionsJustified_deleting deviceId principal
               (Ev (IotListAttachedPolicies _) (inr r1) :: tr ++ [Ev (IotUpdateCertificate _ INACTIVE) (inr r0)]) t2 (inl s0)) in H2.
      * simpl in H2. rewrite <- app_assoc in H2. exact H2.
      * constructor; [reflexivity|]. apply Forall_app. split; [exact HF|].
        repeat constructor.
    + destruct r.
      match goal with |- context [Ev (IotDeleteCertificate _) (inr ?x)] =>
        apply (@DeletionsJustified_deleting deviceId principal
                 (Ev (IotListAttachedPolicies _) (inr r1) :: tr ++ [Ev (IotUpdateCertificate _ INACTIVE) (inr r0)]) t2 (inr x)) in H2 end.
      * simpl in H2. rewrite <- app_assoc in H2. exact H2.
      * constructor; [reflexivity|]. apply Forall_app. split; [exact HF|].
        repeat constructor.
Qed.

Lemma removePreviousCertificate_justified cfg deviceId certId prev s :
  wpM (removePreviousCertificate cfg deviceId certId prev) s
    (fun _ s' tr => s' = s /\ DeletionsJustified deviceId tr).
Proof.
  unfold removePreviousCertificate. wp_step. wp_step.
  - split; [reflexivity|]. apply DeletionsJustified_cons; [reflexivity|].
    apply DeletionsJustified_nil.
  - eapply wpM_mono;
      [| apply (wpM_for_of _ (fun _ _ tr => DeletionsJustified deviceId tr))].
    + intros r' s' tr [-> H]. split; [reflexivity|].
      apply DeletionsJustified_cons; [reflexivity | exact H].
    + apply DeletionsJustified_nil.
    + intros principal rest. eapply wpM_mono; [| apply cleanupPrincipal_justified].
      intros [e | []] s1 t1 [-> H]; (split; [reflexivity|]).
      * rewrite <- (app_nil_r t1). apply H, DeletionsJustified_nil.
      * intros r' t2. apply H.
Qed.

Ltac justified_leaf :=
  rewrite <- ?app_assoc; simpl;
  repeat (apply DeletionsJustified_cons; [reflexivity|]);
  first [ apply DeletionsJustified_nil
        | apply DeletionsJustified_app_r; [assumption | repeat constructor] ].

Lemma ack_justified cfg js deviceId certId prev s :
  wpM (ack cfg js deviceId certId prev) s
    (fun _ _ tr => DeletionsJustified deviceId tr).
Proof.
  unfold ack, ack_try.
  repeat wp_step; try justified_leaf.
  all: eapply wpM_mono; [| apply removePreviousCertificate_justified].
  all: intros [e | []] s' tr [-> H]; cbv beta iota; repeat wp_step; justified_leaf.
Qed.

Lemma ack_deletions_justified cfg js (W : Type) (h : Handler W) (w : W)
  deviceId certId prev :
  DeletionsJustified deviceId (snd (invoke h (ack cfg js deviceId certId prev) w)).
Proof.
  apply (wp_invoke h (ack cfg js deviceId certId prev) w
           (fun _ tr => DeletionsJustified deviceId tr)).
  apply ack_justified.
Qed.

Lemma not_option_eqb (a b : option string) : negb (option_eqb a b) = true -> a <> b.
Proof.
  intros H E. apply option_eqb_eq in E. rewrite E in H. discriminate H.
Qed.

(** C1. In every execution of [ack], whatever the principals bound to the
    device and whatever the collaborators answer: no call unbinds a
    principal that contains the current certificate id [certId], which the
    principal of the current certificate does; no call deactivates or
    deletes the certificate [certId]; and a certificate is deleted only
    after its principal was unbound from the device and the registry then
    listed no device bound to it. *)
Theorem cleanup_spares_the_current_certificate (cfg : Config) (js : Runtime) (W : Type)
  (h : Handler W) (w : W) (deviceId certId : string) (prev : option string) :
  Forall (fun e =>
            match ev_call e with
            | IotDetachThingPrincipal _ principal =>
                Js.includes principal certId = false
                /\ certificateIdOf principal <> Some certId
            | IotUpdateCertificate id INACTIVE => id <> Some certId
            | IotDeleteCertificate id => id <> Some certId
            | _ => True
            end)
    (snd (invoke h (ack cfg js deviceId certId prev) w))
  /\ DeletionsJustified deviceId (snd (invoke h (ack cfg js deviceId certId prev) w)).
Proof.
  split.
  - eapply Forall_impl;
      [| apply (AllCalls_invoke h w (ack_respects_exemption cfg js deviceId certId prev))].
    intros [c r]. simpl. destruct c as [| | | | id [|] | | | d p | | | | id | | | | | | | | | |];
      simpl; try exact (fun _ => I); intros H.
    + apply not_option_eqb, H.
    + apply Bool.negb_true_iff in H. unfold exempt in H.
      apply Bool.orb_false_iff in H. destruct H as [H _].
      split; [exact H|]. intros Hid. apply segment_included in Hid. congruence.
    + apply not_option_eqb, H.
  - apply ack_deletions_justified.
Qed.

(** The deletion of [p2] in the nominal scenario: [p2] was unbound and no
    device was listed for it. *)
Lemma cleanup_spares_the_current_certificate_witness :
  exists pre0 principal mid,
    firstn 9 (snd (invoke (Example.world Example.nominal)
                     (ack Example.cfg Example.js "dev-1" "p1" None) tt)) =
      pre0 ++ Ev (IotDetachThingPrincipal "dev-1" principal) (inr tt)
           :: Ev (IotListPrincipalThings principal) (inr []) :: mid
    /\ Some "p2" = certificateIdOf principal
    /\ Forall (fun e => keeps_bindings (ev_call e) = true) mid.
Proof.
  apply (proj2 (cleanup_spares_the_current_certificate Example.cfg Example.js
                  (Example.world Example.nominal) tt "dev-1" "p1" None)
           (firstn 9 (snd (invoke (Example.world Example.nominal)
                             (ack Example.cfg Example.js "dev-1" "p1" None) tt)))
           (Some "p2") (inr tt)
           (skipn 10 (snd (invoke (Example.world Example.nominal)
                             (ack Example.cfg Example.js "dev-1" "p1" None) tt)))).
  reflexivity.
Defined.

Lemma cleanupPrincipal_completed cfg deviceId certId prev principal s :
  wpM (cleanupPrincipal cfg deviceId certId prev principal) s
    (fun r s1 t1 =>
       s1 = s /\ (r = inr tt -> Cleaned cfg deviceId certId prev principal t1)).
Proof.
  unfold cleanupPrincipal, Cleaned, exempt.
  repeat wp_step; rewrite ?E, ?E0; simpl orb; cbv iota;
    try (split; [reflexivity|]; first [discriminate | reflexivity]).
  - (* no device remains *)
    eapply wpM_mono; [| apply detachPolicies_spec].
    intros [e | []] s' tr (-> & _ & Hok); cbv beta iota;
      [split; [reflexivity | discriminate]|].
    repeat wp_step; (split; [reflexivity|]); try discriminate.
    intros _. rewrite (Hok eq_refl).
    match goal with H : Nat.eqb (length ?l) 0 = true |- _ =>
      apply length_eqb_0 in H; subst l end.
    destruct_units. exists [], r1.
    unfold cleanup_events, deletion_events, certificateIdOf.
    rewrite <- ?app_assoc. reflexivity.
  - (* devices remain *)
    split; [reflexivity|]. intros _. destruct_units.
    destruct r0 as [| thing things]; [discriminate|].
    exists (thing :: things), []. reflexivity.
Qed.




(** The scenario of the specification: [P1] is current, [P2] has no device
    left once unbound, [P3] is still bound to [dev-2]. *)
Example cleanup_of_three_principals :
  snd (invoke (Example.world Example.nominal)
         (removePreviousCertificate Example.cfg "dev-1" "p1" None) tt) =
    Ev (IotListThingPrincipals "dev-1") (inr [Example.P1; Example.P2; Example.P3])
    :: concat
         [ [];
           cleanup_events Example.cfg "dev-1" Example.P2 []
             [{| policyName := "policy-a" |}; {| policyName := "policy-b" |}];
           cleanup_events Example.cfg "dev-1" Example.P3 ["dev-2"] [] ].
Proof. reflexivity. Qed.

(** The same scenario when the unbinding of [P3] is refused: [P2] has been
    deleted, and the cleanup of [P3] stops at its first call. *)
Example cleanup_aborted_at_the_third_principal :
  invoke (Example.world Scenes.unbinding_refused)
    (removePreviousCertificate Example.cfg "dev-1" "p1" None) tt =
    (inl "ServiceError",
     Ev (IotListThingPrincipals "dev-1") (inr [Example.P1; Example.P2; Example.P3])
     :: concat
          [ [];
            cleanup_events Example.cfg "dev-1" Example.P2 []
              [{| policyName := "policy-a" |}; {| policyName := "policy-b" |}] ]
     ++ [Ev (IotDetachThingPrincipal "dev-1" Example.P3) (inl "ServiceError")]).
Proof. reflexivity. Qed.

Lemma exempt_false (certId : string) (prev : option string) (principal : string) :
  exempt certId prev principal = false ->
  Js.includes principal certId = false
  /\ (Js.truthy prev = true -> Js.includes principal (Js.to_string prev) = true).
Proof.
  unfold exempt. intros H. apply Bool.orb_false_iff in H. destruct H as [H1 H2].
  split; [exact H1|]. intros Ht. rewrite Ht in H2. simpl in H2.
  now apply Bool.negb_false_iff in H2.
Qed.

(** C9. The cleanup tests a principal by substring containment on its ARN.
    In every execution of [ack], a principal that is unbound does not
    contain [certId] and, when a previous certificate is named, contains
    its id; a certificate that is deleted is the certificate of such a
    principal.  So a principal whose ARN contains [certId] is never unbound
    or deleted, even when it is the principal of another certificate: with
    the current certificate [p1], the bound principal of the certificate
    [p10] is left alone. *)
Theorem cleanup_exemption_is_by_substring (cfg : Config) (js : Runtime) (W : Type)
  (h : Handler W) (w : W) (deviceId certId : string) (prev : option string) :
  (forall d principal x,
      In (Ev (IotDetachThingPrincipal d principal) x)
         (snd (invoke h (ack cfg js deviceId certId prev) w)) ->
      Js.includes principal certId = false
      /\ (Js.truthy prev = true -> Js.includes principal (Js.to_string prev) = true))
  /\ (forall id x,
      In (Ev (IotDeleteCertificate id) x)
         (snd (invoke h (ack cfg js deviceId certId prev) w)) ->
      exists principal,
        id = certificateIdOf principal
        /\ Js.includes principal certId = false
        /\ (Js.truthy prev = true -> Js.includes principal (Js.to_string prev) = true))
  /\ (certificateIdOf Example.P10 = Some "p10"
      /\ Js.includes Example.P10 "p1" = true
      /\ snd (invoke (Example.world Example.lookalike)
                (ack Example.cfg Example.js "dev-1" "p1" None) tt) =
           [Ev (RegistryIsWhitelisted "dev-1") (inr true);
            Ev (IotRemoveThingFromThingGroup "dev-1" "rotate") (inr tt);
            Ev (IotListThingPrincipals "dev-1") (inr [Example.P10]);
            Ev (IotDataPublish "cdf/certificates/dev-1/ack/accepted" "{message=OK;}" 1)
               (inr tt)]).
Proof.
  pose proof (AllCalls_invoke h w (ack_respects_exemption cfg js deviceId certId prev)) as HA.
  rewrite Forall_forall in HA.
  assert (Hdetach : forall d principal x,
      In (Ev (IotDetachThingPrincipal d principal) x)
         (snd (invoke h (ack cfg js deviceId certId prev) w)) ->
      Js.includes principal certId = false
      /\ (Js.truthy prev = true -> Js.includes principal (Js.to_string prev) = true)).
  { intros d principal x Hin. apply HA in Hin. simpl in Hin.
    apply Bool.negb_true_iff in Hin. now apply exempt_false. }
  split; [exact Hdetach|]. split.
  - intros id x Hin. apply in_split in Hin. destruct Hin as (pre & post & Htr).
    pose proof (@ack_deletions_justified cfg js W h w deviceId certId prev) as HJ.
    destruct (HJ pre id x post Htr) as (pre0 & principal & mid & -> & Hid & _).
    exists principal. split; [exact Hid|].
    apply (Hdetach deviceId principal (inr tt)). rewrite Htr.
    apply in_or_app. left. apply in_or_app. right. left. reflexivity.
  - repeat split; reflexivity.
Qed.

Lemma cleanup_exemption_is_by_substring_witness :
  In (Ev (IotDetachThingPrincipal "dev-1" Example.P2) (inr tt))
     (snd (invoke (Example.world Example.nominal)
             (ack Example.cfg Example.js "dev-1" "p1" (Some "p2")) tt))
  /\ Js.includes Example.P2 "p1" = false
  /\ (Js.truthy (Some "p2") = true -> Js.includes Example.P2 "p2" = true).
Proof.
  split; [do 3 right; left; reflexivity|].
  apply (proj1 (cleanup_exemption_is_by_substring Example.cfg Example.js
                  (Example.world Example.nominal) tt "dev-1" "p1" (Some "p2"))
           "dev-1" Example.P2 (inr tt)).
  do 3 right; left; reflexivity.
Defined.

(* ===================================================================== *)
(** ** The steps of an operation, seen from outside *)
(* ===================================================================== *)

Lemma flat_map_nil_of_Forall {X : Type} (f : Event -> list X) (P : Call -> bool)
  (tr : list Event) :
  (forall e, P (ev_call e) = true -> f e = []) ->
  Forall (fun e => P (ev_call e) = true) tr -> flat_map f tr = [].
Proof.
  intros Hf. induction 1 as [| e tr He _ IH]; simpl; [reflexivity|].
  now rewrite (Hf e He), IH.
Qed.

Lemma no_call_nil (tr : list Event) :
  Forall (fun e => no_call (ev_call e) = true) tr -> tr = [].
Proof. destruct 1 as [| e tr He _]; [reflexivity | discriminate He]. Qed.

Ltac silent_on f HF :=
  try (lazymatch type of HF with
       | Forall (fun e => ?P (ev_call e) = true) ?tr =>
           let H := fresh "Hsilent" in
           assert (H : flat_map f tr = [])
             by (apply (@flat_map_nil_of_Forall _ f P tr);
                 [ intros [[] ?]; simpl; intros ?; first [reflexivity | discriminate]
                 | exact HF ])
       end).

(** What a segment of calls of a known kind contributes to the observations. *)
Ltac segment_facts HF :=
  silent_on publication HF; silent_on status_update HF;
  silent_on eligibility_answer HF; silent_on issued_answer HF;
  silent_on registration HF; silent_on attachment HF;
  silent_on effective_answer HF.

Lemma flat_map_step {X : Type} (f : Event -> list X) (e : Event) (tr : list Event) :
  flat_map f (e :: tr) = f e ++ flat_map f tr.
Proof. reflexivity. Qed.

Ltac observe :=
  unfold publications, status_updates, eligibility_answers, issued_answers,
    registrations, attachments, effective_answers in *;
  repeat first [ rewrite flat_map_app | rewrite flat_map_step ];
  repeat match goal with
         | H : flat_map _ _ = [] |- _ => rewrite H
         end; simpl; auto.

Lemma wpM_frame_with {A : Type} (P : Call -> bool) (m : M A) s
  (Q0 Q : Res A -> CertificateResponseModel -> list Event -> Prop) :
  AllCallsM P m -> Kept m -> wpM m s Q0 ->
  (forall r tr, Forall (fun e => P (ev_call e) = true) tr -> Q0 r s tr -> Q r s tr) ->
  wpM m s Q.
Proof.
  intros HP HK H0 HQ. unfold wpM in *.
  eapply wp_mono;
    [| apply (wp_conj _ _ _ (wp_conj _ _ _ (AllCalls_wp _ _ (HP s)) (HK s)) H0)].
  intros [r s'] tr [[HF Hs] H]. simpl in *. subst s'. apply HQ; assumption.
Qed.

Lemma attachPolicyToCertificate_calls cfg certificateArn policy prev :
  AllCallsM is_policy_call (attachPolicyToCertificate cfg certificateArn policy prev).
Proof. allcalls. Qed.

Lemma removePreviousCertificate_calls cfg deviceId certId prev :
  AllCallsM is_cleanup_call (removePreviousCertificate cfg deviceId certId prev).
Proof. allcalls. Qed.

Lemma issueCertificate_calls cfg js csr params :
  AllCallsM is_issuance_call (issueCertificate cfg js csr params).
Proof. allcalls. Qed.

Lemma resolveAcmpcaParameters_calls cfg js params :
  AllCallsM no_call (resolveAcmpcaParameters cfg js params).
Proof. allcalls. Qed.

Lemma attachPolicyToCertificate_kept cfg certificateArn policy prev :
  Kept (attachPolicyToCertificate cfg certificateArn policy prev).
Proof. kept. Qed.

Lemma removePreviousCertificate_kept cfg deviceId certId prev :
  Kept (removePreviousCertificate cfg deviceId certId prev).
Proof. kept. Qed.

Lemma issueCertificate_kept cfg js csr params :
  Kept (issueCertificate cfg js csr params).
Proof. kept. Qed.

Lemma resolveAcmpcaParameters_kept cfg js params :
  Kept (resolveAcmpcaParameters cfg js params).
Proof. kept. Qed.

(** Stepping over a procedure of which only the kind of calls matters. *)
Ltac framed :=
  let HF := fresh "HF" in
  intros [? | ?] ? HF; cbv beta iota;
  first [ apply no_call_nil in HF; subst | segment_facts HF ].

Ltac frame_policies :=
  lazymatch goal with
  | |- wpM (attachPolicyToCertificate _ _ _ _) _ _ =>
      eapply wpM_frame;
      [ apply attachPolicyToCertificate_calls | apply attachPolicyToCertificate_kept |]
  end; framed.

Ltac frame_cleanup :=
  lazymatch goal with
  | |- wpM (removePreviousCertificate _ _ _ _) _ _ =>
      eapply wpM_frame;
      [ apply removePreviousCertificate_calls | apply removePreviousCertificate_kept |]
  end; framed.

Ltac frame_issuance :=
  lazymatch goal with
  | |- wpM (issueCertificate _ _ _ _) _ _ =>
      eapply wpM_frame;
      [ apply issueCertificate_calls | apply issueCertificate_kept |]
  end; framed.

Ltac frame_resolution :=
  lazymatch goal with
  | |- wpM (resolveAcmpcaParameters _ _ _) _ _ =>
      eapply wpM_frame;
      [ apply resolveAcmpcaParameters_calls | apply resolveAcmpcaParameters_kept |]
  end; framed.

Ltac wp_frame := first [ frame_policies | frame_cleanup | frame_issuance | frame_resolution ].

(* ===================================================================== *)
(** ** How an invocation ends *)
(* ===================================================================== *)

Lemma publications_app (t1 t2 : list Event) :
  publications (t1 ++ t2) = publications t1 ++ publications t2.
Proof. apply flat_map_app. Qed.

Lemma status_updates_app (t1 t2 : list Event) :
  status_updates (t1 ++ t2) = status_updates t1 ++ status_updates t2.
Proof. apply flat_map_app. Qed.

(** [tr] as its events but the last, and the last. *)
Ltac snoc tr :=
  lazymatch tr with
  | [?e] => constr:((@nil Event, e))
  | ?e :: ?rest =>
      let p := snoc rest in
      lazymatch p with
      | (@nil _, ?l) => constr:(([e], l))
      | (?st, ?l) => constr:(([e] ++ st, l))
      end
  | ?seg ++ ?rest =>
      let p := snoc rest in
      lazymatch p with
      | (@nil _, ?l) => constr:((seg, l))
      | (?st, ?l) => constr:((seg ++ st, l))
      end
  end.

Ltac flatten := repeat first [ rewrite <- app_assoc | progress simpl ].

Ltac snoc_eq := flatten; rewrite ?app_nil_r; reflexivity.

Ltac outcome_leaf :=
  destruct_units; flatten;
  lazymatch goal with
  | |- Outcome _ _ _ (inl _) [] =>
      apply Rejected; simpl;
      repeat match goal with H : String.eqb _ _ = _ |- _ => rewrite H end;
      reflexivity
  | |- Outcome ?cfg ?js ?op (inr tt) ?tr =>
      let p := snoc tr in
      lazymatch p with
      | (?st, Ev (IotDataPublish _ (JSON_stringify _ ?resp) _) _) =>
          replace tr with (st ++ [publish js (successTopic cfg js op) resp (inr tt)])
            by snoc_eq;
          apply Succeeded; observe
      end
  | |- Outcome ?cfg ?js ?op (inl _) ?tr =>
      let p := snoc tr in
      lazymatch p with
      | (?st, Ev (IotDataPublish _ (JSON_stringify _ (set_message ?e ?resp)) _) ?x) =>
          first
            [ let q := snoc st in
              lazymatch q with
              | (?st', Ev (IotDataPublish _ (JSON_stringify _ ?resp') _) (inl ?e')) =>
                  replace tr with
                    ((st' ++ [publish js (successTopic cfg js op) resp' (inl e')])
                       ++ [publish js (failureTopic cfg js op)
                             (set_message "UNABLE_TO_PUBLISH_RESPONSE" resp') x])
                    by snoc_eq;
                  apply Unpublished; observe
              end
            | replace tr with
                (st ++ [publish js (failureTopic cfg js op) (set_message e emptyResponse) x])
                by snoc_eq;
              apply (@Failed cfg js op st e x); observe ]
      end
  end.

Lemma perform_outcome cfg js op s :
  wpM (perform cfg js op) s (fun r _ tr => Outcome cfg js op r tr).
Proof.
  destruct op as [d | d csr prev params | d certId prev]; simpl perform;
    unfold get, getWithCsr, ack, get_try, getWithCsr_try, ack_try.
  - repeat wp_step; outcome_leaf.
  - repeat first [wp_step | wp_frame]; outcome_leaf.
  - repeat first [wp_step | wp_frame]; outcome_leaf.
Qed.

Lemma invoke_outcome cfg js (W : Type) (h : Handler W) (w : W) (op : Operation) :
  Outcome cfg js op (fst (invoke h (perform cfg js op) w))
    (snd (invoke h (perform cfg js op) w)).
Proof.
  apply (wp_invoke h (perform cfg js op) w (Outcome cfg js op)).
  apply perform_outcome.
Qed.

Lemma publications_snoc js (steps : list Event) topic response x :
  publications steps = [] ->
  publications (steps ++ [publish js topic response x]) =
    [(topic, JSON_stringify js response, match x with inl _ => false | inr _ => true end)].
Proof. intros H. rewrite publications_app, H. reflexivity. Qed.

Lemma status_updates_snoc js (steps : list Event) topic response x :
  status_updates (steps ++ [publish js topic response x]) = status_updates steps.
Proof. rewrite status_updates_app. simpl. apply app_nil_r. Qed.

Lemma delivered_snoc js (steps : list Event) topic response x :
  publications steps = [] ->
  (length (delivered (steps ++ [publish js topic response x])) <= 1)%nat.
Proof.
  intros H. unfold delivered. rewrite (publications_snoc js _ _ _ _ H).
  destruct x; simpl; auto.
Qed.

Ltac outcome_cases H r tr :=
  match type of H with
  | Outcome _ _ _ ?a ?b => set (r := a) in *; set (tr := b) in *; clearbody r tr
  end;
  destruct H as [e Hv | steps response Hp Hs | steps e x Hp Hs | steps response e x Hp Hs].

(** C5, as the code has it.  An invocation of [get] or [getWithCsr], or of
    [ack] with arguments that pass its validation, ends in one of two ways.
    It returns, and then its last call is the publication on the success
    topic, which the channel accepted, and nothing else was published.  Or
    it raises [e]: then its last call is the publication on the failure
    topic of an outcome that carries the message of the error that was
    caught; before this call either nothing was published, or the last
    call was the publication on the success topic, which the channel
    refused, nothing was published before it, and the error caught is
    [UNABLE_TO_PUBLISH_RESPONSE]; and [e] is the error that was caught if
    the channel accepted the failure outcome, and
    [UNABLE_TO_PUBLISH_RESPONSE] otherwise.  What is delivered is the
    success outcome in the first case, the failure outcome in the second
    case if the channel accepted it, and nothing if it did not: in all
    cases at most one outcome. *)
Theorem one_outcome_when_the_channel_accepts (cfg : Config) (js : Runtime) (W : Type)
  (h : Handler W) (w : W) (op : Operation) :
  validated op = true ->
  (length (delivered (snd (invoke h (perform cfg js op) w))) <= 1)%nat
  /\ match fst (invoke h (perform cfg js op) w) with
     | inr _ =>
         exists steps response,
           snd (invoke h (perform cfg js op) w) =
             steps ++ [publish js (successTopic cfg js op) response (inr tt)]
           /\ publications steps = []
           /\ delivered (snd (invoke h (perform cfg js op) w)) =
                [(successTopic cfg js op, JSON_stringify js response)]
     | inl e =>
         exists steps caught response x,
           snd (invoke h (perform cfg js op) w) =
             steps ++ [publish js (failureTopic cfg js op) (set_message caught response) x]
           /\ (publications steps = []
               \/ (exists before refusal,
                     steps = before
                             ++ [publish js (successTopic cfg js op) response (inl refusal)]
                     /\ publications before = []
                     /\ caught = "UNABLE_TO_PUBLISH_RESPONSE"))
           /\ e = match x with
                  | inr _ => caught
                  | inl _ => "UNABLE_TO_PUBLISH_RESPONSE"
                  end
           /\ delivered (snd (invoke h (perform cfg js op) w)) =
                match x with
                | inr _ =>
                    [(failureTopic cfg js op,
                      JSON_stringify js (set_message caught response))]
                | inl _ => []
                end
     end.
Proof.
  intros Hvalid. pose proof (invoke_outcome cfg js h w op) as H.
  outcome_cases H r tr.
  - congruence.
  - split; [now apply delivered_snoc|].
    exists steps, response. split; [reflexivity|]. split; [exact Hp|].
    unfold delivered. rewrite (publications_snoc js _ _ _ _ Hp). reflexivity.
  - split; [now apply delivered_snoc|].
    exists steps, e, emptyResponse, x.
    split; [reflexivity|]. split; [left; exact Hp|]. split; [destruct x; reflexivity|].
    unfold delivered. rewrite (publications_snoc js _ _ _ _ Hp). destruct x; reflexivity.
  - split.
    + unfold delivered. rewrite publications_app, (publications_snoc js _ _ _ _ Hp).
      destruct x; simpl; auto.
    + exists (steps ++ [publish js (successTopic cfg js op) response (inl e)]),
        "UNABLE_TO_PUBLISH_RESPONSE", response, x.
      split; [reflexivity|]. split; [right; exists steps, e; auto|].
      split; [destruct x; reflexivity|].
      unfold delivered. rewrite publications_app, (publications_snoc js _ _ _ _ Hp).
      destruct x; reflexivity.
Qed.

(** The claim as the specification states it fails.  With a device that is
    not whitelisted and a response channel that refuses every publication,
    no outcome is delivered and the caller gets
    [UNABLE_TO_PUBLISH_RESPONSE], not the [DEVICE_NOT_WHITELISTED] that was
    caught; with a whitelisted device and the same channel, a publication is
    attempted on the success topic and then on the failure topic. *)
Lemma no_outcome_when_the_channel_refuses :
  let refused := invoke (Example.world (Example.with_failing is_publish Example.denied))
                   (perform Example.cfg Example.js (Get "dev-1")) tt in
  let both := invoke (Example.world Example.unpublishable)
                (perform Example.cfg Example.js (Get "dev-1")) tt in
  (delivered (snd refused) = []
   /\ publications (snd refused) =
        [("cdf/certificates/dev-1/get/rejected", "{message=DEVICE_NOT_WHITELISTED;}", false)]
   /\ fst refused = inl "UNABLE_TO_PUBLISH_RESPONSE")
  /\ (delivered (snd both) = []
      /\ map (fun p => fst (fst p)) (publications (snd both)) =
           ["cdf/certificates/dev-1/get/accepted"; "cdf/certificates/dev-1/get/rejected"]).
Proof. repeat split; reflexivity. Qed.

Lemma one_outcome_when_the_channel_accepts_witness :
  validated (Ack "dev-1" "p1" None) = true
  /\ exists steps response,
       snd (invoke (Example.world Example.nominal)
              (perform Example.cfg Example.js (Ack "dev-1" "p1" None)) tt) =
         steps ++ [publish Example.js
                     (successTopic Example.cfg Example.js (Ack "dev-1" "p1" None))
                     response (inr tt)]
       /\ publications steps = []
       /\ delivered
            (snd (invoke (Example.world Example.nominal)
                    (perform Example.cfg Example.js (Ack "dev-1" "p1" None)) tt)) =
            [(successTopic Example.cfg Example.js (Ack "dev-1" "p1" None),
              JSON_stringify Example.js response)].
Proof.
  split; [reflexivity|].
  exact (proj2 (one_outcome_when_the_channel_accepts Example.cfg Example.js
                  (Example.world Example.nominal) tt (Ack "dev-1" "p1" None) eq_refl)).
Defined.

(** C10. If the publication of the failure outcome is refused, the
    operation raises [UNABLE_TO_PUBLISH_RESPONSE], whatever error it had
    caught. *)
Theorem refused_failure_outcome_replaces_the_error (cfg : Config) (js : Runtime) (W : Type)
  (h : Handler W) (w : W) (op : Operation) (payload : string) :
  In (failureTopic cfg js op, payload, false)
     (publications (snd (invoke h (perform cfg js op) w))) ->
  fst (invoke h (perform cfg js op) w) = inl "UNABLE_TO_PUBLISH_RESPONSE".
Proof.
  pose proof (invoke_outcome cfg js h w op) as H.
  outcome_cases H r tr; intros Hin.
  - contradiction.
  - rewrite (publications_snoc js _ _ _ _ Hp) in Hin.
    destruct Hin as [Hin | []]. discriminate Hin.
  - rewrite (publications_snoc js _ _ _ _ Hp) in Hin.
    destruct Hin as [Hin | []]. destruct x; [reflexivity | discriminate Hin].
  - reflexivity.
Qed.

(** The error that is replaced: the device is not whitelisted, the channel
    refuses the failure outcome that says so. *)
Lemma refused_failure_outcome_replaces_the_error_witness :
  In (failureTopic Example.cfg Example.js (Ack "dev-1" "p1" None),
      "{message=DEVICE_NOT_WHITELISTED;}", false)
     (publications
        (snd (invoke (Example.world (Example.with_failing is_publish Example.denied))
                (perform Example.cfg Example.js (Ack "dev-1" "p1" None)) tt)))
  /\ fst (invoke (Example.world (Example.with_failing is_publish Example.denied))
            (perform Example.cfg Example.js (Ack "dev-1" "p1" None)) tt) =
       inl "UNABLE_TO_PUBLISH_RESPONSE".
Proof.
  split; [left; reflexivity|].
  apply (refused_failure_outcome_replaces_the_error Example.cfg Example.js
           (Example.world (Example.with_failing is_publish Example.denied)) tt
           (Ack "dev-1" "p1" None) "{message=DEVICE_NOT_WHITELISTED;}").
  left; reflexivity.
Defined.


(* ===================================================================== *)
(** ** The failures of [get] *)
(* ===================================================================== *)

Ltac fails_leaf :=
  repeat match goal with
         | H : String.eqb _ _ = true |- _ => apply String.eqb_eq in H; subst
         | H : String.eqb _ _ = false |- _ => apply String.eqb_neq in H
         end;
  unfold FailsWith, staged_id; simpl;
  repeat split; intros;
  repeat match goal with
         | H : _ \/ _ |- _ => destruct H
         | H : False |- _ => destruct H
         | H : inl _ = inl _ |- _ => injection H as H; subst
         | H : inr _ = inr _ |- _ => injection H as H; subst
         | H : inl _ = inr _ |- _ => discriminate H
         | H : inr _ = inl _ |- _ => discriminate H
         end;
  repeat match goal with
         | H : Metadata _ = _, H' : context [Metadata _] |- _ => rewrite H in H'
         | H : Js.lookup _ _ = _, H' : context [Js.lookup _ _] |- _ => rewrite H in H'
         end;
  try congruence;
  try (eexists; split; reflexivity).

(** C7. In [get]: if the lookup of the staged certificate answers an
    object without the certificate id in its metadata, the invocation fails
    with [MISSING_CERTIFICATE_ID]; if the lookup throws another error, with
    [CERTIFICATE_NOT_FOUND]; if the activation of the certificate throws,
    with [UNABLE_TO_ACTIVATE_CERTIFICATE]; if the signing of the URL
    throws, with [UNABLE_TO_PRESIGN_URL]; each time before the success
    publication, which is not attempted. *)
Theorem get_failure_codes (cfg : Config) (js : Runtime) (W : Type)
  (h : Handler W) (w : W) (deviceId : string) :
  (forall head,
      In (inr head) (lookup_answers (snd (invoke h (get cfg js deviceId) w))) ->
      staged_id head = None ->
      FailsWith cfg js (Get deviceId) "MISSING_CERTIFICATE_ID"
        (fst (invoke h (get cfg js deviceId) w)) (snd (invoke h (get cfg js deviceId) w)))
  /\ (forall e,
      In (inl e) (lookup_answers (snd (invoke h (get cfg js deviceId) w))) ->
      e <> "MISSING_CERTIFICATE_ID" ->
      FailsWith cfg js (Get deviceId) "CERTIFICATE_NOT_FOUND"
        (fst (invoke h (get cfg js deviceId) w)) (snd (invoke h (get cfg js deviceId) w)))
  /\ (forall e,
      In (inl e) (activation_answers (snd (invoke h (get cfg js deviceId) w))) ->
      FailsWith cfg js (Get deviceId) "UNABLE_TO_ACTIVATE_CERTIFICATE"
        (fst (invoke h (get cfg js deviceId) w)) (snd (invoke h (get cfg js deviceId) w)))
  /\ (forall e,
      In (inl e) (presign_answers (snd (invoke h (get cfg js deviceId) w))) ->
      FailsWith cfg js (Get deviceId) "UNABLE_TO_PRESIGN_URL"
        (fst (invoke h (get cfg js deviceId) w)) (snd (invoke h (get cfg js deviceId) w))).
Proof.
  apply (wp_invoke h (get cfg js deviceId) w (fun r tr =>
    (forall head, In (inr head) (lookup_answers tr) -> staged_id head = None ->
                  FailsWith cfg js (Get deviceId) "MISSING_CERTIFICATE_ID" r tr)
    /\ (forall e, In (inl e) (lookup_answers tr) -> e <> "MISSING_CERTIFICATE_ID" ->
                  FailsWith cfg js (Get deviceId) "CERTIFICATE_NOT_FOUND" r tr)
    /\ (forall e, In (inl e) (activation_answers tr) ->
                  FailsWith cfg js (Get deviceId) "UNABLE_TO_ACTIVATE_CERTIFICATE" r tr)
    /\ (forall e, In (inl e) (presign_answers tr) ->
                  FailsWith cfg js (Get deviceId) "UNABLE_TO_PRESIGN_URL" r tr))).
  unfold get, get_try. repeat wp_step; fails_leaf.
Qed.

Lemma get_failure_codes_witness :
  In (inr (Example.staged Example.unstaged))
     (lookup_answers
        (snd (invoke (Example.world Example.unstaged) (get Example.cfg Example.js "dev-1") tt)))
  /\ staged_id (Example.staged Example.unstaged) = None
  /\ FailsWith Example.cfg Example.js (Get "dev-1") "MISSING_CERTIFICATE_ID"
       (fst (invoke (Example.world Example.unstaged) (get Example.cfg Example.js "dev-1") tt))
       (snd (invoke (Example.world Example.unstaged) (get Example.cfg Example.js "dev-1") tt)).
Proof.
  split; [left; reflexivity|]. split; [reflexivity|].
  apply (proj1 (get_failure_codes Example.cfg Example.js
                  (Example.world Example.unstaged) tt "dev-1")
           (Example.staged Example.unstaged)).
  - left; reflexivity.
  - reflexivity.
Defined.


(* ===================================================================== *)
(** ** Issuance by the managed CA *)
(* ===================================================================== *)

Ltac in_cases :=
  repeat match goal with
         | H : In _ (_ :: _) |- _ => destruct H as [H | H]
         | H : In _ [] |- _ => destruct H
         | H : False |- _ => destruct H
         | H : _ \/ _ |- _ => destruct H
         | H : inl _ = inr _ |- _ => discriminate H
         | H : inr _ = inl _ |- _ => discriminate H
         | H : inr _ = inr _ |- _ => injection H as H; subst
         | H : inl _ = inl _ |- _ => injection H as H; subst
         end.

Lemma getACMCertificate_issued cfg csr caArn certInfo s :
  wpM (getACMCertificate cfg csr caArn certInfo) s
    (fun r _ tr => forall cert, In (inr cert) (issued_answers tr) -> r = inr (pem_bundle cert)).
Proof.
  unfold getACMCertificate. repeat wp_step; intros cert Hin; simpl in Hin; in_cases.
  reflexivity.
Qed.

Lemma issueCertificate_issued cfg js csr params s :
  wpM (issueCertificate cfg js csr params) s
    (fun r _ tr =>
       acmpcaEnabled cfg = true ->
       forall cert, In (inr cert) (issued_answers tr) ->
                    exists caPem, r = inr (caPem, pem_bundle cert)).
Proof.
  unfold issueCertificate. destruct (acmpcaEnabled cfg).
  - repeat first [wp_step | wp_frame]; intros _ cert Hin; simpl in Hin; in_cases.
    eexists. reflexivity.
  - eapply wpM_frame with (P := fun _ => true); [ | kept | discriminate ].
    allcalls.
Qed.

(** C8. Whenever the managed CA answers the issuance with a certificate,
    the value [getACMCertificate] returns is the leaf PEM, a newline and
    the chain PEM.  In [getWithCsr] with the managed CA enabled, this bundle
    is the certificate that is registered, and the certificate of the
    outcome published when the invocation returns. *)
Theorem managed_ca_certificate_is_leaf_newline_chain (cfg : Config) (js : Runtime) (W : Type)
  (h : Handler W) (w : W) :
  (forall csr caArn certInfo cert,
      In (inr cert)
         (issued_answers (snd (invoke h (getACMCertificate cfg csr caArn certInfo) w))) ->
      fst (invoke h (getACMCertificate cfg csr caArn certInfo) w) = inr (pem_bundle cert))
  /\ (forall deviceId csr prev params cert,
      acmpcaEnabled cfg = true ->
      In (inr cert)
         (issued_answers (snd (invoke h (getWithCsr cfg js deviceId csr prev params) w))) ->
      (exists caPem arn,
          registrations (snd (invoke h (getWithCsr cfg js deviceId csr prev params) w)) =
            [(caPem, pem_bundle cert, arn)])
      /\ (fst (invoke h (getWithCsr cfg js deviceId csr prev params) w) = inr tt ->
          exists response,
            certificate response = Some (pem_bundle cert)
            /\ publications (snd (invoke h (getWithCsr cfg js deviceId csr prev params) w)) =
                 [(successTopic cfg js (GetWithCsr deviceId csr prev params),
                   JSON_stringify js response, true)])).
Proof.
  split.
  - intros csr caArn certInfo.
    apply (wp_invoke h (getACMCertificate cfg csr caArn certInfo) w
             (fun r tr => forall cert, In (inr cert) (issued_answers tr) ->
                                       r = inr (pem_bundle cert))).
    apply getACMCertificate_issued.
  - intros deviceId csr prev params cert Hen.
    apply (wp_invoke h (getWithCsr cfg js deviceId csr prev params) w
             (fun r tr =>
                In (inr cert) (issued_answers tr) ->
                (exists caPem arn, registrations tr = [(caPem, pem_bundle cert, arn)])
                /\ (r = inr tt ->
                    exists response,
                      certificate response = Some (pem_bundle cert)
                      /\ publications tr =
                           [(successTopic cfg js (GetWithCsr deviceId csr prev params),
                             JSON_stringify js response, true)]))).
    unfold getWithCsr, getWithCsr_try.
    repeat wp_step; try (simpl; intros Hin; in_cases; fail).
    eapply wpM_frame_with;
      [ apply issueCertificate_calls | apply issueCertificate_kept
      | apply issueCertificate_issued | ].
    intros [e | [caPem pem]] tr HF Hissued; segment_facts HF; cbv beta iota.
    + repeat wp_step; intros Hin; revert Hin; observe; rewrite ?app_nil_r; intros Hin;
        destruct (Hissued Hen cert Hin) as [? Heq]; discriminate Heq.
    + repeat first [wp_step | wp_frame];
        intros Hin; revert Hin; observe; rewrite ?app_nil_r; intros Hin;
        destruct (Hissued Hen cert Hin) as [? Heq]; injection Heq as <- <-;
        (split; [eexists; eexists; reflexivity |]);
        intros Hr; try discriminate Hr; eexists; split; cycle 1; reflexivity.
Qed.

Lemma managed_ca_certificate_is_leaf_newline_chain_witness :
  acmpcaEnabled Example.cfg_acmpca = true
  /\ In (inr {| Certificate := Some "LEAF-PEM"; CertificateChain := Some "CHAIN-PEM" |})
       (issued_answers
          (snd (invoke (Example.world Example.nominal)
                  (getWithCsr Example.cfg_acmpca Example.js "dev-1" "CSR" None None) tt)))
  /\ exists caPem arn,
       registrations
         (snd (invoke (Example.world Example.nominal)
                 (getWithCsr Example.cfg_acmpca Example.js "dev-1" "CSR" None None) tt)) =
         [(caPem, String.append "LEAF-PEM" (String "010"%char "CHAIN-PEM"), arn)].
Proof.
  split; [reflexivity|]. split; [left; reflexivity|].
  exact (proj1 (proj2 (managed_ca_certificate_is_leaf_newline_chain Example.cfg_acmpca
                         Example.js (Example.world Example.nominal) tt)
                  "dev-1" "CSR" None None
                  {| Certificate := Some "LEAF-PEM"; CertificateChain := Some "CHAIN-PEM" |}
                  eq_refl (or_introl eq_refl))).
Defined.


(* ===================================================================== *)
(** ** Policy attachment *)
(* ===================================================================== *)

(** The loop that attaches the policies, before its [catch]. *)
Lemma attach_loop_spec (params : list (string * string)) s :
  wpM (for_of params (fun param => call (IotAttachPolicy (fst param) (snd param)))) s
    (fun r s' tr =>
       s' = s
       /\ (effective_answers tr = []
           /\ match r with
              | inr _ => attachments tr = attached params
              | inl _ =>
                  exists done failed rest,
                    params = done ++ failed :: rest
                    /\ attachments tr = attached done ++ [(fst failed, snd failed, false)]
              end)).
Proof.
  apply (wpM_for_of _ (fun l r tr =>
    effective_answers tr = []
    /\ match r with
       | inr _ => attachments tr = attached l
       | inl _ =>
           exists done failed rest,
             l = done ++ failed :: rest
             /\ attachments tr = attached done ++ [(fst failed, snd failed, false)]
       end)).
  - split; reflexivity.
  - intros param rest. apply wpM_call. intros [e | []].
    + split; [reflexivity|]. split; [reflexivity|].
      exists [], param, rest. split; reflexivity.
    + split; [reflexivity|]. intros r' t2 [He Ha]. split.
      * exact He.
      * destruct r' as [e | u].
        -- destruct Ha as (done & failed & rest' & -> & Ha).
           exists (param :: done), failed, rest'. split; [reflexivity|].
           change (attachments ([Ev (IotAttachPolicy (fst param) (snd param)) (inr tt)] ++ t2))
             with ((fst param, snd param, true) :: attachments t2).
           rewrite Ha. reflexivity.
        -- change (attachments ([Ev (IotAttachPolicy (fst param) (snd param)) (inr tt)] ++ t2))
             with ((fst param, snd param, true) :: attachments t2).
           rewrite Ha. reflexivity.
Qed.

Lemma attachPolicyToCertificate_spec cfg arn policy prev s :
  wpM (attachPolicyToCertificate cfg arn policy prev) s
    (fun r _ tr => PolicyStep cfg arn policy prev r tr).
Proof.
  unfold attachPolicyToCertificate, PolicyStep, inherits.
  destruct (Js.truthy prev && negb (useDefaultPolicy cfg)).
  - repeat wp_step.
    + left. eexists. repeat split; reflexivity.
    + eapply wpM_mono; [| apply attach_loop_spec].
      intros [e | u] s' tr (-> & He & Ha); cbv beta iota; repeat wp_step;
        right; exists r; rewrite ?app_nil_r;
        unfold effective_answers, attachments in *; rewrite !flat_map_app, He; simpl;
        (split; [reflexivity|]); [split; [reflexivity | exact Ha] | exact Ha].
  - repeat wp_step. eapply wpM_mono; [| apply attach_loop_spec].
    intros [e | u] s' tr (-> & He & Ha); cbv beta iota; repeat wp_step;
      rewrite ?app_nil_r; simpl;
      (split; [exact He|]); [split; [reflexivity | exact Ha] | exact Ha].
Qed.

Lemma not_failed_in_attached (params : list (string * string)) target policy :
  ~ In (target, policy, false) (attached params).
Proof.
  unfold attached. intros H. apply in_map_iff in H.
  destruct H as (p & Hp & _). discriminate Hp.
Qed.

Lemma PolicyStep_success cfg arn policy prev (u : unit) tr :
  PolicyStep cfg arn policy prev (inr u) tr ->
  if inherits cfg prev then
    exists policies,
      effective_answers tr = [(certArn cfg (Js.to_string prev), inr policies)]
      /\ attachments tr = attached (map (fun p => (arn, policyName p)) policies)
  else
    effective_answers tr = [] /\ attachments tr = [(arn, policy, true)].
Proof.
  unfold PolicyStep. destruct (inherits cfg prev).
  - intros [(e & _ & _ & H) | (policies & He & Ha)]; [discriminate H|].
    exists policies. auto.
  - intros [He Ha]. auto.
Qed.

Lemma PolicyStep_failure cfg arn policy prev r tr target name :
  PolicyStep cfg arn policy prev r tr ->
  In (target, name, false) (attachments tr) ->
  r = inl "UNABLE_TO_ATTACH_POLICY"
  /\ exists before, attachments tr = attached before ++ [(target, name, false)].
Proof.
  assert (Hout : forall params, AttachOutcome params r (attachments tr) ->
                 In (target, name, false) (attachments tr) ->
                 r = inl "UNABLE_TO_ATTACH_POLICY"
                 /\ exists before, attachments tr = attached before ++ [(target, name, false)]).
  { intros params Ho Hin. destruct r as [e | u]; simpl in Ho.
    - destruct Ho as (-> & done & failed & rest & _ & Ha). split; [reflexivity|].
      exists done. rewrite Ha in Hin |- *. apply in_app_or in Hin.
      destruct Hin as [Hin | [Hin | []]].
      + exfalso. eapply not_failed_in_attached; eauto.
      + rewrite Hin. reflexivity.
    - rewrite Ho in Hin. exfalso. eapply not_failed_in_attached; eauto. }
  unfold PolicyStep. destruct (inherits cfg prev).
  - intros [(e & _ & Ha & _) | (policies & _ & Ha)] Hin.
    + rewrite Ha in Hin. destruct Hin.
    + eapply Hout; eauto.
  - intros [_ Ha] Hin. eapply Hout; eauto.
Qed.

(** C4. In every invocation of [getWithCsr] that returns, the policies
    attached to the certificate that was registered are: when a previous
    certificate is given and the default policy is not forced, the
    effective policies of the previous certificate, each attached once, in
    the order of the answer (so the two sets are equal); otherwise the one
    configured policy.  And in every invocation in which the attachment of a
    policy fails, that attachment is the last one attempted and the
    invocation fails with [UNABLE_TO_ATTACH_POLICY]. *)
Theorem policies_are_inherited_or_default (cfg : Config) (js : Runtime) (W : Type)
  (h : Handler W) (w : W) (deviceId csr : string) (prev : option string)
  (params : option ACMPCAParameters) :
  (fst (invoke h (getWithCsr cfg js deviceId csr prev params) w) = inr tt ->
   exists caPem pem arn,
     registrations (snd (invoke h (getWithCsr cfg js deviceId csr prev params) w)) =
       [(caPem, pem, inr arn)]
     /\ if inherits cfg prev then
          exists policies,
            effective_answers (snd (invoke h (getWithCsr cfg js deviceId csr prev params) w)) =
              [(certArn cfg (Js.to_string prev), inr policies)]
            /\ attachments (snd (invoke h (getWithCsr cfg js deviceId csr prev params) w)) =
                 attached (map (fun p => (arn, policyName p)) policies)
        else
          effective_answers (snd (invoke h (getWithCsr cfg js deviceId csr prev params) w)) = []
          /\ attachments (snd (invoke h (getWithCsr cfg js deviceId csr prev params) w)) =
               [(arn, rotatedCertificatePolicy cfg, true)])
  /\ (forall target policy,
      In (target, policy, false)
         (attachments (snd (invoke h (getWithCsr cfg js deviceId csr prev params) w))) ->
      FailsWith cfg js (GetWithCsr deviceId csr prev params) "UNABLE_TO_ATTACH_POLICY"
        (fst (invoke h (getWithCsr cfg js deviceId csr prev params) w))
        (snd (invoke h (getWithCsr cfg js deviceId csr prev params) w))
      /\ exists before,
           attachments (snd (invoke h (getWithCsr cfg js deviceId csr prev params) w)) =
             attached before ++ [(target, policy, false)]).
Proof.
  apply (wp_invoke h (getWithCsr cfg js deviceId csr prev params) w (fun r tr =>
    (r = inr tt ->
     exists caPem pem arn,
       registrations tr = [(caPem, pem, inr arn)]
       /\ if inherits cfg prev then
            exists policies,
              effective_answers tr = [(certArn cfg (Js.to_string prev), inr policies)]
              /\ attachments tr = attached (map (fun p => (arn, policyName p)) policies)
          else
            effective_answers tr = []
            /\ attachments tr = [(arn, rotatedCertificatePolicy cfg, true)])
    /\ (forall target policy,
        In (target, policy, false) (attachments tr) ->
        FailsWith cfg js (GetWithCsr deviceId csr prev params) "UNABLE_TO_ATTACH_POLICY" r tr
        /\ exists before, attachments tr = attached before ++ [(target, policy, false)]))).
  unfold getWithCsr, getWithCsr_try.
  repeat first [wp_step | frame_issuance];
    try (split; [discriminate | intros target policy Hin; revert Hin; observe;
                                rewrite ?app_nil_r; intros []]; fail).
  eapply wpM_frame_with;
    [ apply attachPolicyToCertificate_calls | apply attachPolicyToCertificate_kept
    | apply attachPolicyToCertificate_spec | ].
  intros [e | u] tr0 HF0 Hstep; segment_facts HF0; cbv beta iota.
  - repeat wp_step; (split; [discriminate|]); intros target policy Hin; revert Hin;
      observe; rewrite ?app_nil_r; intros Hin;
      destruct (@PolicyStep_failure _ _ _ _ _ _ _ _ Hstep Hin) as [Heq Hbefore];
      injection Heq as ->; (split; [| exact Hbefore]);
      unfold FailsWith;
      (eexists; split; [observe; rewrite ?app_nil_r; reflexivity | reflexivity]).
  - pose proof (@PolicyStep_success _ _ _ _ _ _ Hstep) as Hs.
    repeat wp_step; split;
      try (intros target policy Hin; revert Hin; observe; rewrite ?app_nil_r; intros Hin;
           destruct (@PolicyStep_failure _ _ _ _ _ _ _ _ Hstep Hin) as [Heq _];
           discriminate Heq);
      try discriminate.
    intros _. exists s, s0, r0. split; [observe; reflexivity|].
    destruct (inherits cfg prev).
    + destruct Hs as (policies & He & Ha). exists policies.
      split; observe; rewrite ?app_nil_r; assumption.
    + destruct Hs as [He Ha]. split; observe; rewrite ?app_nil_r; assumption.
Qed.

Lemma policies_are_inherited_or_default_witness :
  fst (invoke (Example.world Example.nominal)
         (getWithCsr Example.cfg Example.js "dev-1" "CSR" (Some "p1") None) tt) = inr tt
  /\ exists caPem pem arn,
       registrations
         (snd (invoke (Example.world Example.nominal)
                 (getWithCsr Example.cfg Example.js "dev-1" "CSR" (Some "p1") None) tt)) =
         [(caPem, pem, inr arn)]
       /\ exists policies,
            effective_answers
              (snd (invoke (Example.world Example.nominal)
                      (getWithCsr Example.cfg Example.js "dev-1" "CSR" (Some "p1") None) tt)) =
              [(certArn Example.cfg "p1", inr policies)]
            /\ attachments
                 (snd (invoke (Example.world Example.nominal)
                         (getWithCsr Example.cfg Example.js "dev-1" "CSR" (Some "p1") None) tt)) =
                 attached (map (fun p => (arn, policyName p)) policies).
Proof.
  split; [reflexivity|].
  exact (proj1 (policies_are_inherited_or_default Example.cfg Example.js
                  (Example.world Example.nominal) tt "dev-1" "CSR" (Some "p1") None)
           eq_refl).
Defined.

(** The scenario of the specification: device [dev-1], no previous
    certificate, the configured policy [policy-default]. *)
Example issuance_with_the_default_policy :
  invoke (Example.world Example.nominal)
    (getWithCsr Example.cfg Example.js "dev-1" "csr-A" None None) tt =
    (inr tt,
     [Ev (RegistryIsWhitelisted "dev-1") (inr true);
      Ev (IotDescribeCACertificate "ca-1") (inr "CA-PEM");
      Ev (SsmGetParameter "cdf-ca-key-ca-1" true) (inr "CA-KEY");
      Ev (PemCreateCertificate "csr-A" 365 "CA-KEY" "CA-PEM") (inr "LEAF-PEM");
      Ev (IotRegisterCertificate "CA-PEM" "LEAF-PEM" true)
         (inr "arn:aws:iot:us-west-2:123456789012:cert/new");
      Ev (IotAttachThingPrincipal "arn:aws:iot:us-west-2:123456789012:cert/new" "dev-1")
         (inr tt);
      Ev (IotAttachPolicy "arn:aws:iot:us-west-2:123456789012:cert/new" "policy-default")
         (inr tt);
      Ev (RegistryUpdateAssetStatus "dev-1") (inr tt);
      Ev (IotDataPublish "cdf/certificates/dev-1/get/accepted"
            "{certificate=LEAF-PEM;certificateId=new;}" 1) (inr tt)]).
Proof. reflexivity. Qed.

(* ===================================================================== *)
(** ** Stopping at the first failure *)
(* ===================================================================== *)

Lemma failures_app (t1 t2 : list Event) :
  failures (t1 ++ t2) = failures t1 ++ failures t2.
Proof. apply flat_map_app. Qed.

Ltac failures_calc :=
  try unfold failures in *;
  repeat first [ rewrite flat_map_app | rewrite flat_map_step ];
  repeat match goal with
         | H : flat_map failure _ = [] |- _ => rewrite H
         end; simpl;
  repeat match goal with
         | H : String.eqb _ _ = _ |- _ => rewrite H
         end.

Lemma FailFast_app {A : Type} (r : Res A) (t1 t2 : list Event) :
  failures t1 = [] -> FailFast r t2 -> FailFast r (t1 ++ t2).
Proof.
  intros H1. destruct r as [thrown | a]; simpl.
  - intros [H2 | (pre & c & e & -> & Hpre & Hc)].
    + left. now rewrite failures_app, H1, H2.
    + right. exists (t1 ++ pre), c, e. rewrite app_assoc. repeat split; auto.
      now rewrite failures_app, H1, Hpre.
  - intros H2. now rewrite failures_app, H1, H2.
Qed.

(** A trace of concrete events and of segments without failures. *)
Ltac failfast_leaf :=
  destruct_units; unfold FailFast; flatten;
  lazymatch goal with
  | |- _ = [] => first [ reflexivity | failures_calc; reflexivity ]
  | |- _ \/ _ =>
      first
        [ left; first [ reflexivity | failures_calc; reflexivity ]
        | right;
          lazymatch goal with
          | |- exists pre c e, ?tr = _ /\ _ /\ _ =>
              let p := snoc tr in
              lazymatch p with
              | (?st, Ev ?c (inl ?e)) =>
                  exists st, c, e; split; [snoc_eq |];
                  split; [failures_calc; reflexivity | simpl; failures_calc; reflexivity]
              end
          end ]
  end.

Lemma issueCertificate_failfast cfg js csr params s :
  wpM (issueCertificate cfg js csr params) s (fun r _ tr => FailFast r tr).
Proof.
  unfold issueCertificate.
  repeat first [wp_step | frame_resolution]; failfast_leaf.
Qed.

(** The loop that attaches the policies stops at the first attachment
    that throws. *)
Lemma attach_loop_failfast (params : list (string * string)) s :
  wpM (for_of params (fun param => call (IotAttachPolicy (fst param) (snd param)))) s
    (fun r s' tr =>
       s' = s
       /\ match r with
          | inr _ => failures tr = []
          | inl _ =>
              exists pre target policy e,
                tr = pre ++ [Ev (IotAttachPolicy target policy) (inl e)]
                /\ failures pre = []
          end).
Proof.
  apply (wpM_for_of _ (fun _ r tr =>
    match r with
    | inr _ => failures tr = []
    | inl _ =>
        exists pre target policy e,
          tr = pre ++ [Ev (IotAttachPolicy target policy) (inl e)]
          /\ failures pre = []
    end)).
  - reflexivity.
  - intros param rest. apply wpM_call. intros [e | []].
    + split; [reflexivity|]. exists [], (fst param), (snd param), e. split; reflexivity.
    + split; [reflexivity|]. intros [e | u] t2 H2.
      * destruct H2 as (pre & target & policy & e' & -> & Hpre).
        exists (Ev (IotAttachPolicy (fst param) (snd param)) (inr tt) :: pre), target, policy, e'.
        split; [reflexivity | exact Hpre].
      * exact H2.
Qed.

Lemma attachPolicyToCertificate_failfast cfg arn policy prev s :
  wpM (attachPolicyToCertificate cfg arn policy prev) s (fun r _ tr => FailFast r tr).
Proof.
  unfold attachPolicyToCertificate.
  destruct (Js.truthy prev && negb (useDefaultPolicy cfg)).
  - repeat wp_step; [failfast_leaf |].
    eapply wpM_mono; [| apply attach_loop_failfast].
    intros [e | u] s' tr [-> H]; cbv beta iota;
      [destruct H as (pre & target & p & e' & -> & Hpre) |];
      repeat wp_step; failfast_leaf.
  - repeat wp_step.
    eapply wpM_mono; [| apply attach_loop_failfast].
    intros [e | u] s' tr [-> H]; cbv beta iota;
      [destruct H as (pre & target & p & e' & -> & Hpre) |];
      repeat wp_step; failfast_leaf.
Qed.

(** The loop that detaches the policies of a certificate. *)
Lemma detach_loop_failfast (target : string) (policies : list Policy) s :
  wpM (for_of policies (fun policy => call (IotDetachPolicy target (policyName policy)))) s
    (fun r s' tr =>
       s' = s
       /\ match r with
          | inr _ => failures tr = []
          | inl thrown =>
              exists pre policy,
                tr = pre ++ [Ev (IotDetachPolicy target policy) (inl thrown)]
                /\ failures pre = []
          end).
Proof.
  apply (wpM_for_of _ (fun _ r tr =>
    match r with
    | inr _ => failures tr = []
    | inl thrown =>
        exists pre policy,
          tr = pre ++ [Ev (IotDetachPolicy target policy) (inl thrown)]
          /\ failures pre = []
    end)).
  - reflexivity.
  - intros policy rest. apply wpM_call. intros [e | []].
    + split; [reflexivity|]. exists [], (policyName policy). split; reflexivity.
    + split; [reflexivity|]. intros [e | u] t2 H2.
      * destruct H2 as (pre & policy' & -> & Hpre).
        exists (Ev (IotDetachPolicy target (policyName policy)) (inr tt) :: pre), policy'.
        split; [reflexivity | exact Hpre].
      * exact H2.
Qed.

Lemma cleanupPrincipal_failfast cfg deviceId certId prev principal s :
  wpM (cleanupPrincipal cfg deviceId certId prev principal) s
    (fun r s' tr => s' = s /\ FailFast r tr).
Proof.
  unfold cleanupPrincipal.
  repeat wp_step;
    lazymatch goal with
    | |- wpM _ _ _ => idtac
    | |- _ => split; [reflexivity | failfast_leaf]
    end.
  eapply wpM_mono; [| apply detach_loop_failfast].
  intros [e | u] s' tr [-> H]; cbv beta iota;
    [destruct H as (pre & policy & -> & Hpre) |];
    repeat wp_step; (split; [reflexivity | failfast_leaf]).
Qed.

Lemma removePreviousCertificate_failfast cfg deviceId certId prev s :
  wpM (removePreviousCertificate cfg deviceId certId prev) s (fun r _ tr => FailFast r tr).
Proof.
  unfold removePreviousCertificate. wp_step. wp_step; [failfast_leaf |].
  eapply wpM_mono; [| apply (wpM_for_of _ (fun _ r tr => FailFast r tr))].
  - intros r' s' tr [_ H]. apply (@FailFast_app unit r' [_] tr); [reflexivity | exact H].
  - reflexivity.
  - intros principal rest. eapply wpM_mono; [| apply cleanupPrincipal_failfast].
    intros [e | []] s1 t1 [-> H]; (split; [reflexivity|]); [exact H |].
    intros r' t2 H2. apply FailFast_app; assumption.
Qed.

(** Stepping over a procedure that stops at its first failure. *)
Ltac framed_failfast :=
  let HF := fresh "HF" in
  let HQ := fresh "HQ" in
  intros [? | ?] ? HF HQ; cbv beta iota;
  [ let pre := fresh "pre" in
    let c0 := fresh "c0" in
    let e0 := fresh "e0" in
    let Hpre := fresh "Hpre" in
    destruct HQ as [HQ | (pre & c0 & e0 & -> & Hpre & ->)]
  | simpl in HQ ];
  clear HF.

Ltac frame_failfast :=
  lazymatch goal with
  | |- wpM (attachPolicyToCertificate _ _ _ _) _ _ =>
      eapply wpM_frame_with with (Q0 := fun r _ tr => FailFast r tr);
      [ apply attachPolicyToCertificate_calls | apply attachPolicyToCertificate_kept
      | apply attachPolicyToCertificate_failfast |]
  | |- wpM (removePreviousCertificate _ _ _ _) _ _ =>
      eapply wpM_frame_with with (Q0 := fun r _ tr => FailFast r tr);
      [ apply removePreviousCertificate_calls | apply removePreviousCertificate_kept
      | apply removePreviousCertificate_failfast |]
  | |- wpM (issueCertificate _ _ _ _) _ _ =>
      eapply wpM_frame_with with (Q0 := fun r _ tr => FailFast r tr);
      [ apply issueCertificate_calls | apply issueCertificate_kept
      | apply issueCertificate_failfast |]
  end; framed_failfast.

Ltac failures_in H :=
  unfold failures in *;
  repeat first [ rewrite flat_map_app in H | rewrite flat_map_step in H ];
  repeat match goal with
         | H0 : flat_map failure _ = [] |- _ => rewrite H0 in H
         end; simpl in H.

Ltac reported_leaf :=
  destruct_units; flatten;
  let c := fresh "c" in
  let e := fresh "e" in
  let Hin := fresh "Hin" in
  let Hnp := fresh "Hnp" in
  intros c e Hin Hnp; failures_in Hin;
  repeat (destruct Hin as [Hin | Hin]; [injection Hin as <- <- |]);
  try contradiction; try discriminate Hnp;
  lazymatch goal with
  | |- exists pre x, ?tr = _ /\ _ =>
      let p := snoc tr in
      lazymatch p with
      | (?st, Ev _ ?x) =>
          let q := snoc st in
          lazymatch q with
          | (?st', _) =>
              exists st', x; simpl code_of;
              repeat match goal with H : String.eqb _ _ = _ |- _ => rewrite H end;
              split; [snoc_eq |];
              split; [first [reflexivity | failures_calc; reflexivity] | reflexivity]
          end
      end
  end.

Lemma perform_reported cfg js op s :
  wpM (perform cfg js op) s
    (fun r _ tr =>
       forall c e, In (c, e) (failures tr) -> is_publish c = false ->
         exists pre x,
           tr = pre ++ [Ev c (inl e);
                        publish js (failureTopic cfg js op)
                          (set_message (code_of c e) emptyResponse) x]
           /\ failures pre = []
           /\ r = inl (match x with
                       | inr _ => code_of c e
                       | inl _ => "UNABLE_TO_PUBLISH_RESPONSE"
                       end)).
Proof.
  destruct op as [d | d csr prev params | d certId prev]; simpl perform;
    unfold get, getWithCsr, ack, get_try, getWithCsr_try, ack_try.
  - repeat wp_step; reported_leaf.
  - repeat first [wp_step | frame_failfast]; reported_leaf.
  - repeat first [wp_step | frame_failfast]; reported_leaf.
Qed.

(* ===================================================================== *)
(** ** The update of the device status *)
(* ===================================================================== *)

Lemma invoke_reported cfg js (W : Type) (h : Handler W) (w : W) (op : Operation) :
  forall c e,
    In (c, e) (failures (snd (invoke h (perform cfg js op) w))) -> is_publish c = false ->
    exists pre x,
      snd (invoke h (perform cfg js op) w) =
        pre ++ [Ev c (inl e);
                publish js (failureTopic cfg js op)
                  (set_message (code_of c e) emptyResponse) x]
      /\ failures pre = [].
Proof.
  apply (wp_invoke h (perform cfg js op) w (fun r tr =>
    forall c e, In (c, e) (failures tr) -> is_publish c = false ->
      exists pre x,
        tr = pre ++ [Ev c (inl e);
                     publish js (failureTopic cfg js op)
                       (set_message (code_of c e) emptyResponse) x]
        /\ failures pre = [])).
  eapply wpM_mono; [| apply perform_reported].
  intros r s' tr H c e Hin Hnp. destruct (H c e Hin Hnp) as (pre & x & Htr & Hpre & _).
  exists pre, x. auto.
Qed.

(** A status update that failed is a call that threw. *)
Lemma failed_status_update (tr : list Event) (deviceId : string) :
  In (deviceId, false) (status_updates tr) ->
  exists e, In (RegistryUpdateAssetStatus deviceId, e) (failures tr).
Proof.
  induction tr as [| [c r] tr IH]; [intros [] |].
  change (status_updates (Ev c r :: tr)) with (status_update (Ev c r) ++ status_updates tr).
  change (failures (Ev c r :: tr)) with (failure (Ev c r) ++ failures tr).
  intros H. apply in_app_or in H. destruct H as [H | H].
  - destruct c; try contradiction. destruct H as [H | []].
    destruct r as [e | u]; [| discriminate H].
    injection H as ->. exists e. apply in_or_app. left. left. reflexivity.
  - destruct (IH H) as [e He]. exists e. apply in_or_app. right. exact He.
Qed.

(** C6, as the code has it.  [get] and [getWithCsr] update the device
    status exactly once on every invocation that returns; [ack] never
    updates it.  When an invocation of [get] or [getWithCsr] raises, one of
    three things happened: the status was not updated; or the update is
    the call that threw, the last call before the publication of the
    failure outcome, which carries its error, and the only update; or the
    status was updated once, with success, among the calls that precede
    the publication on the success topic, this publication was refused,
    and the publication of the failure outcome is the last call. *)
Theorem status_update_follows_the_pipeline (cfg : Config) (js : Runtime) (W : Type)
  (h : Handler W) (w : W) (op : Operation) :
  (updates_status op = false ->
   status_updates (snd (invoke h (perform cfg js op) w)) = [])
  /\ (updates_status op = true ->
      match fst (invoke h (perform cfg js op) w) with
      | inr _ => status_updates (snd (invoke h (perform cfg js op) w)) = [(deviceOf op, true)]
      | inl _ =>
          status_updates (snd (invoke h (perform cfg js op) w)) = []
          \/ (exists pre e x,
                snd (invoke h (perform cfg js op) w) =
                  pre ++ [Ev (RegistryUpdateAssetStatus (deviceOf op)) (inl e);
                          publish js (failureTopic cfg js op)
                            (set_message e emptyResponse) x]
                /\ status_updates pre = [])
          \/ (exists steps response refusal x,
                snd (invoke h (perform cfg js op) w) =
                  steps
                  ++ [publish js (successTopic cfg js op) response (inl refusal);
                      publish js (failureTopic cfg js op)
                        (set_message "UNABLE_TO_PUBLISH_RESPONSE" response) x]
                /\ status_updates steps = [(deviceOf op, true)]
                /\ publications steps = [])
      end).
Proof.
  pose proof (invoke_outcome cfg js h w op) as H.
  pose proof (invoke_reported cfg js h w op) as Hrep.
  outcome_cases H r tr.
  - split; intros Hu; auto.
  - rewrite status_updates_snoc, Hs. split; intros Hu; rewrite Hu in *; auto.
  - split; intros Hu.
    + rewrite status_updates_snoc. destruct Hs as [Hs | [Hs _]]; [exact Hs | congruence].
    + cbv beta iota. destruct Hs as [Hs | [_ Hs]].
      * left. rewrite status_updates_snoc. exact Hs.
      * right. left.
        match goal with
        | |- exists pre e' x', ?t = _ /\ _ => set (tr := t) in *
        end.
        assert (Hall : status_updates tr = [(deviceOf op, false)])
          by (unfold tr; rewrite status_updates_snoc; exact Hs).
        destruct (failed_status_update tr (deviceOf op)) as [e' He'];
          [rewrite Hall; left; reflexivity|].
        destruct (Hrep _ _ He' eq_refl) as (pre & x' & Htr & _).
        exists pre, e', x'. split; [exact Htr|].
        rewrite Htr, status_updates_app in Hall. simpl in Hall.
        destruct (status_updates pre) as [| u l]; [reflexivity|].
        exfalso. injection Hall as _ Hall. destruct l; discriminate Hall.
  - split; intros Hu; rewrite Hu in *.
    + rewrite !status_updates_snoc. exact Hs.
    + right. right. exists steps, response, e, x.
      split; [now rewrite <- app_assoc | auto].
Qed.

(** The claim as the specification states it fails: a successful [ack]
    does not update the device status, and a [get] whose success
    publication is refused fails after it has updated it. *)
Lemma status_update_counterexample :
  (fst (invoke (Example.world Example.nominal)
          (perform Example.cfg Example.js (Ack "dev-1" "p1" None)) tt) = inr tt
   /\ status_updates
        (snd (invoke (Example.world Example.nominal)
                (perform Example.cfg Example.js (Ack "dev-1" "p1" None)) tt)) = [])
  /\ (fst (invoke (Example.world Example.unpublishable)
             (perform Example.cfg Example.js (Get "dev-1")) tt) =
        inl "UNABLE_TO_PUBLISH_RESPONSE"
      /\ status_updates
           (snd (invoke (Example.world Example.unpublishable)
                   (perform Example.cfg Example.js (Get "dev-1")) tt)) = [("dev-1", true)]).
Proof. repeat split; reflexivity. Qed.

Lemma status_update_follows_the_pipeline_witness :
  updates_status (GetWithCsr "dev-1" "CSR" None None) = true
  /\ status_updates
       (snd (invoke (Example.world Example.nominal)
               (perform Example.cfg Example.js (GetWithCsr "dev-1" "CSR" None None)) tt)) =
       [("dev-1", true)].
Proof.
  split; [reflexivity|].
  exact (proj2 (status_update_follows_the_pipeline Example.cfg Example.js
                  (Example.world Example.nominal) tt (GetWithCsr "dev-1" "CSR" None None))
           eq_refl).
Defined.

(** X1. In every public operation, when a call other than a publication
    throws, it is the last call before the publication of the failure
    outcome: no call before it threw, nothing is called after it but this
    publication, whose message is the code of the [catch] block around the
    call, or the error's own message where there is none; the caller gets
    this message too, or [UNABLE_TO_PUBLISH_RESPONSE] if the publication
    throws as well. *)
Theorem step_failure_is_reported (cfg : Config) (js : Runtime) (W : Type)
  (h : Handler W) (w : W) (op : Operation) (c : Call) (e : string) :
  In (c, e) (failures (snd (invoke h (perform cfg js op) w))) ->
  is_publish c = false ->
  exists pre x,
    snd (invoke h (perform cfg js op) w) =
      pre ++ [Ev c (inl e);
              publish js (failureTopic cfg js op)
                (set_message (code_of c e) emptyResponse) x]
    /\ failures pre = []
    /\ fst (invoke h (perform cfg js op) w) =
         inl (match x with
              | inr _ => code_of c e
              | inl _ => "UNABLE_TO_PUBLISH_RESPONSE"
              end).
Proof.
  revert c e.
  apply (wp_invoke h (perform cfg js op) w (fun r tr =>
    forall c e, In (c, e) (failures tr) -> is_publish c = false ->
      exists pre x,
        tr = pre ++ [Ev c (inl e);
                     publish js (failureTopic cfg js op)
                       (set_message (code_of c e) emptyResponse) x]
        /\ failures pre = []
        /\ r = inl (match x with
                    | inr _ => code_of c e
                    | inl _ => "UNABLE_TO_PUBLISH_RESPONSE"
                    end))).
  apply perform_reported.
Qed.

Lemma step_failure_is_reported_witness :
  In (IotRegisterCertificate "CA-PEM" "LEAF-PEM" true, "ServiceError")
     (failures (snd (invoke (Example.world Scenes.registration_down)
                       (perform Example.cfg Example.js (GetWithCsr "dev-1" "CSR" None None))
                       tt)))
  /\ is_publish (IotRegisterCertificate "CA-PEM" "LEAF-PEM" true) = false
  /\ exists pre x,
       snd (invoke (Example.world Scenes.registration_down)
              (perform Example.cfg Example.js (GetWithCsr "dev-1" "CSR" None None)) tt) =
         pre ++ [Ev (IotRegisterCertificate "CA-PEM" "LEAF-PEM" true) (inl "ServiceError");
                 publish Example.js
                   (failureTopic Example.cfg Example.js (GetWithCsr "dev-1" "CSR" None None))
                   (set_message
                      (code_of (IotRegisterCertificate "CA-PEM" "LEAF-PEM" true) "ServiceError")
                      emptyResponse) x]
       /\ failures pre = []
       /\ fst (invoke (Example.world Scenes.registration_down)
                 (perform Example.cfg Example.js (GetWithCsr "dev-1" "CSR" None None)) tt) =
            inl (match x with
                 | inr _ =>
                     code_of (IotRegisterCertificate "CA-PEM" "LEAF-PEM" true) "ServiceError"
                 | inl _ => "UNABLE_TO_PUBLISH_RESPONSE"
                 end).
Proof.
  split; [left; reflexivity|]. split; [reflexivity|].
  apply (step_failure_is_reported Example.cfg Example.js
           (Example.world Scenes.registration_down) tt
           (GetWithCsr "dev-1" "CSR" None None)
           (IotRegisterCertificate "CA-PEM" "LEAF-PEM" true) "ServiceError").
  - left; reflexivity.
  - reflexivity.
Defined.

(** X2. [ack] checks its arguments before its [try] block: with an empty
    device id or an empty certificate id it makes no call at all, not even
    the publication of a failure outcome, and throws the error of the
    argument check, which names [deviceId] only. *)
Theorem ack_rejects_empty_arguments (cfg : Config) (js : Runtime) (W : Type)
  (h : Handler W) (w : W) (deviceId certId : string) (prev : option string) :
  validated (Ack deviceId certId prev) = false ->
  invoke h (ack cfg js deviceId certId prev) w =
    (inl (ow_nonEmpty_message js (if String.eqb deviceId "" then Some "deviceId" else None)),
     []).
Proof.
  unfold validated, ack, ow_string_nonEmpty, invoke.
  destruct (String.eqb deviceId ""); [reflexivity|].
  destruct (String.eqb certId ""); [reflexivity | discriminate].
Qed.

Lemma ack_rejects_empty_arguments_witness :
  validated (Ack "dev-1" "" None) = false
  /\ invoke (Example.world Example.nominal) (ack Example.cfg Example.js "dev-1" "" None) tt =
       (inl (ow_nonEmpty_message Example.js
               (if String.eqb "dev-1" "" then Some "deviceId" else None)), []).
Proof.
  split; [reflexivity|].
  apply (ack_rejects_empty_arguments Example.cfg Example.js
           (Example.world Example.nominal) tt "dev-1" "" None).
  reflexivity.
Defined.

(** X3. [get] and [getWithCsr] check their arguments inside their [try]
    block: with an empty device id, or for [getWithCsr] an empty request,
    the only call is the publication of the failure outcome, whose message
    is the error of the argument check; eligibility is not asked. *)
Theorem empty_arguments_are_reported (cfg : Config) (js : Runtime) (W : Type)
  (h : Handler W) (w : W) (op : Operation) (label : option string) :
  match op with
  | Get deviceId => deviceId = "" /\ label = Some "deviceId"
  | GetWithCsr deviceId csr _ _ =>
      (deviceId = "" /\ label = Some "deviceId")
      \/ (deviceId <> "" /\ csr = "" /\ label = None)
  | Ack _ _ _ => False
  end ->
  exists x,
    snd (invoke h (perform cfg js op) w) =
      [publish js (failureTopic cfg js op)
         (set_message (ow_nonEmpty_message js label) emptyResponse) x]
    /\ fst (invoke h (perform cfg js op) w) =
         inl (match x with
              | inr _ => ow_nonEmpty_message js label
              | inl _ => "UNABLE_TO_PUBLISH_RESPONSE"
              end).
Proof.
  intros H.
  destruct op as [d | d csr prev params | d certId prev]; simpl in H;
    [ destruct H as [-> ->]
    | destruct H as [[-> ->] | (Hd & -> & ->)]
    | destruct H ].
  all: apply (wp_invoke h _ w (fun r tr =>
         exists x,
           tr = [publish js _ (set_message (ow_nonEmpty_message js _) emptyResponse) x]
           /\ r = inl (match x with
                       | inr _ => ow_nonEmpty_message js _
                       | inl _ => "UNABLE_TO_PUBLISH_RESPONSE"
                       end))).
  all: simpl perform; unfold get, getWithCsr, get_try, getWithCsr_try.
  all: repeat wp_step.
  all: try (apply String.eqb_eq in E; contradiction).
  all: eexists; split; reflexivity.
Qed.

Lemma empty_arguments_are_reported_witness :
  (("dev-1" = "" /\ @None string = Some "deviceId")
   \/ ("dev-1" <> "" /\ "" = "" /\ @None string = None))
  /\ exists x,
       snd (invoke (Example.world Example.nominal)
              (perform Example.cfg Example.js (GetWithCsr "dev-1" "" None None)) tt) =
         [publish Example.js
            (failureTopic Example.cfg Example.js (GetWithCsr "dev-1" "" None None))
            (set_message (ow_nonEmpty_message Example.js None) emptyResponse) x]
       /\ fst (invoke (Example.world Example.nominal)
                 (perform Example.cfg Example.js (GetWithCsr "dev-1" "" None None)) tt) =
            inl (match x with
                 | inr _ => ow_nonEmpty_message Example.js None
                 | inl _ => "UNABLE_TO_PUBLISH_RESPONSE"
                 end).
Proof.
  split; [right; split; [discriminate | split; reflexivity] |].
  apply (empty_arguments_are_reported Example.cfg Example.js
           (Example.world Example.nominal) tt (GetWithCsr "dev-1" "" None None) None).
  right; split; [discriminate | split; reflexivity].
Defined.

(** X4. In every public operation, a call that is neither the eligibility
    check nor a publication is made only after the eligibility check, asked
    first and for the device of the request, has answered [true]. *)
Theorem steps_require_eligibility (cfg : Config) (js : Runtime) (W : Type)
  (h : Handler W) (w : W) (op : Operation) :
  existsb (fun e => negb (is_eligibility_check (ev_call e)) && negb (is_publish (ev_call e)))
    (snd (invoke h (perform cfg js op) w)) = true ->
  exists rest,
    snd (invoke h (perform cfg js op) w) =
      Ev (RegistryIsWhitelisted (deviceOf op)) (inr true) :: rest.
Proof.
  apply (wp_invoke h (perform cfg js op) w (fun _ tr =>
    existsb (fun e => negb (is_eligibility_check (ev_call e)) && negb (is_publish (ev_call e)))
      tr = true ->
    exists rest, tr = Ev (RegistryIsWhitelisted (deviceOf op)) (inr true) :: rest)).
  destruct op as [d | d csr prev params | d certId prev]; simpl perform;
    unfold get, getWithCsr, ack, get_try, getWithCsr_try, ack_try, deviceOf.
  all: repeat first [wp_step | wp_frame].
  all: destruct_units; flatten.
  all: repeat match goal with
              | r : RetT (RegistryIsWhitelisted _) |- _ => destruct r
              end;
       try discriminate.
  all: intros H; first [discriminate H | eexists; reflexivity].
Qed.

Lemma steps_require_eligibility_witness :
  existsb (fun e => negb (is_eligibility_check (ev_call e)) && negb (is_publish (ev_call e)))
    (snd (invoke (Example.world Example.nominal)
            (perform Example.cfg Example.js (Get "dev-1")) tt)) = true
  /\ exists rest,
       snd (invoke (Example.world Example.nominal)
              (perform Example.cfg Example.js (Get "dev-1")) tt) =
         Ev (RegistryIsWhitelisted (deviceOf (Get "dev-1"))) (inr true) :: rest.
Proof.
  split; [reflexivity|].
  apply (steps_require_eligibility Example.cfg Example.js
           (Example.world Example.nominal) tt (Get "dev-1")).
  reflexivity.
Defined.

(* ===================================================================== *)
(** ** The cleanup within [ack] *)
(* ===================================================================== *)

Lemma perform_without_cleanup cfg js op :
  cleans_up cfg op = false ->
  AllCallsM (fun c => negb (is_cleanup_call c)) (perform cfg js op).
Proof.
  intros H.
  destruct op as [d | d csr prev params | d certId prev]; simpl in H; simpl perform;
    unfold get, getWithCsr, ack, get_try, getWithCsr_try, ack_try; rewrite ?H; allcalls.
Qed.

(** X5. A call of the cleanup of previous certificates (listing or
    detaching a principal of the device, listing the devices of a
    principal, listing or detaching its policies, deactivating or deleting
    a certificate) is made only by [ack], only when the deployment enables
    the deletion of previous certificates, and only after the eligibility
    check has answered [true] and the device has been removed from the
    rotation group. *)
Theorem cleanup_is_gated (cfg : Config) (js : Runtime) (W : Type)
  (h : Handler W) (w : W) (op : Operation) :
  existsb (fun e => is_cleanup_call (ev_call e)) (snd (invoke h (perform cfg js op) w)) = true ->
  cleans_up cfg op = true
  /\ exists rest,
       snd (invoke h (perform cfg js op) w) =
         Ev (RegistryIsWhitelisted (deviceOf op)) (inr true)
         :: Ev (IotRemoveThingFromThingGroup (deviceOf op) (thingGroupName cfg)) (inr tt)
         :: rest.
Proof.
  intros H. destruct (cleans_up cfg op) eqn:Hc.
  - split; [reflexivity|]. revert H.
    apply (wp_invoke h (perform cfg js op) w (fun _ tr =>
      existsb (fun e => is_cleanup_call (ev_call e)) tr = true ->
      exists rest,
        tr = Ev (RegistryIsWhitelisted (deviceOf op)) (inr true)
             :: Ev (IotRemoveThingFromThingGroup (deviceOf op) (thingGroupName cfg)) (inr tt)
             :: rest)).
    destruct op as [d | d csr prev params | d certId prev]; try discriminate Hc.
    simpl perform. unfold ack, ack_try, deviceOf.
    repeat first [wp_step | wp_frame].
    all: destruct_units; flatten.
    all: repeat match goal with
                | r : RetT (RegistryIsWhitelisted _) |- _ => destruct r
                end;
         try discriminate.
    all: intros H; first [discriminate H | eexists; reflexivity].
  - exfalso.
    pose proof (AllCalls_invoke h w (perform_without_cleanup cfg js op Hc)) as HF.
    apply existsb_exists in H. destruct H as (e & He & Hcall).
    rewrite Forall_forall in HF. specialize (HF e He). rewrite Hcall in HF. discriminate HF.
Qed.

Lemma cleanup_is_gated_witness :
  existsb (fun e => is_cleanup_call (ev_call e))
    (snd (invoke (Example.world Example.nominal)
            (perform Example.cfg Example.js (Ack "dev-1" "p1" None)) tt)) = true
  /\ cleans_up Example.cfg (Ack "dev-1" "p1" None) = true
  /\ exists rest,
       snd (invoke (Example.world Example.nominal)
              (perform Example.cfg Example.js (Ack "dev-1" "p1" None)) tt) =
         Ev (RegistryIsWhitelisted (deviceOf (Ack "dev-1" "p1" None))) (inr true)
         :: Ev (IotRemoveThingFromThingGroup (deviceOf (Ack "dev-1" "p1" None))
                  (thingGroupName Example.cfg)) (inr tt)
         :: rest.
Proof.
  split; [reflexivity|].
  apply (cleanup_is_gated Example.cfg Example.js
           (Example.world Example.nominal) tt (Ack "dev-1" "p1" None)).
  reflexivity.
Defined.

(** X6. When [ack] returns, its calls are: the eligibility check, answered
    [true]; the removal of the device from the rotation group; calls of the
    cleanup of previous certificates, none if the deployment does not
    enable it; and the publication, accepted, of an outcome whose message
    is [OK] on the success topic of [ack]. All of them succeeded. *)
Theorem ack_success (cfg : Config) (js : Runtime) (W : Type)
  (h : Handler W) (w : W) (deviceId certId : string) (prev : option string) :
  fst (invoke h (ack cfg js deviceId certId prev) w) = inr tt ->
  exists cleanup,
    snd (invoke h (ack cfg js deviceId certId prev) w) =
      Ev (RegistryIsWhitelisted deviceId) (inr true)
      :: Ev (IotRemoveThingFromThingGroup deviceId (thingGroupName cfg)) (inr tt)
      :: cleanup
      ++ [publish js (successTopic cfg js (Ack deviceId certId prev))
            (set_message "OK" emptyResponse) (inr tt)]
    /\ Forall (fun e => is_cleanup_call (ev_call e) = true) cleanup
    /\ failures cleanup = []
    /\ (deletePreviousCertificate cfg = false -> cleanup = []).
Proof.
  apply (wp_invoke h (ack cfg js deviceId certId prev) w (fun r tr =>
    r = inr tt ->
    exists cleanup,
      tr = Ev (RegistryIsWhitelisted deviceId) (inr true)
           :: Ev (IotRemoveThingFromThingGroup deviceId (thingGroupName cfg)) (inr tt)
           :: cleanup
           ++ [publish js (successTopic cfg js (Ack deviceId certId prev))
                 (set_message "OK" emptyResponse) (inr tt)]
      /\ Forall (fun e => is_cleanup_call (ev_call e) = true) cleanup
      /\ failures cleanup = []
      /\ (deletePreviousCertificate cfg = false -> cleanup = []))).
  unfold ack, ack_try.
  repeat first
    [ wp_step
    | lazymatch goal with
      | |- wpM (removePreviousCertificate _ _ _ _) _ _ =>
          eapply wpM_frame_with with (Q0 := fun r _ tr => FailFast r tr);
          [ apply removePreviousCertificate_calls | apply removePreviousCertificate_kept
          | apply removePreviousCertificate_failfast |];
          intros [? | ?] ? ? ?; cbv beta iota
      end ].
  all: destruct_units; flatten.
  all: repeat match goal with
              | r : RetT (RegistryIsWhitelisted _) |- _ => destruct r
              end;
       try discriminate.
  all: intros _.
  - eexists. split; [reflexivity|]. split; [assumption|]. split; [assumption|].
    intros H'. rewrite H' in *. discriminate.
  - exists []. split; [reflexivity|]. split; [constructor|]. split; [reflexivity|].
    reflexivity.
Qed.

Lemma ack_success_witness :
  fst (invoke (Example.world Example.nominal) (ack Example.cfg Example.js "dev-1" "p1" None) tt)
    = inr tt
  /\ exists cleanup,
       snd (invoke (Example.world Example.nominal)
              (ack Example.cfg Example.js "dev-1" "p1" None) tt) =
         Ev (RegistryIsWhitelisted "dev-1") (inr true)
         :: Ev (IotRemoveThingFromThingGroup "dev-1" (thingGroupName Example.cfg)) (inr tt)
         :: cleanup
         ++ [publish Example.js (successTopic Example.cfg Example.js (Ack "dev-1" "p1" None))
               (set_message "OK" emptyResponse) (inr tt)]
       /\ Forall (fun e => is_cleanup_call (ev_call e) = true) cleanup
       /\ failures cleanup = []
       /\ (deletePreviousCertificate Example.cfg = false -> cleanup = []).
Proof.
  split; [reflexivity|].
  apply (ack_success Example.cfg Example.js (Example.world Example.nominal) tt
           "dev-1" "p1" None).
  reflexivity.
Defined.

(* ===================================================================== *)
(** ** The successful runs of [get] and [getWithCsr] *)
(* ===================================================================== *)

(** X7. When [get] returns, it has made exactly six calls, all answered:
    the eligibility check, answered [true]; the lookup of the object staged
    for the device; the activation of the certificate that the metadata of
    this object names; the signing of a download URL for the same object,
    with the configured validity; the update of the device status; and the
    publication on the success topic of an outcome whose location is the
    signed URL. *)
Theorem get_success (cfg : Config) (js : Runtime) (W : Type)
  (h : Handler W) (w : W) (deviceId : string) :
  fst (invoke h (get cfg js deviceId) w) = inr tt ->
  exists head id url,
    staged_id head = Some id
    /\ snd (invoke h (get cfg js deviceId) w) =
         [Ev (RegistryIsWhitelisted deviceId) (inr true);
          Ev (S3HeadObject (s3Bucket cfg) (s3Prefix cfg ^^ deviceId ^^ s3Suffix cfg))
            (inr head);
          Ev (IotUpdateCertificate (Some id) ACTIVE) (inr tt);
          Ev (S3GetSignedUrl "getObject" (s3Bucket cfg)
                (s3Prefix cfg ^^ deviceId ^^ s3Suffix cfg)
                (presignedUrlExpiresInSeconds cfg)) (inr url);
          Ev (RegistryUpdateAssetStatus deviceId) (inr tt);
          publish js (successTopic cfg js (Get deviceId))
            (set_location url emptyResponse) (inr tt)].
Proof.
  apply (wp_invoke h (get cfg js deviceId) w (fun r tr =>
    r = inr tt ->
    exists head id url,
      staged_id head = Some id
      /\ tr =
           [Ev (RegistryIsWhitelisted deviceId) (inr true);
            Ev (S3HeadObject (s3Bucket cfg) (s3Prefix cfg ^^ deviceId ^^ s3Suffix cfg))
              (inr head);
            Ev (IotUpdateCertificate (Some id) ACTIVE) (inr tt);
            Ev (S3GetSignedUrl "getObject" (s3Bucket cfg)
                  (s3Prefix cfg ^^ deviceId ^^ s3Suffix cfg)
                  (presignedUrlExpiresInSeconds cfg)) (inr url);
            Ev (RegistryUpdateAssetStatus deviceId) (inr tt);
            publish js (successTopic cfg js (Get deviceId))
              (set_location url emptyResponse) (inr tt)])).
  unfold get, get_try. repeat wp_step.
  all: destruct_units; flatten.
  all: repeat match goal with
              | r : RetT (RegistryIsWhitelisted _) |- _ => destruct r
              end;
       try discriminate.
  intros _. do 3 eexists. split; [| reflexivity].
  unfold staged_id.
  repeat match goal with
         | H : Metadata _ = _ |- _ => rewrite H
         | H : Js.lookup _ _ = _ |- _ => rewrite H
         end.
  reflexivity.
Qed.

Lemma get_success_witness :
  fst (invoke (Example.world Example.nominal) (get Example.cfg Example.js "dev-1") tt) = inr tt
  /\ exists head id url,
       staged_id head = Some id
       /\ snd (invoke (Example.world Example.nominal) (get Example.cfg Example.js "dev-1") tt) =
            [Ev (RegistryIsWhitelisted "dev-1") (inr true);
             Ev (S3HeadObject (s3Bucket Example.cfg)
                   (s3Prefix Example.cfg ^^ "dev-1" ^^ s3Suffix Example.cfg))
               (inr head);
             Ev (IotUpdateCertificate (Some id) ACTIVE) (inr tt);
             Ev (S3GetSignedUrl "getObject" (s3Bucket Example.cfg)
                   (s3Prefix Example.cfg ^^ "dev-1" ^^ s3Suffix Example.cfg)
                   (presignedUrlExpiresInSeconds Example.cfg)) (inr url);
             Ev (RegistryUpdateAssetStatus "dev-1") (inr tt);
             publish Example.js (successTopic Example.cfg Example.js (Get "dev-1"))
               (set_location url emptyResponse) (inr tt)].
Proof.
  split; [reflexivity|].
  apply (get_success Example.cfg Example.js (Example.world Example.nominal) tt "dev-1").
  reflexivity.
Defined.

(** The issuance, when it returns. *)
Lemma issueCertificate_returns cfg js csr params s :
  wpM (issueCertificate cfg js csr params) s (fun r _ tr =>
    forall caPem pem, r = inr (caPem, pem) -> Issued cfg js csr params caPem pem tr).
Proof.
  unfold issueCertificate, resolveAcmpcaParameters.
  destruct (acmpcaEnabled cfg) eqn:Hacm.
  - destruct params as [p |].
    + destruct (Js.truthy (awsiotCaAlias p)) eqn:Ta;
        destruct (Js.truthy (acmpcaCaAlias p)) eqn:Tb.
      all: repeat first
             [ progress cbn [awsiotCaID set_awsiotCaID acmpcaCaAlias acmpcaCaArn
                             set_acmpcaCaArn awsiotCaAlias certInfo negb]
             | match goal with H : Js.truthy _ = _ |- _ => progress rewrite H end
             | wp_step ].
      all: destruct_units; flatten.
      all: intros caPem pem Hr; try discriminate Hr; injection Hr as <- <-.
      all: eapply (@issued_by_the_managed_ca cfg js csr (Some p)); [exact Hacm |].
      all: unfold Resolved, requested_ca, requested_arn, or_default; rewrite Ta, Tb.
      all: repeat match goal with
                  | H : _ = Some _ |- _ => rewrite H
                  end.
      all: do 2 eexists; repeat split; try reflexivity; simpl.
      all: repeat match goal with
                  | |- context [String.eqb ?v ""] => destruct (String.eqb v "")
                  end; reflexivity.
    + repeat wp_step. destruct_units; flatten.
      all: intros caPem pem Hr; try discriminate Hr; injection Hr as <- <-.
      eapply (@issued_by_the_managed_ca cfg js csr None); [exact Hacm |].
      repeat split.
  - repeat wp_step. all: destruct_units; flatten.
    all: intros caPem pem Hr; try discriminate Hr; injection Hr as <- <-.
    apply issued_locally. exact Hacm.
Qed.

(** The loop that attaches the policies, when it returns. *)
Lemma attach_loop_returns (params : list (string * string)) s :
  wpM (for_of params (fun param => call (IotAttachPolicy (fst param) (snd param)))) s
    (fun r s' tr =>
       s' = s
       /\ (r = inr tt ->
           tr = map (fun param => Ev (IotAttachPolicy (fst param) (snd param)) (inr tt))
                  params)).
Proof.
  apply (wpM_for_of _ (fun l r tr =>
    r = inr tt ->
    tr = map (fun param => Ev (IotAttachPolicy (fst param) (snd param)) (inr tt)) l)).
  - reflexivity.
  - intros param rest. apply wpM_call. intros [e | []].
    + split; [reflexivity | discriminate].
    + split; [reflexivity|]. intros r' t2 H2 Hr. rewrite (H2 Hr). reflexivity.
Qed.

Lemma attachPolicyToCertificate_returns cfg arn policy prev s :
  wpM (attachPolicyToCertificate cfg arn policy prev) s (fun r _ tr =>
    r = inr tt -> exists policies, tr = attaching_events cfg arn policy prev policies).
Proof.
  unfold attachPolicyToCertificate, attaching_events, inherits.
  destruct (Js.truthy prev && negb (useDefaultPolicy cfg)).
  - repeat wp_step; [discriminate |].
    eapply wpM_mono; [| apply attach_loop_returns].
    intros [e | []] s' tr [-> H]; cbv beta iota; repeat wp_step; try discriminate.
    intros _. exists r. rewrite (H eq_refl), map_map, app_nil_r. reflexivity.
  - repeat wp_step.
    eapply wpM_mono; [| apply attach_loop_returns].
    intros [e | []] s' tr [-> H]; cbv beta iota; repeat wp_step; try discriminate.
    intros _. exists []. rewrite (H eq_refl). reflexivity.
Qed.

(** X8. When [getWithCsr] returns, its calls are exactly, in this order
    and all answered: the eligibility check, answered [true]; the calls of
    the issuance, which give the CA certificate and the device certificate
    (under the CA key of the deployment: the configured CA certificate is
    read, then the key, and the request is signed; by the managed CA: the
    CA certificate of the resolved id is read, the issuance is requested
    from the resolved managed CA and awaited, and the device certificate
    is the answered certificate, a newline and the answered chain); the
    registration, as active, of this device certificate under this CA
    certificate; the binding of the registered certificate to the device;
    the policy attachment (the effective policies of the previous
    certificate are read and each is attached, or the configured policy is
    attached); the update of the device status; and the publication on the
    success topic of an outcome that carries this device certificate and,
    as its id, the second segment of the ARN the registration answered,
    split at [/]. *)
Theorem getWithCsr_success (cfg : Config) (js : Runtime) (W : Type)
  (h : Handler W) (w : W) (deviceId csr : string) (prev : option string)
  (params : option ACMPCAParameters) :
  fst (invoke h (getWithCsr cfg js deviceId csr prev params) w) = inr tt ->
  exists issuance caPem pem arn policies,
    snd (invoke h (getWithCsr cfg js deviceId csr prev params) w) =
      Ev (RegistryIsWhitelisted deviceId) (inr true)
      :: issuance
      ++ Ev (IotRegisterCertificate caPem pem true) (inr arn)
      :: Ev (IotAttachThingPrincipal arn deviceId) (inr tt)
      :: attaching_events cfg arn (rotatedCertificatePolicy cfg) prev policies
      ++ [Ev (RegistryUpdateAssetStatus deviceId) (inr tt);
          publish js (successTopic cfg js (GetWithCsr deviceId csr prev params))
            (set_certificateId (certificateIdOf arn) (set_certificate pem emptyResponse))
            (inr tt)]
    /\ Issued cfg js csr params caPem pem issuance.
Proof.
  apply (wp_invoke h (getWithCsr cfg js deviceId csr prev params) w (fun r tr =>
    r = inr tt ->
    exists issuance caPem pem arn policies,
      tr =
        Ev (RegistryIsWhitelisted deviceId) (inr true)
        :: issuance
        ++ Ev (IotRegisterCertificate caPem pem true) (inr arn)
        :: Ev (IotAttachThingPrincipal arn deviceId) (inr tt)
        :: attaching_events cfg arn (rotatedCertificatePolicy cfg) prev policies
        ++ [Ev (RegistryUpdateAssetStatus deviceId) (inr tt);
            publish js (successTopic cfg js (GetWithCsr deviceId csr prev params))
              (set_certificateId (certificateIdOf arn) (set_certificate pem emptyResponse))
              (inr tt)]
      /\ Issued cfg js csr params caPem pem issuance)).
  unfold getWithCsr, getWithCsr_try.
  repeat first
    [ wp_step
    | lazymatch goal with
      | |- wpM (attachPolicyToCertificate ?c ?arn ?pol ?prev) _ _ =>
          eapply wpM_frame_with with
            (Q0 := fun r _ tr =>
                     r = inr tt -> exists policies, tr = attaching_events c arn pol prev policies);
          [ apply attachPolicyToCertificate_calls | apply attachPolicyToCertificate_kept
          | apply attachPolicyToCertificate_returns |]
      | |- wpM (issueCertificate ?c ?j ?csr0 ?ps) _ _ =>
          eapply wpM_frame_with with
            (Q0 := fun r _ tr =>
                     forall caPem pem, r = inr (caPem, pem) -> Issued c j csr0 ps caPem pem tr);
          [ apply issueCertificate_calls | apply issueCertificate_kept
          | apply issueCertificate_returns |]
      end; intros [? | ?] ? ? ?; cbv beta iota ].
  all: destruct_units; flatten.
  all: repeat match goal with
              | r : RetT (RegistryIsWhitelisted _) |- _ => destruct r
              end;
       try discriminate.
  intros _.
  match goal with
  | H : forall caPem pem, inr _ = inr (caPem, pem) -> _ |- _ =>
      specialize (H _ _ eq_refl)
  end.
  match goal with
  | H : inr tt = inr tt -> exists policies, _ |- _ =>
      destruct (H eq_refl) as [policies ->]
  end.
  do 4 eexists. exists policies. split; [reflexivity | eassumption].
Qed.

Lemma getWithCsr_success_witness :
  fst (invoke (Example.world Example.nominal)
         (getWithCsr Example.cfg Example.js "dev-1" "CSR" None None) tt) = inr tt
  /\ exists issuance caPem pem arn policies,
       snd (invoke (Example.world Example.nominal)
              (getWithCsr Example.cfg Example.js "dev-1" "CSR" None None) tt) =
         Ev (RegistryIsWhitelisted "dev-1") (inr true)
         :: issuance
         ++ Ev (IotRegisterCertificate caPem pem true) (inr arn)
         :: Ev (IotAttachThingPrincipal arn "dev-1") (inr tt)
         :: attaching_events Example.cfg arn (rotatedCertificatePolicy Example.cfg) None
              policies
         ++ [Ev (RegistryUpdateAssetStatus "dev-1") (inr tt);
             publish Example.js
               (successTopic Example.cfg Example.js (GetWithCsr "dev-1" "CSR" None None))
               (set_certificateId (certificateIdOf arn) (set_certificate pem emptyResponse))
               (inr tt)]
       /\ Issued Example.cfg Example.js "CSR" None caPem pem issuance.
Proof.
  split; [reflexivity|].
  apply (getWithCsr_success Example.cfg Example.js (Example.world Example.nominal) tt
           "dev-1" "CSR" None None).
  reflexivity.
Defined.

(* ===================================================================== *)
(** ** The issuance *)
(* ===================================================================== *)

Ltac registrations_in H :=
  unfold registrations in *;
  repeat first [ rewrite flat_map_app in H | rewrite flat_map_step in H ];
  repeat match goal with
         | H0 : flat_map registration _ = [] |- _ => rewrite H0 in H
         end; simpl in H.

(** X9. In a deployment without the managed CA, a certificate that
    [getWithCsr] registers was issued as follows: after the eligibility
    check, answered [true], the configured CA certificate is read, then the
    parameter [cdf-ca-key-<CA certificate id>] is read decrypted, then the
    request is signed with this key under this CA certificate for the
    configured number of days; what is registered is the signed certificate
    under the CA certificate read, whatever the request says about
    authorities. *)
Theorem local_ca_issuance (cfg : Config) (js : Runtime) (W : Type)
  (h : Handler W) (w : W) (deviceId csr : string) (prev : option string)
  (params : option ACMPCAParameters) (caPem pem : string) (x : Res string) :
  acmpcaEnabled cfg = false ->
  In (caPem, pem, x)
     (registrations (snd (invoke h (getWithCsr cfg js deviceId csr prev params) w))) ->
  exists key rest,
    snd (invoke h (getWithCsr cfg js deviceId csr prev params) w) =
      Ev (RegistryIsWhitelisted deviceId) (inr true)
      :: Ev (IotDescribeCACertificate (caCertificateId cfg)) (inr caPem)
      :: Ev (SsmGetParameter ("cdf-ca-key-" ^^ caCertificateId cfg) true) (inr key)
      :: Ev (PemCreateCertificate csr (certificateExpiryDays cfg) key caPem) (inr pem)
      :: Ev (IotRegisterCertificate caPem pem true) x
      :: rest.
Proof.
  intros Hacm.
  apply (wp_invoke h (getWithCsr cfg js deviceId csr prev params) w (fun _ tr =>
    In (caPem, pem, x) (registrations tr) ->
    exists key rest,
      tr = Ev (RegistryIsWhitelisted deviceId) (inr true)
           :: Ev (IotDescribeCACertificate (caCertificateId cfg)) (inr caPem)
           :: Ev (SsmGetParameter ("cdf-ca-key-" ^^ caCertificateId cfg) true) (inr key)
           :: Ev (PemCreateCertificate csr (certificateExpiryDays cfg) key caPem) (inr pem)
           :: Ev (IotRegisterCertificate caPem pem true) x
           :: rest)).
  unfold getWithCsr, getWithCsr_try, issueCertificate. rewrite Hacm.
  repeat first [wp_step | frame_policies].
  all: destruct_units; flatten.
  all: repeat match goal with
              | r : RetT (RegistryIsWhitelisted _) |- _ => destruct r
              end;
       try discriminate.
  all: intros Hin; registrations_in Hin.
  all: repeat (destruct Hin as [Hin | Hin]; [injection Hin as <- <- <- |]);
       try contradiction.
  all: do 2 eexists; reflexivity.
Qed.

Lemma local_ca_issuance_witness :
  acmpcaEnabled Example.cfg = false
  /\ In ("CA-PEM", "LEAF-PEM", inr "arn:aws:iot:us-west-2:123456789012:cert/new")
        (registrations
           (snd (invoke (Example.world Example.nominal)
                   (getWithCsr Example.cfg Example.js "dev-1" "CSR" None None) tt)))
  /\ exists key rest,
       snd (invoke (Example.world Example.nominal)
              (getWithCsr Example.cfg Example.js "dev-1" "CSR" None None) tt) =
         Ev (RegistryIsWhitelisted "dev-1") (inr true)
         :: Ev (IotDescribeCACertificate (caCertificateId Example.cfg)) (inr "CA-PEM")
         :: Ev (SsmGetParameter ("cdf-ca-key-" ^^ caCertificateId Example.cfg) true) (inr key)
         :: Ev (PemCreateCertificate "CSR" (certificateExpiryDays Example.cfg) key "CA-PEM")
              (inr "LEAF-PEM")
         :: Ev (IotRegisterCertificate "CA-PEM" "LEAF-PEM" true)
              (inr "arn:aws:iot:us-west-2:123456789012:cert/new")
         :: rest.
Proof.
  split; [reflexivity|]. split; [left; reflexivity|].
  apply (local_ca_issuance Example.cfg Example.js (Example.world Example.nominal) tt
           "dev-1" "CSR" None None "CA-PEM" "LEAF-PEM"
           (inr "arn:aws:iot:us-west-2:123456789012:cert/new")).
  - reflexivity.
  - left; reflexivity.
Defined.

Lemma perform_one_backend cfg js op :
  AllCallsM
    (fun c => negb (if acmpcaEnabled cfg then is_local_ca_call c else is_managed_ca_call c))
    (perform cfg js op).
Proof.
  destruct op as [d | d csr prev params | d certId prev]; simpl perform;
    unfold get, getWithCsr, ack, get_try, getWithCsr_try, ack_try, issueCertificate;
    destruct (acmpcaEnabled cfg); allcalls.
Qed.

(** X10. The two ways of issuing a certificate exclude each other: a
    deployment with the managed CA never reads the CA key nor signs a
    request itself, and a deployment without it never calls the managed
    CA, in any operation. *)
Theorem one_issuing_backend (cfg : Config) (js : Runtime) (W : Type)
  (h : Handler W) (w : W) (op : Operation) :
  Forall (fun e =>
            (if acmpcaEnabled cfg then is_local_ca_call (ev_call e)
             else is_managed_ca_call (ev_call e)) = false)
    (snd (invoke h (perform cfg js op) w)).
Proof.
  pose proof (AllCalls_invoke h w (perform_one_backend cfg js op)) as HF.
  eapply Forall_impl; [| exact HF].
  intros e He. apply negb_true_iff in He. exact He.
Qed.

(* ===================================================================== *)
(** ** The authorities a request names *)
(* ===================================================================== *)

Ltac eligibility_in H :=
  unfold eligibility_answers in *;
  repeat first [ rewrite flat_map_app in H | rewrite flat_map_step in H ];
  repeat match goal with
         | H0 : flat_map eligibility_answer _ = [] |- _ => rewrite H0 in H
         end; simpl in H.

(** X11. In a deployment with the managed CA, a request of [getWithCsr]
    that carries authority parameters is checked before any authority is
    contacted. If what it asks for as the CA certificate is undefined, the
    invocation fails right after the eligibility check, with
    [Invalid `awsiotCaAlias`.] if the request gives an alias and with
    [Either `awsiotCaAlias` or `awsiotCaId` must be provided] otherwise,
    whatever it says of the managed CA; else if what it asks for as the
    managed CA is undefined, it fails likewise with the messages about
    [acmpcaCaAlias]. Otherwise the CA certificate read is the requested
    one, or the configured one if the requested one is the empty string,
    and once it has been read, the issuance is requested from the managed
    CA asked for, or the configured one if it is the empty string, with the
    subject of the request. An alias takes precedence over an explicit
    value. *)
Theorem ca_parameters_resolution (cfg : Config) (js : Runtime) (W : Type)
  (h : Handler W) (w : W) (deviceId csr : string) (prev : option string)
  (p : ACMPCAParameters) :
  acmpcaEnabled cfg = true ->
  In (inr true)
     (eligibility_answers (snd (invoke h (getWithCsr cfg js deviceId csr prev (Some p)) w))) ->
  match requested_ca js p, requested_arn js p with
  | None, _ =>
      exists x,
        snd (invoke h (getWithCsr cfg js deviceId csr prev (Some p)) w) =
          [Ev (RegistryIsWhitelisted deviceId) (inr true);
           publish js (failureTopic cfg js (GetWithCsr deviceId csr prev (Some p)))
             (set_message
                (if Js.truthy (awsiotCaAlias p) then "Invalid `awsiotCaAlias`."
                 else "Either `awsiotCaAlias` or `awsiotCaId` must be provided")
                emptyResponse) x]
  | Some _, None =>
      exists x,
        snd (invoke h (getWithCsr cfg js deviceId csr prev (Some p)) w) =
          [Ev (RegistryIsWhitelisted deviceId) (inr true);
           publish js (failureTopic cfg js (GetWithCsr deviceId csr prev (Some p)))
             (set_message
                (if Js.truthy (acmpcaCaAlias p) then "Invalid `acmpcaCaAlias`."
                 else "Either `acmpcaCaAlias` or `acmpcaCaArn` must be provided.")
                emptyResponse) x]
  | Some ca, Some arn =>
      exists x rest,
        snd (invoke h (getWithCsr cfg js deviceId csr prev (Some p)) w) =
          Ev (RegistryIsWhitelisted deviceId) (inr true)
          :: Ev (IotDescribeCACertificate (or_default ca (caCertificateId cfg))) x
          :: rest
        /\ (forall caPem, x = inr caPem ->
            exists y rest',
              rest =
                Ev (AcmpcaIssueCertificate
                      (issueRequest cfg csr (or_default arn (cfg_acmpcaCaArn cfg)) (certInfo p)))
                   y
                :: rest')
  end.
Proof.
  intros Hacm.
  apply (wp_invoke h (getWithCsr cfg js deviceId csr prev (Some p)) w (fun _ tr =>
    In (inr true) (eligibility_answers tr) ->
    match requested_ca js p, requested_arn js p with
    | None, _ =>
        exists x,
          tr =
            [Ev (RegistryIsWhitelisted deviceId) (inr true);
             publish js (failureTopic cfg js (GetWithCsr deviceId csr prev (Some p)))
               (set_message
                  (if Js.truthy (awsiotCaAlias p) then "Invalid `awsiotCaAlias`."
                   else "Either `awsiotCaAlias` or `awsiotCaId` must be provided")
                  emptyResponse) x]
    | Some _, None =>
        exists x,
          tr =
            [Ev (RegistryIsWhitelisted deviceId) (inr true);
             publish js (failureTopic cfg js (GetWithCsr deviceId csr prev (Some p)))
               (set_message
                  (if Js.truthy (acmpcaCaAlias p) then "Invalid `acmpcaCaAlias`."
                   else "Either `acmpcaCaAlias` or `acmpcaCaArn` must be provided.")
                  emptyResponse) x]
    | Some ca, Some arn =>
        exists x rest,
          tr =
            Ev (RegistryIsWhitelisted deviceId) (inr true)
            :: Ev (IotDescribeCACertificate (or_default ca (caCertificateId cfg))) x
            :: rest
          /\ (forall caPem, x = inr caPem ->
              exists y rest',
                rest =
                  Ev (AcmpcaIssueCertificate
                        (issueRequest cfg csr (or_default arn (cfg_acmpcaCaArn cfg))
                           (certInfo p)))
                     y
                  :: rest')
    end)).
  unfold getWithCsr, getWithCsr_try, issueCertificate, resolveAcmpcaParameters.
  rewrite Hacm. unfold requested_ca, requested_arn, or_default.
  destruct (Js.truthy (awsiotCaAlias p)) eqn:Ta;
    destruct (Js.truthy (acmpcaCaAlias p)) eqn:Tb.
  all: repeat match goal with
              | |- wpM _ _ (fun _ _ _ => _ -> match ?x with Some _ => _ | None => _ end) =>
                  destruct x as [? | ] eqn:?
              end.
  all: repeat match goal with
              | |- context [if String.eqb ?v "" then caCertificateId _ else _] =>
                  destruct (String.eqb v "") eqn:?
              | |- context [if String.eqb ?v "" then cfg_acmpcaCaArn _ else _] =>
                  destruct (String.eqb v "") eqn:?
              end.
  all: repeat first
         [ progress cbn [awsiotCaID set_awsiotCaID acmpcaCaAlias acmpcaCaArn set_acmpcaCaArn
                         awsiotCaAlias certInfo Js.truthy Js.to_string negb]
         | match goal with H : ?l = _ |- _ => progress rewrite H end
         | wp_step
         | frame_policies ].
  all: destruct_units; flatten.
  all: intros Hin; eligibility_in Hin.
  all: repeat (destruct Hin as [Hin | Hin]); try contradiction;
       try (injection Hin as ->); try discriminate.
  all: first
         [ eexists; reflexivity
         | do 2 eexists; split;
           [ reflexivity
           | intros caPem Hx; first [discriminate Hx | do 2 eexists; reflexivity] ] ].
Qed.

Lemma ca_parameters_resolution_witness :
  acmpcaEnabled Example.cfg_acmpca = true
  /\ In (inr true)
        (eligibility_answers
           (snd (invoke (Example.world Example.nominal)
                   (getWithCsr Example.cfg_acmpca Example.js "dev-1" "CSR" None
                      (Some Scenes.unknown_alias)) tt)))
  /\ match requested_ca Example.js Scenes.unknown_alias,
           requested_arn Example.js Scenes.unknown_alias with
     | None, _ =>
         exists x,
           snd (invoke (Example.world Example.nominal)
                  (getWithCsr Example.cfg_acmpca Example.js "dev-1" "CSR" None
                     (Some Scenes.unknown_alias)) tt) =
             [Ev (RegistryIsWhitelisted "dev-1") (inr true);
              publish Example.js
                (failureTopic Example.cfg_acmpca Example.js
                   (GetWithCsr "dev-1" "CSR" None (Some Scenes.unknown_alias)))
                (set_message
                   (if Js.truthy (awsiotCaAlias Scenes.unknown_alias)
                    then "Invalid `awsiotCaAlias`."
                    else "Either `awsiotCaAlias` or `awsiotCaId` must be provided")
                   emptyResponse) x]
     | Some _, None =>
         exists x,
           snd (invoke (Example.world Example.nominal)
                  (getWithCsr Example.cfg_acmpca Example.js "dev-1" "CSR" None
                     (Some Scenes.unknown_alias)) tt) =
             [Ev (RegistryIsWhitelisted "dev-1") (inr true);
              publish Example.js
                (failureTopic Example.cfg_acmpca Example.js
                   (GetWithCsr "dev-1" "CSR" None (Some Scenes.unknown_alias)))
                (set_message
                   (if Js.truthy (acmpcaCaAlias Scenes.unknown_alias)
                    then "Invalid `acmpcaCaAlias`."
                    else "Either `acmpcaCaAlias` or `acmpcaCaArn` must be provided.")
                   emptyResponse) x]
     | Some ca, Some arn =>
         exists x rest,
           snd (invoke (Example.world Example.nominal)
                  (getWithCsr Example.cfg_acmpca Example.js "dev-1" "CSR" None
                     (Some Scenes.unknown_alias)) tt) =
             Ev (RegistryIsWhitelisted "dev-1") (inr true)
             :: Ev (IotDescribeCACertificate
                      (or_default ca (caCertificateId Example.cfg_acmpca))) x
             :: rest
           /\ (forall caPem, x = inr caPem ->
               exists y rest',
                 rest =
                   Ev (AcmpcaIssueCertificate
                         (issueRequest Example.cfg_acmpca "CSR"
                            (or_default arn (cfg_acmpcaCaArn Example.cfg_acmpca))
                            (certInfo Scenes.unknown_alias)))
                      y
                   :: rest')
     end.
Proof.
  split; [reflexivity|]. split; [left; reflexivity|].
  apply (ca_parameters_resolution Example.cfg_acmpca Example.js
           (Example.world Example.nominal) tt "dev-1" "CSR" None Scenes.unknown_alias).
  - reflexivity.
  - left; reflexivity.
Defined.

(* ===================================================================== *)
(** ** The ARN of a certificate and its id *)
(* ===================================================================== *)

Lemma split_free (sep : ascii) (s : string) :
  free_of sep s = true -> Js.split sep s = [s].
Proof.
  induction s as [| c s IH]; simpl; [reflexivity|].
  intros H. apply andb_true_iff in H. destruct H as [Hc Hs].
  apply negb_true_iff in Hc. rewrite Hc, (IH Hs). reflexivity.
Qed.

Lemma split_app_free (sep : ascii) (a b : string) :
  free_of sep a = true ->
  Js.split sep (a ^^ b) =
    match Js.split sep b with
    | h :: t => (a ^^ h) :: t
    | [] => [a]
    end.
Proof.
  induction a as [| c a IH]; simpl; intros H.
  - destruct (Js.split sep b) eqn:E; [| reflexivity].
    exfalso. eapply split_nonempty; eauto.
  - apply andb_true_iff in H. destruct H as [Hc Ha].
    apply negb_true_iff in Hc. rewrite Hc, (IH Ha).
    destruct (Js.split sep b) eqn:E; [| reflexivity].
    exfalso. eapply split_nonempty; eauto.
Qed.

(** X12. The id that the service derives from the ARN of a certificate
    (the second segment of the ARN split at [/]) is the id the ARN was
    built from, as long as neither the id nor the region and account of
    the deployment contain a [/]; so for a principal that is a certificate
    of the deployment, the target whose policies the cleanup lists and
    detaches, rebuilt from the derived id, is the principal itself. *)
Theorem certificate_id_round_trip (cfg : Config) (certId : string) :
  free_of "/" (region cfg) = true ->
  free_of "/" (accountId cfg) = true ->
  free_of "/" certId = true ->
  certificateIdOf (certArn cfg certId) = Some certId
  /\ certArn cfg (Js.to_string (certificateIdOf (certArn cfg certId))) = certArn cfg certId.
Proof.
  intros Hr Ha Hc.
  assert (H : certificateIdOf (certArn cfg certId) = Some certId).
  { unfold certificateIdOf, certArn. simpl.
    rewrite (@split_app_free _ _ _ Hr). simpl.
    rewrite (@split_app_free _ _ _ Ha). simpl.
    rewrite (@split_free _ _ Hc). reflexivity. }
  split; [exact H|]. rewrite H. reflexivity.
Qed.

Lemma certificate_id_round_trip_witness :
  free_of "/" (region Example.cfg) = true
  /\ free_of "/" (accountId Example.cfg) = true
  /\ free_of "/" "p2" = true
  /\ certificateIdOf (certArn Example.cfg "p2") = Some "p2"
  /\ certArn Example.cfg (Js.to_string (certificateIdOf (certArn Example.cfg "p2"))) =
       certArn Example.cfg "p2".
Proof.
  split; [reflexivity|]. split; [reflexivity|]. split; [reflexivity|].
  apply (certificate_id_round_trip Example.cfg "p2"); reflexivity.
Defined.

(* ===================================================================== *)
(** * The presigned URLs of a command: properties *)
(* ===================================================================== *)

Module PresignedProofs.

Import Presigned.
Local Open Scope presigned_scope.

Lemma always_mono {X : Type} (p : Free X) (Q Q' : X -> list Event -> Prop) :
  (forall x tr, Q x tr -> Q' x tr) -> always p Q -> always p Q'.
Proof.
  revert Q Q'. induction p as [x | c k IH]; simpl; intros Q Q' HQ H.
  - apply HQ, H.
  - intros r. eapply IH; [| apply H]. intros x tr. apply HQ.
Qed.

Lemma always_fbind {X Y : Type} (p : Free X) (f : X -> Free Y)
  (Q : Y -> list Event -> Prop) :
  always p (fun x t1 => always (f x) (fun y t2 => Q y (t1 ++ t2))) ->
  always (fbind p f) Q.
Proof.
  revert Q. induction p as [x | c k IH]; simpl; intros Q H.
  - exact H.
  - intros r. apply IH. exact (H r).
Qed.

Lemma always_run {W X : Type} (h : Handler W) (p : Free X) (w : W)
  (Q : X -> list Event -> Prop) :
  always p Q -> Q (fst (fst (run h p w))) (snd (fst (run h p w))).
Proof.
  revert w Q. induction p as [x | c k IH]; simpl; intros w Q H.
  - exact H.
  - destruct (h c w) as [r w1]. specialize (IH r w1 _ (H r)).
    destruct (run h (k r) w1) as [[x tr] w2]. exact IH.
Qed.

Lemma always_invoke {W A : Type} (h : Handler W) (m : M A) (w : W)
  (Q : Res A -> list Event -> Prop) :
  alwaysM m noResponse (fun r _ tr => Q r tr) ->
  Q (fst (invoke h m w)) (snd (invoke h m w)).
Proof.
  intros H. apply (always_run h _ w) in H. unfold invoke.
  destruct (run h (m noResponse) w) as [[[r s] tr] w']. exact H.
Qed.

Lemma alwaysM_mono {A : Type} (m : M A) s
  (Q Q' : Res A -> PresignedResponseModel -> list Event -> Prop) :
  (forall r s' tr, Q r s' tr -> Q' r s' tr) -> alwaysM m s Q -> alwaysM m s Q'.
Proof. intros HQ. apply always_mono. intros [r s'] tr. apply HQ. Qed.

Lemma alwaysM_bind {A B : Type} (m : M A) (f : A -> M B) s
  (Q : Res B -> PresignedResponseModel -> list Event -> Prop) :
  alwaysM m s (fun r s1 t1 =>
    match r with
    | inl e => Q (inl e) s1 t1
    | inr a => alwaysM (f a) s1 (fun r' s2 t2 => Q r' s2 (t1 ++ t2))
    end) ->
  alwaysM (bind m f) s Q.
Proof.
  intros H. unfold alwaysM, bind. apply always_fbind.
  eapply always_mono; [| exact H].
  intros [[e | a] s1] t1 H1; simpl in *.
  - rewrite app_nil_r. exact H1.
  - exact H1.
Qed.

Lemma alwaysM_try_catch {A : Type} (m : M A) (handler : string -> M A) s
  (Q : Res A -> PresignedResponseModel -> list Event -> Prop) :
  alwaysM m s (fun r s1 t1 =>
    match r with
    | inl e => alwaysM (handler e) s1 (fun r' s2 t2 => Q r' s2 (t1 ++ t2))
    | inr a => Q (inr a) s1 t1
    end) ->
  alwaysM (try_catch m handler) s Q.
Proof.
  intros H. unfold alwaysM, try_catch. apply always_fbind.
  eapply always_mono; [| exact H].
  intros [[e | a] s1] t1 H1; simpl in *.
  - exact H1.
  - rewrite app_nil_r. exact H1.
Qed.

Lemma alwaysM_ret {A : Type} (a : A) s
  (Q : Res A -> PresignedResponseModel -> list Event -> Prop) :
  Q (inr a) s [] -> alwaysM (ret a) s Q.
Proof. intros H. exact H. Qed.

Lemma alwaysM_throw {A : Type} (e : string) s
  (Q : Res A -> PresignedResponseModel -> list Event -> Prop) :
  Q (inl e) s [] -> alwaysM (throw e) s Q.
Proof. intros H. exact H. Qed.

Lemma alwaysM_update_response f s
  (Q : Res unit -> PresignedResponseModel -> list Event -> Prop) :
  Q (inr tt) (f s) [] -> alwaysM (update_response f) s Q.
Proof. intros H. exact H. Qed.

Lemma alwaysM_read_response s
  (Q : Res PresignedResponseModel -> PresignedResponseModel -> list Event -> Prop) :
  Q (inr s) s [] -> alwaysM read_response s Q.
Proof. intros H. exact H. Qed.

Lemma alwaysM_call (c : Call) s
  (Q : Res (RetT c) -> PresignedResponseModel -> list Event -> Prop) :
  (forall r, Q r s [Ev c r]) -> alwaysM (call c) s Q.
Proof. intros H r. apply H. Qed.

Lemma alwaysM_start (c : Call) s
  (Q : Res (Res (RetT c)) -> PresignedResponseModel -> list Event -> Prop) :
  (forall r, Q (inr r) s [Ev c r]) -> alwaysM (start c) s Q.
Proof. intros H r. apply H. Qed.

(** A loop over a local object, whose iterations keep the response. *)
Lemma alwaysM_forEach {A S : Type} (body : A -> S -> M S)
  (I : list A -> S -> Res S -> list Event -> Prop) (l : list A) (o : S) s :
  (forall o, I [] o (inr o) []) ->
  (forall x rest o, alwaysM (body x o) s (fun r s1 t1 =>
     s1 = s /\
     match r with
     | inl e => I (x :: rest) o (inl e) t1
     | inr o' => forall r' t2, I rest o' r' t2 -> I (x :: rest) o r' (t1 ++ t2)
     end)) ->
  alwaysM (forEach l body o) s (fun r s' tr => s' = s /\ I l o r tr).
Proof.
  intros Hnil Hbody. revert o. induction l as [| x rest IH]; intros o; simpl.
  - apply alwaysM_ret. auto.
  - apply alwaysM_bind. eapply alwaysM_mono; [| apply (Hbody x rest o)].
    intros [e | o'] s1 t1 [-> H].
    + auto.
    + eapply alwaysM_mono; [| apply IH]. intros r' s2 t2 [-> H2]. auto.
Qed.

Ltac p_unfold :=
  unfold getCommandAndJobInfo, Promise_all, publishSuccessResponse, publishFailedResponse,
    generatePresignedUrl, validateDeviceIsTarget.

Ltac p_pure_step :=
  lazymatch goal with
  | |- alwaysM (bind _ _) _ _ => apply alwaysM_bind
  | |- alwaysM (try_catch _ _) _ _ => apply alwaysM_try_catch
  | |- alwaysM (ret _) _ _ => apply alwaysM_ret
  | |- alwaysM (throw _) _ _ => apply alwaysM_throw
  | |- alwaysM (update_response _) _ _ => apply alwaysM_update_response
  | |- alwaysM read_response _ _ => apply alwaysM_read_response
  | |- alwaysM (if ?b then _ else _) _ _ =>
      let E := fresh "E" in destruct b eqn:E; try (simpl in E; discriminate E)
  | |- alwaysM (match ?x with _ => _ end) _ _ => destruct x eqn:?
  end; cbv beta iota.

Ltac p_call_step :=
  lazymatch goal with
  | |- alwaysM (call _) _ _ => apply alwaysM_call; intros [? | ?]
  | |- alwaysM (start _) _ _ => apply alwaysM_start; intros [? | ?]
  end; cbv beta iota.

Ltac p_step := first [ p_pure_step | p_call_step | progress p_unfold ].

Ltac p_units :=
  repeat match goal with
         | x : ?T |- _ =>
             let T' := eval cbv in T in
             match T' with unit => destruct x end
         end.

(* ===================================================================== *)
(** ** Is the device a target of the job? *)
(* ===================================================================== *)

Lemma some_filtered {A : Type} (f : A -> bool) (l : list A) :
  Nat.ltb 0 (length (filter f l)) = existsb f l.
Proof.
  induction l as [| x l IH]; simpl; [reflexivity|].
  destruct (f x); simpl; [reflexivity | exact IH].
Qed.

Example upload_for_a_device_of_the_group :
  invoke (world nominal)
    (generateForUpload cfg0 js0
       {| up_thingName := "dev-1"; up_commandId := "c1";
          requestedObjectKeys := ["log.txt"] |}) tt =
  (inr {| thingName := "dev-1"; commandId := "c1"; status := SUCCESS;
          presignedUrls :=
            Some [("log.txt",
                   "https://commands-bucket/cdf/commands/c1/uploads/dev-1/log.txt?putObject")]
       |},
   [Ev (CommandsGet "c1") (inr (command nominal));
    Ev (IotDescribeJob (Some "j1")) (inr (described nominal));
    Ev (TemplatesGet (Some "t1")) (inr (template nominal));
    Ev (IotListThingGroupsForThing "dev-1") (inr (groupsOf nominal));
    Ev (S3GetSignedUrl "putObject" (Some "commands-bucket")
          (Some "cdf/commands/c1/uploads/dev-1/log.txt") (Some 300%Z))
       (inr "https://commands-bucket/cdf/commands/c1/uploads/dev-1/log.txt?putObject");
    Ev (IotDataPublish "cdf/commands/presignedurl/c1/dev-1/uploads/accepted"
          "dev-1;c1;SUCCESS;log.txt=https://commands-bucket/cdf/commands/c1/uploads/dev-1/log.txt?putObject"
          1) (inr tt)]).
Proof. reflexivity. Qed.

Lemma group_match_iff (targets : list string) (groups : list GroupNameAndArn) :
  existsb
    (fun g =>
       Nat.ltb 0 (length (filter (fun tg => option_eqb (groupArn tg) (Some g)) groups)))
    (filter names_group targets) = true
  <-> exists g tg,
        In g targets /\ String.prefix "group/" (last_segment g) = true
        /\ In tg groups /\ groupArn tg = Some g.
Proof.
  rewrite existsb_exists. split.
  - intros (g & Hg & Hm). apply filter_In in Hg. destruct Hg as [Hg Hn].
    rewrite some_filtered in Hm. apply existsb_exists in Hm.
    destruct Hm as (tg & Htg & Heq). apply option_eqb_eq in Heq.
    exists g, tg. auto.
  - intros (g & tg & Hg & Hn & Htg & Heq). exists g. split.
    + apply filter_In. auto.
    + rewrite some_filtered. apply existsb_exists. exists tg. split; [exact Htg|].
      apply option_eqb_eq. exact Heq.
Qed.

Lemma explicit_iff (thingName : string) (targets : list string) :
  existsb (names_thing thingName) targets = true
  <-> exists t, In t targets /\ last_segment t = "thing/" ^^ thingName.
Proof.
  rewrite existsb_exists. unfold names_thing.
  split; intros (t & Ht & H); exists t; (split; [exact Ht|]); apply String.eqb_eq; exact H.
Qed.

Lemma nonempty_length {A : Type} (l : list A) (x : A) : In x l -> Nat.ltb 0 (length l) = true.
Proof. destruct l; [intros [] | reflexivity]. Qed.

Lemma validateDeviceIsTarget_spec js thingName job s :
  alwaysM (validateDeviceIsTarget js thingName job) s (fun r s' tr =>
    s' = s
    /\ signings tr = [] /\ publications tr = []
    /\ forall b, r = inr b ->
         exists j targets,
           job = Some j /\ Presigned.targets j = Some targets
           /\ (b = true <-> Targeted thingName targets (groups_answered tr))).
Proof.
  unfold validateDeviceIsTarget.
  destruct job as [j |]; [| apply alwaysM_throw; repeat split; discriminate].
  destruct (targets j) as [ts |] eqn:Hts;
    [| apply alwaysM_throw; repeat split; discriminate].
  rewrite some_filtered.
  destruct (existsb (names_thing thingName) ts) eqn:Hex; cbn [negb].
  - apply alwaysM_ret. repeat split; try reflexivity.
    intros b Hb. injection Hb as <-. exists j, ts. repeat split; auto.
    intros _. left. apply explicit_iff. exact Hex.
  - assert (Hno : ~ exists t, In t ts /\ last_segment t = "thing/" ^^ thingName).
    { intros H. apply explicit_iff in H. congruence. }
    repeat p_step; repeat split; try reflexivity; try discriminate.
    all: intros b Hb; injection Hb as <-; exists j, ts; repeat split; auto.
    all: repeat match goal with
                | x : RetT (IotListThingGroupsForThing _) |- _ =>
                    destruct x as [?]; cbn [thingGroups] in *
                end; subst.
    all: unfold Targeted, groups_answered; simpl; rewrite ?app_nil_r.
    + intros H. right. apply group_match_iff. exact H.
    + intros [H | H]; [contradiction | apply group_match_iff; exact H].
    + discriminate.
    + intros [H | (g & tg & Hg & Hn & Htg & Heq)]; [contradiction|].
      exfalso. apply andb_false_iff in E. destruct E as [E | E].
      * rewrite (nonempty_length _ _ Htg) in E. discriminate.
      * rewrite (nonempty_length (filter names_group ts) g) in E; [discriminate|].
        apply filter_In. auto.
    + discriminate.
    + intros [H | (g & tg & Hg & Hn & [] & Heq)]; contradiction.
Qed.

(** X13. [validateDeviceIsTarget] does not ask AWS IoT for the groups of
    the device when one of the targets of the job names the device, that
    is, ends after its last [:] with [thing/] and the name of the device:
    it answers [true] without any call. *)
Theorem explicit_target_needs_no_lookup (js : Runtime) (W : Type) (h : Handler W) (w : W)
  (thingName : string) (targets : list string) :
  (exists t, In t targets /\ last_segment t = "thing/" ^^ thingName) ->
  invoke h (validateDeviceIsTarget js thingName (Some {| Presigned.targets := Some targets |})) w
    = (inr true, []).
Proof.
  intros H. apply explicit_iff in H.
  unfold validateDeviceIsTarget, invoke. cbn [Presigned.targets].
  rewrite some_filtered, H. reflexivity.
Qed.

Lemma explicit_target_needs_no_lookup_witness :
  (exists t,
      In t ["arn:aws:iot:us-west-2:123456789012:thing/dev-9"]
      /\ last_segment t = "thing/" ^^ "dev-9")
  /\ invoke (world nominal)
       (validateDeviceIsTarget js0 "dev-9"
          (Some {| Presigned.targets :=
                     Some ["arn:aws:iot:us-west-2:123456789012:thing/dev-9"] |})) tt
     = (inr true, []).
Proof.
  split.
  - exists "arn:aws:iot:us-west-2:123456789012:thing/dev-9".
    split; [left; reflexivity | reflexivity].
  - apply (@explicit_target_needs_no_lookup js0 unit (world nominal) tt "dev-9"
             ["arn:aws:iot:us-west-2:123456789012:thing/dev-9"]).
    exists "arn:aws:iot:us-west-2:123456789012:thing/dev-9".
    split; [left; reflexivity | reflexivity].
Defined.

(** X14. [validateDeviceIsTarget] throws [NOT_FOUND], without any call,
    when there is no job. When it returns, the job has targets and the
    answer is [true] exactly when the device is a target of the job: a
    target names the device, or a target names a group (it ends after its
    last [:] with something that starts with [group/]) and is, as a whole,
    the ARN of one of the groups AWS IoT answered for the device. *)
Theorem device_is_target_iff (js : Runtime) (W : Type) (h : Handler W) (w : W)
  (thingName : string) (job : option Job) :
  (job = None ->
   invoke h (validateDeviceIsTarget js thingName job) w = (inl "NOT_FOUND", []))
  /\ (forall b,
      fst (invoke h (validateDeviceIsTarget js thingName job) w) = inr b ->
      exists j targets,
        job = Some j /\ Presigned.targets j = Some targets
        /\ (b = true <->
            Targeted thingName targets
              (groups_answered (snd (invoke h (validateDeviceIsTarget js thingName job) w))))).
Proof.
  split; [intros ->; reflexivity|].
  apply (always_invoke h (validateDeviceIsTarget js thingName job) w (fun r tr =>
    forall b, r = inr b ->
      exists j targets,
        job = Some j /\ Presigned.targets j = Some targets
        /\ (b = true <-> Targeted thingName targets (groups_answered tr)))).
  eapply alwaysM_mono; [| apply validateDeviceIsTarget_spec].
  intros r s' tr (_ & _ & _ & H) b Hb.
  destruct (H b Hb) as (j & ts & Hj & Hts & Hiff). exists j, ts. auto.
Qed.

Lemma device_is_target_iff_witness :
  fst (invoke (world nominal)
         (validateDeviceIsTarget js0 "dev-1" (job (described nominal))) tt) = inr true
  /\ exists j targets,
       job (described nominal) = Some j /\ Presigned.targets j = Some targets
       /\ (true = true <->
           Targeted "dev-1" targets
             (groups_answered
                (snd (invoke (world nominal)
                        (validateDeviceIsTarget js0 "dev-1" (job (described nominal))) tt)))).
Proof.
  split; [reflexivity|].
  apply (proj2 (device_is_target_iff js0 (world nominal) tt "dev-1"
                  (job (described nominal))) true).
  reflexivity.
Defined.

(* ===================================================================== *)
(** ** The signing loops *)
(* ===================================================================== *)

Lemma own_upsert_same {V : Type} (k : string) (v : V) (o : list (string * V)) :
  own k (upsert k v o) = Some v.
Proof.
  induction o as [| [k' v'] o IH]; simpl.
  - now rewrite String.eqb_refl.
  - destruct (String.eqb k' k) eqn:E; simpl; rewrite E; [reflexivity | exact IH].
Qed.

Lemma own_upsert_other {V : Type} (k k' : string) (v : V) (o : list (string * V)) :
  k <> k' -> own k (upsert k' v o) = own k o.
Proof.
  intros Hne. induction o as [| [k0 v0] o IH]; simpl.
  - destruct (String.eqb k' k) eqn:E; [| reflexivity].
    apply String.eqb_eq in E. congruence.
  - destruct (String.eqb k0 k') eqn:E; simpl.
    + apply String.eqb_eq in E. subst k0.
      destruct (String.eqb k' k) eqn:E'; [| reflexivity].
      apply String.eqb_eq in E'. congruence.
    + destruct (String.eqb k0 k); [reflexivity | exact IH].
Qed.

Lemma own_assign_same (k v : string) (o : list (string * string)) :
  k <> "__proto__" -> own k (assign k v o) = Some v.
Proof.
  intros Hk. unfold assign. apply String.eqb_neq in Hk. rewrite Hk.
  apply own_upsert_same.
Qed.

Lemma own_assign_other (k k' v : string) (o : list (string * string)) :
  k <> k' -> own k (assign k' v o) = own k o.
Proof.
  intros Hne. unfold assign. destruct (String.eqb k' "__proto__"); [reflexivity|].
  now apply own_upsert_other.
Qed.

Lemma own_assign_proto (k v : string) (o : list (string * string)) :
  own "__proto__" (assign k v o) = own "__proto__" o.
Proof.
  unfold assign. destruct (String.eqb k "__proto__") eqn:E; [reflexivity|].
  apply own_upsert_other. apply String.eqb_neq in E. congruence.
Qed.

Lemma Signed_loop
  (P : string -> string -> option string -> option string -> option Z -> Prop)
  (body : string -> list (string * string) -> M (list (string * string)))
  (l : list string) (o : list (string * string)) s :
  (forall k o, alwaysM (body k o) s (fun r s1 t1 => s1 = s /\ Iteration P k o r t1)) ->
  alwaysM (forEach l body o) s (fun r s' tr => s' = s /\ Signed P l o r tr).
Proof.
  intros Hbody. apply (alwaysM_forEach body (Signed P)).
  - intros o'. split; [reflexivity|]. split; [reflexivity|]. split.
    + intros ? ? ? ? ? [].
    + intros urls Hr. injection Hr as <-. split; [intros k [] | reflexivity].
  - intros k rest o'. eapply alwaysM_mono; [| apply Hbody].
    intros r s1 t1 [-> Hit]. split; [reflexivity|].
    destruct Hit as [e | op b key' exp e HP | op b key' exp url HP].
    + split; [reflexivity|]. split; [reflexivity|]. split.
      * intros ? ? ? ? ? [].
      * discriminate.
    + split; [reflexivity|]. split; [reflexivity|]. split.
      * intros ? ? ? ? ? [H | []]. injection H as <- <- <- <- <-.
        exists k. split; [left; reflexivity | exact HP].
      * discriminate.
    + intros r' t2 (Hp & Hg & Hs & Hu).
      split; [exact Hp|]. split; [exact Hg|]. split.
      * intros ? ? ? ? ? [H | H].
        -- injection H as <- <- <- <- <-. exists k. split; [left; reflexivity | exact HP].
        -- destruct (Hs _ _ _ _ _ H) as (k' & Hk' & HP'). exists k'. split; [right|]; auto.
      * intros urls Hr. destruct (Hu _ Hr) as [Hin Hout]. split.
        -- intros k' Hk'. destruct (in_dec string_dec k' rest) as [Hrest | Hrest].
           ++ destruct (Hin _ Hrest) as (op' & b' & key'' & exp' & url' & HP' & Hi & Hl).
              exists op', b', key'', exp', url'.
              split; [exact HP'|]. split; [right; exact Hi | exact Hl].
           ++ destruct Hk' as [<- | Hk']; [| contradiction].
              exists op, b, key', exp, url.
              split; [exact HP|]. split; [left; reflexivity|].
              intros Hproto. rewrite (Hout k (or_introl Hrest)).
              now apply own_assign_same.
        -- intros k' [Hk' | ->].
           ++ rewrite (Hout k').
              ** apply own_assign_other. intros ->. apply Hk'. left. reflexivity.
              ** left. intros Hrest. apply Hk'. right. exact Hrest.
           ++ rewrite (Hout "__proto__" (or_intror eq_refl)). apply own_assign_proto.
Qed.

Lemma upload_loop_spec cfg js command template thingName keys o s :
  alwaysM
    (forEach keys
       (fun k presignedUrls =>
          match template with
          | None => throw (TypeError_message js)
          | Some template =>
              presignedUrl <-
                generatePresignedUrl (Some (s3Bucket cfg))
                  (Some (uploadKey cfg command thingName k))
                  (presignedUrlExpiresInSeconds template) true ;;
              ret (assign k presignedUrl presignedUrls)
          end)
       o) s
    (fun r s' tr =>
       s' = s /\ Signed (UploadRequest cfg command template thingName) keys o r tr).
Proof.
  apply Signed_loop. intros k o'.
  destruct template as [t |]; repeat p_step; (split; [reflexivity|]).
  - apply unsigned. exists t. repeat split; reflexivity.
  - apply signed. exists t. repeat split; reflexivity.
  - apply refused.
Qed.

Lemma download_loop_spec js command template aliases o s :
  alwaysM
    (forEach aliases
       (fun k presignedUrls =>
          match template with
          | None => throw (TypeError_message js)
          | Some template =>
              match requiredFiles template with
              | None => throw (TypeError_message js)
              | Some required =>
                  if negb (existsb (String.eqb k) required) then
                    throw ("INVALID_ALIAS: " ^^ k)
                  else
                    match files command with
                    | None => throw (TypeError_message js)
                    | Some entries =>
                        match lookup (inherited js) k entries with
                        | None => throw (TypeError_message js)
                        | Some file =>
                            presignedUrl <-
                              generatePresignedUrl (bucketName file) (key file)
                                (presignedUrlExpiresInSeconds template) false ;;
                            ret (assign k presignedUrl presignedUrls)
                        end
                    end
              end
          end)
       o) s
    (fun r s' tr =>
       s' = s /\ Signed (DownloadRequest js command template) aliases o r tr).
Proof.
  apply Signed_loop. intros k o'.
  destruct template as [t |]; repeat p_step; (split; [reflexivity|]);
    try apply refused.
  all: apply negb_false_iff, existsb_exists in E; destruct E as (k' & Hk' & Heq);
    apply String.eqb_eq in Heq; subst k'.
  - apply unsigned. exists t. do 3 eexists. repeat split; eauto.
  - apply signed. exists t. do 3 eexists. repeat split; eauto.
Qed.

(* ===================================================================== *)
(** ** The two operations *)
(* ===================================================================== *)

Ltac frame_validate :=
  lazymatch goal with
  | |- alwaysM (validateDeviceIsTarget _ _ _) _ _ =>
      eapply alwaysM_mono; [| apply validateDeviceIsTarget_spec];
      let Hsv := fresh "Hsv" in
      let Hpv := fresh "Hpv" in
      let Htv := fresh "Htv" in
      intros [? | ?] ? ? (-> & Hsv & Hpv & Htv); cbv beta iota
  end.

Ltac frame_loop :=
  lazymatch goal with
  | |- alwaysM (forEach _ _ _) _ _ =>
      eapply alwaysM_mono;
      [| first [ apply upload_loop_spec | apply download_loop_spec ] ];
      let Hpl := fresh "Hpl" in
      let Hgl := fresh "Hgl" in
      let Hsl := fresh "Hsl" in
      let Hul := fresh "Hul" in
      intros [? | ?] ? ? (-> & Hpl & Hgl & Hsl & Hul); cbv beta iota
  end.

Ltac p_run :=
  unfold generateForUpload, generateForDownload, generateForUpload_try,
    generateForDownload_try, getCommandAndJobInfo, Promise_all, publishSuccessResponse,
    publishFailedResponse;
  repeat first [ p_pure_step | p_call_step | frame_validate | frame_loop ].

Lemma flat_map_cons {A B : Type} (f : A -> list B) (x : A) (l : list A) :
  flat_map f (x :: l) = f x ++ flat_map f l.
Proof. reflexivity. Qed.

(** [tr] as its events but the last, and the last. *)
Ltac p_snoc tr :=
  lazymatch tr with
  | [?e] => constr:((@nil Event, e))
  | ?e :: ?rest =>
      let p := p_snoc rest in
      lazymatch p with
      | (@nil _, ?l) => constr:(([e], l))
      | (?st, ?l) => constr:(([e] ++ st, l))
      end
  | ?seg ++ ?rest =>
      let p := p_snoc rest in
      lazymatch p with
      | (@nil _, ?l) => constr:((seg, l))
      | (?st, ?l) => constr:((seg ++ st, l))
      end
  end.

Ltac p_observe :=
  unfold publications, signings, groups_answered in *;
  repeat first [ rewrite flat_map_app | rewrite flat_map_cons ];
  repeat match goal with
         | H : flat_map _ _ = [] |- _ => rewrite H
         end; simpl.

Ltac final_leaf :=
  p_units; flatten;
  lazymatch goal with
  | |- exists steps resp x, ?tr = _ /\ _ =>
      let p := p_snoc tr in
      lazymatch p with
      | (?st, Ev (IotDataPublish _ (JSON_stringify _ ?resp) _) ?x) =>
          exists st, resp, x; split; [snoc_eq |];
          split; [reflexivity |]; split; [reflexivity |]; split; [reflexivity |];
          cbn [status set_status set_presignedUrls];
          first
            [ split; [reflexivity |]; split; [discriminate |]; p_observe; reflexivity
            | left; split; [reflexivity |]; p_observe; reflexivity
            | right; eexists; split; [discriminate |]; p_observe; reflexivity ]
      end
  end.

Lemma perform_final cfg js op s :
  alwaysM (perform cfg js op) s (fun r _ tr =>
    exists steps resp x,
      tr = steps ++ [Ev (IotDataPublish (outcomeTopic cfg js op resp) (JSON_stringify js resp) 1) x]
      /\ r = match x with inl e => inl e | inr _ => inr resp end
      /\ thingName resp = thingOf op /\ commandId resp = commandOf op
      /\ match status resp with
         | SUCCESS => x = inr tt /\ presignedUrls resp <> None /\ publications steps = []
         | FAILED =>
             (presignedUrls resp = None /\ publications steps = [])
             \/ (exists e,
                   presignedUrls resp <> None
                   /\ publications steps =
                        [(topicOf cfg js resp (directionOf op) "/accepted",
                          JSON_stringify js (set_status SUCCESS resp), inl e)])
         end).
Proof.
  destruct op as [request | request]; simpl perform; p_run; final_leaf.
Qed.

Lemma perform_guarded cfg js op s :
  alwaysM (perform cfg js op) s (fun r _ tr =>
    forall operation bucket key' expires x,
      In (operation, bucket, key', expires, x) (signings tr) ->
      exists c dj t j targets rest k,
        tr = Ev (CommandsGet (commandOf op)) (inr (Some c))
             :: Ev (IotDescribeJob (jobId c)) (inr dj)
             :: Ev (TemplatesGet (templateId c)) (inr t)
             :: rest
        /\ job dj = Some j /\ Presigned.targets j = Some targets
        /\ Targeted (thingOf op) targets (groups_answered tr)
        /\ In k (keysOf op)
        /\ Requested cfg js op c t k operation bucket key' expires).
Proof.
  destruct op as [request | request]; simpl perform; p_run.
  all: p_units; subst.
  all: intros operation bucket key' expires x Hin.
  all: unfold signings, groups_answered, publications in *.
  all: repeat first [ rewrite flat_map_app in Hin | rewrite flat_map_cons in Hin ];
       rewrite ?Hsv in Hin; simpl in Hin; rewrite ?app_nil_r in Hin.
  all: try contradiction.
  all: apply Hsl in Hin; destruct Hin as (k & Hk & HP).
  all: destruct b; [| discriminate].
  all: destruct (Htv true eq_refl) as (j & ts & Hj & Hts & Hiff); simpl in Hj.
  all: exists c, r0, r1, j, ts; eexists; exists k.
  all: split; [flatten; reflexivity |].
  all: split; [exact Hj |]; split; [exact Hts |].
  all: split;
       [ repeat first [ rewrite flat_map_app | rewrite flat_map_cons ];
         rewrite Hgl; simpl; rewrite ?app_nil_r; apply Hiff; reflexivity |].
  all: split; [simpl; rewrite E0; exact Hk | exact HP].
Qed.

(** X15. Every invocation of [generateForUpload] or [generateForDownload]
    ends with the publication of its outcome, whose payload is the
    response the caller gets. The caller gets an error only if this last
    publication throws, and then this error: any other failure is turned
    into a response of status [FAILED], published on the topic of rejected
    uploads, for downloads too. A response of status [SUCCESS] carries
    URLs and was accepted on the topic of its direction by the only
    publication of the invocation. A response of status [FAILED] carries
    URLs only if what failed is the publication of the success outcome. *)
Theorem invocation_ends_with_its_outcome (cfg : Config) (js : Runtime) (W : Type)
  (h : Handler W) (w : W) (op : Operation) :
  exists steps resp x,
    snd (invoke h (perform cfg js op) w) =
      steps ++ [Ev (IotDataPublish (outcomeTopic cfg js op resp) (JSON_stringify js resp) 1) x]
    /\ fst (invoke h (perform cfg js op) w) =
         match x with inl e => inl e | inr _ => inr resp end
    /\ thingName resp = thingOf op /\ commandId resp = commandOf op
    /\ match status resp with
       | SUCCESS => x = inr tt /\ presignedUrls resp <> None /\ publications steps = []
       | FAILED =>
           (presignedUrls resp = None /\ publications steps = [])
           \/ (exists e,
                 presignedUrls resp <> None
                 /\ publications steps =
                      [(topicOf cfg js resp (directionOf op) "/accepted",
                        JSON_stringify js (set_status SUCCESS resp), inl e)])
       end.
Proof.
  apply (always_invoke h (perform cfg js op) w (fun r tr =>
    exists steps resp x,
      tr = steps ++ [Ev (IotDataPublish (outcomeTopic cfg js op resp) (JSON_stringify js resp) 1) x]
      /\ r = match x with inl e => inl e | inr _ => inr resp end
      /\ thingName resp = thingOf op /\ commandId resp = commandOf op
      /\ match status resp with
         | SUCCESS => x = inr tt /\ presignedUrls resp <> None /\ publications steps = []
         | FAILED =>
             (presignedUrls resp = None /\ publications steps = [])
             \/ (exists e,
                   presignedUrls resp <> None
                   /\ publications steps =
                        [(topicOf cfg js resp (directionOf op) "/accepted",
                          JSON_stringify js (set_status SUCCESS resp), inl e)])
         end)).
  apply perform_final.
Qed.

(** X16. Whatever [generateForUpload] or [generateForDownload] asks S3 to
    sign, it does so after the command, its job and its template have
    been read, for a device that is a target of the job, and for one of
    the requested keys or aliases: for an upload, [putObject] on the
    configured bucket under the key
    [<prefix>commands/<id of the command>/uploads/<device>/<key>]; for a
    download, [getObject] on the bucket and key of what the files of the
    command give for the alias, which is one of the required files of the
    template; in both cases with the validity of the template. What the
    files give for an alias is its own entry or, when there is none, the
    member of that name that objects inherit, whose bucket and key may be
    undefined. *)
Theorem signing_is_guarded (cfg : Config) (js : Runtime) (W : Type)
  (h : Handler W) (w : W) (op : Operation)
  (operation : string) (bucket key' : option string) (expires : option Z) (x : Res string) :
  In (operation, bucket, key', expires, x) (signings (snd (invoke h (perform cfg js op) w))) ->
  exists c dj t j targets rest k,
    snd (invoke h (perform cfg js op) w) =
      Ev (CommandsGet (commandOf op)) (inr (Some c))
      :: Ev (IotDescribeJob (jobId c)) (inr dj)
      :: Ev (TemplatesGet (templateId c)) (inr t)
      :: rest
    /\ job dj = Some j /\ Presigned.targets j = Some targets
    /\ Targeted (thingOf op) targets (groups_answered (snd (invoke h (perform cfg js op) w)))
    /\ In k (keysOf op)
    /\ Requested cfg js op c t k operation bucket key' expires.
Proof.
  apply (always_invoke h (perform cfg js op) w (fun r tr =>
    In (operation, bucket, key', expires, x) (signings tr) ->
    exists c dj t j targets rest k,
      tr = Ev (CommandsGet (commandOf op)) (inr (Some c))
           :: Ev (IotDescribeJob (jobId c)) (inr dj)
           :: Ev (TemplatesGet (templateId c)) (inr t)
           :: rest
      /\ job dj = Some j /\ Presigned.targets j = Some targets
      /\ Targeted (thingOf op) targets (groups_answered tr)
      /\ In k (keysOf op)
      /\ Requested cfg js op c t k operation bucket key' expires)).
  eapply alwaysM_mono; [| apply perform_guarded].
  intros r s' tr H. apply H.
Qed.

(** The alias [constructor] is one of the required files of the template
    and the command has no file for it: the download is signed for the
    member that the files inherit, with no bucket and no key. *)
Lemma signing_is_guarded_witness :
  In ("getObject", None, None, Some 300%Z, inr "https://undefined/undefined?getObject")
     (signings
        (snd (invoke (world nominal)
                (perform cfg0 js0
                   (Download {| down_thingName := "dev-1"; down_commandId := "c1";
                                requestedFileAliases := ["constructor"] |})) tt)))
  /\ exists c dj t j targets rest k,
       snd (invoke (world nominal)
              (perform cfg0 js0
                 (Download {| down_thingName := "dev-1"; down_commandId := "c1";
                              requestedFileAliases := ["constructor"] |})) tt) =
         Ev (CommandsGet
               (commandOf (Download {| down_thingName := "dev-1"; down_commandId := "c1";
                                       requestedFileAliases := ["constructor"] |})))
            (inr (Some c))
         :: Ev (IotDescribeJob (jobId c)) (inr dj)
         :: Ev (TemplatesGet (templateId c)) (inr t)
         :: rest
       /\ job dj = Some j /\ Presigned.targets j = Some targets
       /\ Targeted
            (thingOf (Download {| down_thingName := "dev-1"; down_commandId := "c1";
                                  requestedFileAliases := ["constructor"] |}))
            targets
            (groups_answered
               (snd (invoke (world nominal)
                       (perform cfg0 js0
                          (Download {| down_thingName := "dev-1"; down_commandId := "c1";
                                       requestedFileAliases := ["constructor"] |})) tt)))
       /\ In k (keysOf (Download {| down_thingName := "dev-1"; down_commandId := "c1";
                                    requestedFileAliases := ["constructor"] |}))
       /\ Requested cfg0 js0
            (Download {| down_thingName := "dev-1"; down_commandId := "c1";
                         requestedFileAliases := ["constructor"] |})
            c t k "getObject" None None (Some 300%Z).
Proof.
  split; [left; reflexivity|].
  apply (@signing_is_guarded cfg0 js0 unit (world nominal) tt
           (Download {| down_thingName := "dev-1"; down_commandId := "c1";
                        requestedFileAliases := ["constructor"] |})
           "getObject" None None (Some 300%Z)
           (inr "https://undefined/undefined?getObject")).
  left; reflexivity.
Defined.

Lemma perform_served cfg js op s :
  alwaysM (perform cfg js op) s (fun r _ tr =>
    forall resp, r = inr resp -> status resp = SUCCESS ->
      exists c dj t rest urls,
        tr = Ev (CommandsGet (commandOf op)) (inr (Some c))
             :: Ev (IotDescribeJob (jobId c)) (inr dj)
             :: Ev (TemplatesGet (templateId c)) (inr t)
             :: rest
        /\ presignedUrls resp = Some urls
        /\ (forall k, In k (keysOf op) ->
            exists operation bucket key' expires url,
              Requested cfg js op c t k operation bucket key' expires
              /\ In (operation, bucket, key', expires, inr url) (signings tr)
              /\ (k <> "__proto__" -> own k urls = Some url))
        /\ (forall k, ~ In k (keysOf op) \/ k = "__proto__" -> own k urls = None)).
Proof.
  destruct op as [request | request]; simpl perform; p_run.
  all: p_units; subst.
  all: intros resp Hr Hs; try discriminate Hr.
  all: injection Hr as <-; try discriminate Hs.
  all: destruct (Hul _ eq_refl) as [Hin Hout].
  all: exists c, r0, r1; eexists; eexists.
  all: split; [flatten; reflexivity |].
  all: split; [reflexivity |].
  all: simpl keysOf; rewrite E0.
  all: split; [| exact Hout].
  all: intros k Hk; destruct (Hin k Hk) as (o1 & b1 & k1 & e1 & u1 & HP & Hi & Hl).
  all: exists o1, b1, k1, e1, u1.
  all: split; [exact HP |]; split; [| exact Hl].
  all: unfold signings in *.
  all: repeat first [ rewrite flat_map_app | rewrite flat_map_cons ].
  all: rewrite Hsv; simpl; rewrite ?app_nil_r; exact Hi.
Qed.

(** X17. When [generateForUpload] or [generateForDownload] returns a
    response of status [SUCCESS], the command, its job and its template
    were read, and for every requested key or alias S3 answered a URL when
    asked to sign what the operation requests for it. The URLs of the
    response have this URL as the entry of the key, except for the key
    [__proto__], for which the assignment creates no entry; they have no
    entry for anything that was not requested, nor for [__proto__]. *)
Theorem success_has_signed_every_key (cfg : Config) (js : Runtime) (W : Type)
  (h : Handler W) (w : W) (op : Operation) (resp : PresignedResponseModel) :
  fst (invoke h (perform cfg js op) w) = inr resp ->
  status resp = SUCCESS ->
  exists c dj t rest urls,
    snd (invoke h (perform cfg js op) w) =
      Ev (CommandsGet (commandOf op)) (inr (Some c))
      :: Ev (IotDescribeJob (jobId c)) (inr dj)
      :: Ev (TemplatesGet (templateId c)) (inr t)
      :: rest
    /\ presignedUrls resp = Some urls
    /\ (forall k, In k (keysOf op) ->
        exists operation bucket key' expires url,
          Requested cfg js op c t k operation bucket key' expires
          /\ In (operation, bucket, key', expires, inr url)
               (signings (snd (invoke h (perform cfg js op) w)))
          /\ (k <> "__proto__" -> own k urls = Some url))
    /\ (forall k, ~ In k (keysOf op) \/ k = "__proto__" -> own k urls = None).
Proof.
  revert resp.
  apply (always_invoke h (perform cfg js op) w (fun r tr =>
    forall resp, r = inr resp -> status resp = SUCCESS ->
      exists c dj t rest urls,
        tr = Ev (CommandsGet (commandOf op)) (inr (Some c))
             :: Ev (IotDescribeJob (jobId c)) (inr dj)
             :: Ev (TemplatesGet (templateId c)) (inr t)
             :: rest
        /\ presignedUrls resp = Some urls
        /\ (forall k, In k (keysOf op) ->
            exists operation bucket key' expires url,
              Requested cfg js op c t k operation bucket key' expires
              /\ In (operation, bucket, key', expires, inr url) (signings tr)
              /\ (k <> "__proto__" -> own k urls = Some url))
        /\ (forall k, ~ In k (keysOf op) \/ k = "__proto__" -> own k urls = None))).
  apply perform_served.
Qed.

(** The device asks for the keys [log.txt] and [__proto__]: both are
    signed, the response is a success and carries the first URL only. *)
Lemma success_has_signed_every_key_witness :
  fst (invoke (world nominal)
         (perform cfg0 js0
            (Upload {| up_thingName := "dev-1"; up_commandId := "c1";
                       requestedObjectKeys := ["log.txt"; "__proto__"] |})) tt) =
    inr {| thingName := "dev-1"; commandId := "c1"; status := SUCCESS;
           presignedUrls :=
             Some [("log.txt",
                    "https://commands-bucket/cdf/commands/c1/uploads/dev-1/log.txt?putObject")]
        |}
  /\ status {| thingName := "dev-1"; commandId := "c1"; status := SUCCESS;
               presignedUrls :=
                 Some [("log.txt",
                        "https://commands-bucket/cdf/commands/c1/uploads/dev-1/log.txt?putObject")]
            |} = SUCCESS
  /\ exists c dj t rest urls,
       snd (invoke (world nominal)
              (perform cfg0 js0
                 (Upload {| up_thingName := "dev-1"; up_commandId := "c1";
                            requestedObjectKeys := ["log.txt"; "__proto__"] |})) tt) =
         Ev (CommandsGet
               (commandOf (Upload {| up_thingName := "dev-1"; up_commandId := "c1";
                                     requestedObjectKeys := ["log.txt"; "__proto__"] |})))
            (inr (Some c))
         :: Ev (IotDescribeJob (jobId c)) (inr dj)
         :: Ev (TemplatesGet (templateId c)) (inr t)
         :: rest
       /\ presignedUrls
            {| thingName := "dev-1"; commandId := "c1"; status := SUCCESS;
               presignedUrls :=
                 Some [("log.txt",
                        "https://commands-bucket/cdf/commands/c1/uploads/dev-1/log.txt?putObject")]
            |} = Some urls
       /\ (forall k,
             In k (keysOf (Upload {| up_thingName := "dev-1"; up_commandId := "c1";
                                     requestedObjectKeys := ["log.txt"; "__proto__"] |})) ->
           exists operation bucket key' expires url,
             Requested cfg0 js0
               (Upload {| up_thingName := "dev-1"; up_commandId := "c1";
                          requestedObjectKeys := ["log.txt"; "__proto__"] |})
               c t k operation bucket key' expires
             /\ In (operation, bucket, key', expires, inr url)
                  (signings
                     (snd (invoke (world nominal)
                             (perform cfg0 js0
                                (Upload {| up_thingName := "dev-1"; up_commandId := "c1";
                                           requestedObjectKeys :=
                                             ["log.txt"; "__proto__"] |})) tt)))
             /\ (k <> "__proto__" -> own k urls = Some url))
       /\ (forall k,
             ~ In k (keysOf (Upload {| up_thingName := "dev-1"; up_commandId := "c1";
                                       requestedObjectKeys := ["log.txt"; "__proto__"] |}))
             \/ k = "__proto__" ->
           own k urls = None).
Proof.
  split; [reflexivity|]. split; [reflexivity|].
  apply (@success_has_signed_every_key cfg0 js0 unit (world nominal) tt
           (Upload {| up_thingName := "dev-1"; up_commandId := "c1";
                      requestedObjectKeys := ["log.txt"; "__proto__"] |})
           {| thingName := "dev-1"; commandId := "c1"; status := SUCCESS;
              presignedUrls :=
                Some [("log.txt",
                       "https://commands-bucket/cdf/commands/c1/uploads/dev-1/log.txt?putObject")]
           |}).
  - reflexivity.
  - reflexivity.
Defined.

(** A device that asks for the key [__proto__] alone gets a success
    without any URL. *)
Example upload_of_the_key_proto :
  fst (invoke (world nominal)
         (perform cfg0 js0
            (Upload {| up_thingName := "dev-1"; up_commandId := "c1";
                       requestedObjectKeys := ["__proto__"] |})) tt) =
    inr {| thingName := "dev-1"; commandId := "c1"; status := SUCCESS;
           presignedUrls := Some [] |}.
Proof. reflexivity. Qed.

End PresignedProofs.
